(** * Whispo: speech capture and multi-provider transcription

    A shallow embedding of the main-process modules of the dictation tool
    (fusion transcription, application rules, voice activation, streaming
    dictation) and the properties proved about them.

    Conventions of the embedding.
    - A JavaScript string is a [string]: a sequence of code units below 256
      (Latin-1).  On that range [toLowerCase] and the class [\s] of regular
      expressions are the functions written out in [JS].
    - A JavaScript number that holds a score (a confidence, a weight) is a
      binary64 [float], computed with the kernel's primitive operations; a
      number that holds a priority or a time in milliseconds is an integer
      [Z], and a length or a count is a [nat].
    - [Date.now()], the network and the renderer windows are inputs: a clock
      value, an oracle of provider outcomes, and flags saying which windows
      exist.  What a function sends to a window is returned as a list of
      effects. *)

From Stdlib Require Import List String Ascii ZArith Bool Arith Lia.
From Stdlib Require Import Floats Uint63.
From Stdlib Require Import Permutation Sorted.
Import ListNotations.

Set Warnings "-inexact-float".

Local Open Scope string_scope.
Local Open Scope nat_scope.

(* ================================================================== *)
(** * The JavaScript built-ins the modules rely on *)
(* ================================================================== *)

Module JS.

(** [String.prototype.toLowerCase] on one code unit below 256: the letters
    A-Z and the accented capitals U+00C0-U+00DE (the sign U+00D7 apart) move
    up by 32; every other code unit is its own lower case. *)
Definition toLowerCase_char (c : ascii) : ascii :=
  let n := nat_of_ascii c in
  if ((65 <=? n) && (n <=? 90)) || ((192 <=? n) && (n <=? 222) && negb (n =? 215))
  then ascii_of_nat (n + 32)
  else c.

Fixpoint toLowerCase (s : string) : string :=
  match s with
  | EmptyString => EmptyString
  | String c rest => String (toLowerCase_char c) (toLowerCase rest)
  end.

(** The class [\s] below 256: TAB, LF, VT, FF, CR, SPACE and NO-BREAK SPACE. *)
Definition is_whitespace (c : ascii) : bool :=
  let n := nat_of_ascii c in
  ((9 <=? n) && (n <=? 13)) || (n =? 32) || (n =? 160).

(** [s.split(/\s+/)]: the pieces between maximal runs of white space.  A
    string that starts (ends) with white space yields a leading (trailing)
    empty piece, and the empty string yields one empty piece.  [cur] is the
    piece being read, [prev_ws] tells that the previous code unit was white
    space. *)
Fixpoint split_ws_from (s cur : string) (prev_ws : bool) : list string :=
  match s with
  | EmptyString => [cur]
  | String c rest =>
      if is_whitespace c then
        if prev_ws then split_ws_from rest EmptyString true
        else cur :: split_ws_from rest EmptyString true
      else split_ws_from rest (cur ++ String c EmptyString) false
  end.

Definition split_ws (s : string) : list string := split_ws_from s EmptyString false.

(** [words.join(" ")]. *)
Definition join (sep : string) (l : list string) : string := String.concat sep l.

Fixpoint trimStart_list (l : list ascii) : list ascii :=
  match l with
  | c :: rest => if is_whitespace c then trimStart_list rest else l
  | [] => []
  end.

(** [s.trim()]. *)
Definition trim (s : string) : string :=
  string_of_list_ascii
    (rev (trimStart_list (rev (trimStart_list (list_ascii_of_string s))))).

(** [n] as a JavaScript number, for a length or a count. *)
Definition number_of_nat (n : nat) : float :=
  PrimFloat.of_uint63 (Uint63.of_Z (Z.of_nat n)).

(** [a > b] and [a >= b] on numbers (false as soon as one is NaN). *)
Definition gt (a b : float) : bool := PrimFloat.ltb b a.
Definition ge (a b : float) : bool := PrimFloat.leb b a.

(** [Math.max(x, y)] and [Math.min(x, y)]: NaN when an argument is NaN, and
    +0 counts as larger than -0. *)
Definition Math_max (x y : float) : float :=
  if PrimFloat.is_nan x || PrimFloat.is_nan y then PrimFloat.nan
  else if PrimFloat.ltb x y then y
  else if PrimFloat.ltb y x then x
  else if PrimFloat.is_zero x && PrimFloat.get_sign x then y
  else x.

Definition Math_min (x y : float) : float :=
  if PrimFloat.is_nan x || PrimFloat.is_nan y then PrimFloat.nan
  else if PrimFloat.ltb x y then x
  else if PrimFloat.ltb y x then y
  else if PrimFloat.is_zero x && PrimFloat.get_sign x then x
  else y.

(** [Math.max(...xs)]: minus infinity for no argument. *)
Definition Math_max_list (xs : list float) : float :=
  fold_left Math_max xs PrimFloat.neg_infinity.

(** Truthiness of a number: false for 0, -0 and NaN. *)
Definition truthy_number (x : float) : bool :=
  negb (PrimFloat.is_zero x || PrimFloat.is_nan x).

(** [x || d] where [x] is a number that may be undefined. *)
Definition number_or (x : option float) (d : float) : float :=
  match x with
  | Some v => if truthy_number v then v else d
  | None => d
  end.

(** [x || d] where [x] is an integer-valued number. *)
Definition int_or (x d : Z) : Z := if Z.eqb x 0 then d else x.

(** Truthiness of a string: false for the empty string. *)
Definition truthy_string (s : string) : bool :=
  match s with EmptyString => false | String _ _ => true end.

(** [arr.reduce(f)] with no initial value: the first element starts the
    fold, and an empty array raises a TypeError ([None]). *)
Definition reduce {A : Type} (f : A -> A -> A) (arr : list A) : option A :=
  match arr with
  | [] => None
  | x :: rest => Some (fold_left f rest x)
  end.

(** A [Map] with string keys: the entries in insertion order.  [set] on a
    key already present replaces its value in place. *)
Definition Map (V : Type) : Type := list (string * V).

Fixpoint Map_get {V : Type} (m : Map V) (k : string) : option V :=
  match m with
  | [] => None
  | (k', v) :: rest => if String.eqb k' k then Some v else Map_get rest k
  end.

Fixpoint Map_set {V : Type} (m : Map V) (k : string) (v : V) : Map V :=
  match m with
  | [] => [(k, v)]
  | (k', v') :: rest =>
      if String.eqb k' k then (k', v) :: rest else (k', v') :: Map_set rest k v
  end.

End JS.

(* ================================================================== *)
(** * Fusion transcription (the fusion module) *)
(* ================================================================== *)

Module Fusion.

Local Open Scope float_scope.

(** [STT_PROVIDER_ID], the values of [STT_PROVIDERS]. *)
Inductive STT_PROVIDER_ID : Type := openai | groq.

Definition provider_eqb (a b : STT_PROVIDER_ID) : bool :=
  match a, b with
  | openai, openai | groq, groq => true
  | _, _ => false
  end.

Definition provider_name (p : STT_PROVIDER_ID) : string :=
  match p with openai => "openai" | groq => "groq" end.

Inductive FusionStrategy : Type :=
  | best_confidence
  | majority_vote
  | weighted_average
  | consensus
  | primary_fallback.

Record TranscriptionResult : Type := mkTranscriptionResult {
  provider : STT_PROVIDER_ID;
  transcript : string;
  confidence : float;
  processingTime : Z;
  success : bool;
  error : option string
}.

Record FusionConfig : Type := mkFusionConfig {
  enabled : bool;
  strategy : FusionStrategy;
  providers : list STT_PROVIDER_ID;
  primaryProvider : option STT_PROVIDER_ID;
  timeoutMs : Z;
  minProvidersRequired : Z;
  confidenceThreshold : float;
  enableParallel : bool;
  providerWeights : STT_PROVIDER_ID -> option float
}.

(** The fields [confidence], [strategy] and [processingTime] of the result
    carry a prefix here, the names being taken by the records above. *)
Record FusionResult : Type := mkFusionResult {
  finalTranscript : string;
  fusedConfidence : float;
  usedStrategy : FusionStrategy;
  results : list TranscriptionResult;
  totalProcessingTime : Z;
  providersUsed : list STT_PROVIDER_ID
}.

(** The API keys of the global configuration ([None]: not set). *)
Record GlobalConfig : Type := mkGlobalConfig {
  openaiApiKey : option string;
  groqApiKey : option string
}.

(** How one HTTP request to a provider ends: a 2xx answer with its text, a
    failure with its message, or no answer within [timeoutMs]. *)
Inductive FetchOutcome : Type :=
  | Responded (text : string)
  | Rejected (message : string)
  | NoAnswerInTime.

(** The network as an input: the fate of the [i]-th dispatched request and
    the milliseconds [Date.now()] advanced while it was awaited. *)
Record Network : Type := mkNetwork {
  fetch : nat -> STT_PROVIDER_ID -> FetchOutcome;
  elapsed : nat -> STT_PROVIDER_ID -> Z
}.

(** What a call raises. *)
Inductive Thrown : Type :=
  | FusionFailed (succeeded : nat) (required : Z)
  | TypeError_reduce_of_empty_array.

Inductive completion (A : Type) : Type :=
  | Returned (a : A)
  | Threw (e : Thrown).
Arguments Returned {A} a.
Arguments Threw {A} e.

(** ** estimateConfidence *)

Definition baseConfidence_table (p : STT_PROVIDER_ID) : option float :=
  match p with
  | openai => Some 0.9
  | groq => Some 0.85
  end.

Definition estimateConfidence
    (transcript : string) (provider : STT_PROVIDER_ID) (processingTime : Z) : float :=
  let baseConfidence := JS.number_or (baseConfidence_table provider) 0.7 in
  let confidence := baseConfidence in
  let confidence :=
    if (50 <? String.length transcript)%nat then confidence + 0.05 else confidence in
  let confidence :=
    if (String.length transcript <? 5)%nat then confidence - 0.2 else confidence in
  let confidence :=
    if (processingTime <? 1000)%Z then confidence - 0.1
    else if (10000 <? processingTime)%Z then confidence - 0.05
    else confidence in
  let wordCount := List.length (JS.split_ws transcript) in
  let avgWordLength :=
    JS.number_of_nat (String.length transcript) / JS.number_of_nat wordCount in
  let confidence :=
    if JS.gt avgWordLength 15 then confidence - 0.15 else confidence in
  JS.Math_max 0.1 (JS.Math_min 0.99 confidence).

(** ** Provider calls *)

Definition apiKey_of (g : GlobalConfig) (p : STT_PROVIDER_ID) : option string :=
  match p with
  | groq => groqApiKey g
  | openai => openaiApiKey g
  end.

Definition truthy_key (k : option string) : bool :=
  match k with Some s => JS.truthy_string s | None => false end.

(** [transcribeWithProvider] raced against the timeout: the transcript
    ([inl]) or the message of the error caught by [processProvider]
    ([inr]).  A missing key is rejected before any request is sent. *)
Definition transcribeWithProvider
    (g : GlobalConfig) (p : STT_PROVIDER_ID) (answer : FetchOutcome) : string + string :=
  if truthy_key (apiKey_of g p) then
    match answer with
    | Responded text => inl text
    | Rejected message => inr message
    | NoAnswerInTime => inr "Timeout"
    end
  else inr ("API key not configured for " ++ provider_name p)%string.

Definition processProvider
    (net : Network) (g : GlobalConfig) (i : nat) (p : STT_PROVIDER_ID) : TranscriptionResult :=
  let processingTime := elapsed net i p in
  match transcribeWithProvider g p (fetch net i p) with
  | inl text =>
      mkTranscriptionResult p text (estimateConfidence text p processingTime)
        processingTime true None
  | inr message =>
      mkTranscriptionResult p "" 0 processingTime false (Some message)
  end.

(** [providers.map(...)] joined by [Promise.all]: the results in the order
    of the providers. *)
Fixpoint processProvidersParallel_from
    (net : Network) (g : GlobalConfig) (i : nat) (ps : list STT_PROVIDER_ID)
  : list TranscriptionResult :=
  match ps with
  | [] => []
  | p :: rest => processProvider net g i p :: processProvidersParallel_from net g (S i) rest
  end.

Definition processProvidersParallel net g ps := processProvidersParallel_from net g 0 ps.

(** The sequential loop: each result is pushed when its call has settled. *)
Definition processProvidersSequential
    (net : Network) (g : GlobalConfig) (ps : list STT_PROVIDER_ID)
  : list TranscriptionResult :=
  snd (fold_left
         (fun (acc : nat * list TranscriptionResult) p =>
            (S (fst acc), (snd acc ++ [processProvider net g (fst acc) p])%list))
         ps (0%nat, [])).

(** ** Strategies *)

(** [(best, current) => current.confidence > best.confidence ? current : best] *)
Definition moreConfident (best current : TranscriptionResult) : TranscriptionResult :=
  if JS.gt (confidence current) (confidence best) then current else best.

(** [r.transcript.toLowerCase().split(/\s+/).filter(word => word.length > 0)] *)
Definition tokenize (t : string) : list string :=
  filter (fun word => (0 <? String.length word)%nat) (JS.split_ws (JS.toLowerCase t)).

(** The votes at position [i]: one per word list that is long enough, in
    the order of the providers. *)
Definition countVotes (wordLists : list (list string)) (i : nat) : JS.Map nat :=
  fold_left
    (fun wordCounts wordList =>
       match nth_error wordList i with
       | Some word =>
           JS.Map_set wordCounts word
             (match JS.Map_get wordCounts word with Some n => n | None => 0%nat end + 1)%nat
       | None => wordCounts
       end)
    wordLists [].

(** [(best, current) => current[1] > best[1] ? current : best] *)
Definition moreVotes {K : Type} (best current : K * nat) : K * nat :=
  if (snd best <? snd current)%nat then current else best.

(** [Math.max(...wordLists.map(list => list.length))], for at least one list. *)
Definition maxLength (wordLists : list (list string)) : nat :=
  fold_left Nat.max (map (@List.length string) wordLists) 0%nat.

Definition mostCommonWord (wordLists : list (list string)) (i : nat) : list string :=
  match JS.reduce moreVotes (countVotes wordLists i) with
  | Some entry => [fst entry]
  | None => []
  end.

Definition combineMajorityVote (rs : list TranscriptionResult) : string :=
  match rs with
  | [] => ""
  | [r] => transcript r
  | _ =>
      let wordLists := map (fun r => tokenize (transcript r)) rs in
      let finalWords := flat_map (mostCommonWord wordLists) (seq 0 (maxLength wordLists)) in
      JS.join " " finalWords
  end.

Definition combineWeightedAverage
    (rs : list TranscriptionResult) (weights : STT_PROVIDER_ID -> option float) : string :=
  match rs with
  | [] => ""
  | [r] => transcript r
  | first :: rest =>
      let totalWeight r := JS.number_or (weights (provider r)) 1.0 * confidence r in
      transcript
        (fold_left
           (fun best current =>
              if JS.gt (totalWeight current) (totalWeight best) then current else best)
           rest first)
  end.

Definition countTranscripts (ts : list string) : JS.Map nat :=
  fold_left
    (fun counts t =>
       JS.Map_set counts t
         (match JS.Map_get counts t with Some n => n | None => 0%nat end + 1)%nat)
    ts [].

Definition combineConsensus (rs : list TranscriptionResult) (threshold : float) : string :=
  match rs with
  | [] => ""
  | [r] => transcript r
  | first :: rest =>
      let highConfidenceResults := filter (fun r => JS.ge (confidence r) threshold) rs in
      match highConfidenceResults with
      | [] => transcript (fold_left moreConfident rest first)
      | _ =>
          let transcripts :=
            map (fun r => JS.trim (JS.toLowerCase (transcript r))) highConfidenceResults in
          match JS.reduce moreVotes (countTranscripts transcripts) with
          | Some entry => fst entry
          | None => ""
          end
      end
  end.

Definition applyFusionStrategy
    (rs : list TranscriptionResult) (s : FusionStrategy) (config : FusionConfig)
  : completion string :=
  match s with
  | best_confidence =>
      match JS.reduce moreConfident rs with
      | Some best => Returned (transcript best)
      | None => Threw TypeError_reduce_of_empty_array
      end
  | primary_fallback =>
      let isPrimary r :=
        match primaryProvider config with
        | Some p => provider_eqb (provider r) p
        | None => false
        end in
      let primaryResult := find isPrimary rs in
      match primaryResult with
      | Some r =>
          if JS.ge (confidence r) (confidenceThreshold config)
          then Returned (transcript r)
          else
            match filter (fun r => negb (isPrimary r)) rs with
            | [] => Returned (transcript r)
            | first :: rest => Returned (transcript (fold_left moreConfident rest first))
            end
      | None =>
          match filter (fun r => negb (isPrimary r)) rs with
          | [] => Returned ""
          | first :: rest => Returned (transcript (fold_left moreConfident rest first))
          end
      end
  | majority_vote => Returned (combineMajorityVote rs)
  | weighted_average => Returned (combineWeightedAverage rs (providerWeights config))
  | consensus => Returned (combineConsensus rs (confidenceThreshold config))
  end.

Definition sumConfidence (rs : list TranscriptionResult) : float :=
  fold_left (fun sum r => sum + confidence r) rs 0.

Definition calculateOverallConfidence
    (rs : list TranscriptionResult) (s : FusionStrategy) : float :=
  match rs with
  | [] => 0
  | _ =>
      match s with
      | best_confidence => JS.Math_max_list (map confidence rs)
      | primary_fallback | consensus =>
          sumConfidence rs / JS.number_of_nat (List.length rs)
      | majority_vote =>
          JS.Math_min 0.95 (JS.number_of_nat (List.length rs) * 0.2 + 0.3)
      | weighted_average =>
          sumConfidence rs / JS.number_of_nat (List.length rs)
      end
  end.

(** ** fusionTranscribe

    [clock] is what [Date.now() - startTime] reads when the result is
    built. *)
Definition fusionTranscribe
    (net : Network) (globalConfig : GlobalConfig) (clock : Z) (config : FusionConfig)
  : completion FusionResult :=
  let results :=
    if enableParallel config
    then processProvidersParallel net globalConfig (providers config)
    else processProvidersSequential net globalConfig (providers config) in
  let successfulResults := filter success results in
  if (Z.of_nat (List.length successfulResults) <? minProvidersRequired config)%Z then
    Threw (FusionFailed (List.length successfulResults) (minProvidersRequired config))
  else
    match applyFusionStrategy successfulResults (strategy config) config with
    | Threw e => Threw e
    | Returned finalTranscript =>
        let confidence := calculateOverallConfidence successfulResults (strategy config) in
        Returned
          (mkFusionResult finalTranscript confidence (strategy config) results clock
             (map provider successfulResults))
    end.

End Fusion.

(* ================================================================== *)
(** * Regular expressions, as far as the rule patterns need them *)
(* ================================================================== *)

Module RegExp.

(** [new RegExp(source, 'i').test(subject)] either answers or raises a
    SyntaxError, when [source] is not a pattern. *)
Inductive outcome : Type :=
  | Tested (b : bool)
  | SyntaxError.

(** The engine, as the interface the application rules use.  What is
    proved about rule matching is proved for every engine. *)
Class Engine : Type := { test_i : string -> string -> outcome }.

(** ** The engine on plain patterns

    A pattern is read as a sequence of atoms, each one code unit (matched
    without regard to case) or a dot, each followed by at most one of the
    quantifiers [*], [+], [?], itself followed by at most one [?] (lazy).
    A quantifier with nothing to repeat is a SyntaxError, as in JavaScript.
    The brackets, anchors, the bar and the backslash are not read: a source
    that holds one is refused here as well, although JavaScript accepts
    many of them.  This engine serves the examples, and every source they
    use is free of those characters. *)

Inductive atom : Type :=
  | Char (c : ascii)
  | Dot.

Inductive quantifier : Type := One | Star | Plus | Opt.

Definition term : Type := (atom * quantifier)%type.

Definition is_quantifier_char (c : ascii) : option quantifier :=
  if Ascii.eqb c "*" then Some Star
  else if Ascii.eqb c "+" then Some Plus
  else if Ascii.eqb c "?" then Some Opt
  else None.

Definition is_unread_syntax (c : ascii) : bool :=
  existsb (Ascii.eqb c)
    ["^"; "$"; "\"; "("; ")"; "["; "]"; "{"; "}"; "|"]%char.

Definition atom_of (c : ascii) : atom := if Ascii.eqb c "." then Dot else Char c.

(** [parse_from s last]: the terms of [s].  [last] holds the atom read last
    when a quantifier may still follow it ([inl]: a quantifier, [inr]: only
    the lazy mark). *)
Fixpoint parse_from (s : string) (acc : list term) (last : option (atom + unit))
  : option (list term) :=
  match s with
  | EmptyString =>
      Some (rev match last with
                | Some (inl a) => (a, One) :: acc
                | _ => acc
                end)
  | String c rest =>
      if is_unread_syntax c then None
      else
        match is_quantifier_char c, last with
        | Some q, Some (inl a) => parse_from rest ((a, q) :: acc) (Some (inr tt))
        | Some Opt, Some (inr _) => parse_from rest acc None
        | Some _, _ => None
        | None, Some (inl a) => parse_from rest ((a, One) :: acc) (Some (inl (atom_of c)))
        | None, _ => parse_from rest acc (Some (inl (atom_of c)))
        end
  end.

Definition parse (source : string) : option (list term) := parse_from source [] None.

(** A dot matches every code unit but the line terminators LF and CR. *)
Definition atom_matches (a : atom) (c : ascii) : bool :=
  match a with
  | Char p => Ascii.eqb (JS.toLowerCase_char p) (JS.toLowerCase_char c)
  | Dot => negb (Ascii.eqb c "010" || Ascii.eqb c "013")
  end.

(** [repeat_then a k s]: some number of code units matched by [a], then [k]. *)
Fixpoint repeat_then (a : atom) (k : list ascii -> bool) (s : list ascii) : bool :=
  k s ||
  match s with
  | c :: rest => atom_matches a c && repeat_then a k rest
  | [] => false
  end.

Definition once_then (a : atom) (k : list ascii -> bool) (s : list ascii) : bool :=
  match s with
  | c :: rest => atom_matches a c && k rest
  | [] => false
  end.

(** Whether the terms match a prefix of the subject. *)
Fixpoint match_prefix (ts : list term) : list ascii -> bool :=
  match ts with
  | [] => fun _ => true
  | (a, q) :: rest =>
      let k := match_prefix rest in
      match q with
      | One => once_then a k
      | Opt => fun s => k s || once_then a k s
      | Star => repeat_then a k
      | Plus => once_then a (repeat_then a k)
      end
  end.

(** [test] searches: the terms may match at any position of the subject. *)
Fixpoint search (ts : list term) (s : list ascii) : bool :=
  match_prefix ts s ||
  match s with
  | _ :: rest => search ts rest
  | [] => false
  end.

Definition plain_test_i (source subject : string) : outcome :=
  match parse source with
  | Some ts => Tested (search ts (list_ascii_of_string subject))
  | None => SyntaxError
  end.

#[export] Instance PlainEngine : Engine := {| test_i := plain_test_i |}.

End RegExp.

(* ================================================================== *)
(** * Application rules (the application detection module) *)
(* ================================================================== *)

Module AppDetector.

Record ActiveAppInfo : Type := mkActiveAppInfo {
  name : string;
  executable : string;
  title : string;
  lastUpdated : Z
}.

(** The fields of [AppRule] that rule matching reads, and the provider
    override as one of the overrides it carries along.  [rule_executable]
    is the optional field [executable] of the rule. *)
Record AppRule : Type := mkAppRule {
  id : string;
  appName : string;
  rule_executable : option string;
  enabled : bool;
  priority : Z;
  sttProviderId : option Fusion.STT_PROVIDER_ID
}.

Inductive completion (A : Type) : Type :=
  | Returned (a : A)
  | ThrewSyntaxError.
Arguments Returned {A} a.
Arguments ThrewSyntaxError {A}.

(** [pattern.replace(/\*/g, '.*')] *)
Fixpoint replace_stars (pattern : string) : string :=
  match pattern with
  | EmptyString => EmptyString
  | String c rest =>
      if Ascii.eqb c "*" then String "." (String "*" (replace_stars rest))
      else String c (replace_stars rest)
  end.

Section Matching.

Context {engine : RegExp.Engine}.

(** [new RegExp(pattern.replace(/\*/g, '.*'), 'i').test(subject)] *)
Definition pattern_test (pattern subject : string) : RegExp.outcome :=
  RegExp.test_i (replace_stars pattern) subject.

(** The body of the loop: the value of [matches] for one rule. *)
Definition ruleMatches (appInfo : ActiveAppInfo) (rule : AppRule) : completion bool :=
  let by_name :=
    if JS.truthy_string (appName rule)
    then pattern_test (appName rule) (name appInfo)
    else RegExp.Tested false in
  match by_name with
  | RegExp.SyntaxError => ThrewSyntaxError
  | RegExp.Tested true => Returned true
  | RegExp.Tested false =>
      match rule_executable rule with
      | Some pattern =>
          if JS.truthy_string pattern then
            match pattern_test pattern (executable appInfo) with
            | RegExp.SyntaxError => ThrewSyntaxError
            | RegExp.Tested b => Returned b
            end
          else Returned false
      | None => Returned false
      end
  end.

(** The loop over the enabled rules, filling [matchingRules]. *)
Fixpoint collectMatching (appInfo : ActiveAppInfo) (enabledRules : list AppRule)
  : completion (list AppRule) :=
  match enabledRules with
  | [] => Returned []
  | rule :: rest =>
      match ruleMatches appInfo rule with
      | ThrewSyntaxError => ThrewSyntaxError
      | Returned matches =>
          match collectMatching appInfo rest with
          | ThrewSyntaxError => ThrewSyntaxError
          | Returned found => Returned (if matches then rule :: found else found)
          end
      end
  end.

(** [matchingRules.sort((a, b) => b.priority - a.priority)].  The sort of
    arrays is stable and the comparison orders the integer priorities
    downwards, so the result is the one arrangement that is sorted and keeps
    rules of equal priority in their order; insertion from the right
    computes it. *)
Fixpoint insert_by_priority (r : AppRule) (sorted : list AppRule) : list AppRule :=
  match sorted with
  | [] => [r]
  | x :: rest =>
      if (priority x <=? priority r)%Z then r :: sorted
      else x :: insert_by_priority r rest
  end.

Definition sort_by_priority (l : list AppRule) : list AppRule :=
  fold_right insert_by_priority [] l.

Definition findMatchingRule (appInfo : ActiveAppInfo) (rules : list AppRule)
  : completion (option AppRule) :=
  match rules with
  | [] => Returned None
  | _ =>
      let enabledRules := filter enabled rules in
      match collectMatching appInfo enabledRules with
      | ThrewSyntaxError => ThrewSyntaxError
      | Returned [] => Returned None
      | Returned matchingRules => Returned (hd_error (sort_by_priority matchingRules))
      end
  end.

End Matching.

End AppDetector.

(* ================================================================== *)
(** * Voice activation (the voice activation manager and its state) *)
(* ================================================================== *)

Module VoiceActivation.

Record VoiceActivationConfig : Type := mkVoiceActivationConfig {
  enabled : bool;
  sensitivity : Z;
  silenceThreshold : Z;
  noiseGate : Z;
  minRecordingDuration : Z;
  maxRecordingDuration : Z
}.

(** [state.voiceActivation]; [silenceTimer] holds the handle of a timer. *)
Record VoiceActivationState : Type := mkVoiceActivationState {
  isEnabled : bool;
  isListening : bool;
  audioLevel : float;
  silenceTimer : option nat;
  recordingStartTime : Z
}.

(** The part of [state] the manager reads and writes. *)
Record State : Type := mkState {
  isRecording : bool;
  voiceActivation : VoiceActivationState
}.

(** The initial [state]. *)
Definition initial_state : State :=
  mkState false (mkVoiceActivationState false false 0%float None 0).

(** A timer set by [onSilenceDetected] and not yet fired or cleared: its
    handle, its delay, and the [minDuration] its callback has captured. *)
Record Timer : Type := mkTimer {
  handle : nat;
  delay : Z;
  minDuration : Z
}.

Record Manager : Type := mkManager {
  isInitialized : bool;
  voiceActivationWindow : bool
}.

(** What the manager sends out: the two commands to its hidden window, and
    [finishRecording] to the panel.  [showPanelWindowAndStartRecording] and
    [stopRecordingAndHidePanelWindow] are the calls into the window module,
    recorded as such: they show or hide the panel and tell its renderer to
    start or stop recording, and touch nothing of [state];
    [state.isRecording] changes only when the renderer reports back through
    [recordEvent]. *)
Inductive Message : Type :=
  | voice_activation_start
  | voice_activation_stop
  | finishRecording
  | showPanelWindowAndStartRecording
  | stopRecordingAndHidePanelWindow.

(** The manager, the shared state, the timers the event loop holds, whether
    the panel window exists, and the messages sent so far. *)
Record World : Type := mkWorld {
  state : State;
  manager : Manager;
  timers : list Timer;
  nextHandle : nat;
  panel : bool;
  outbox : list Message
}.

Definition with_state (w : World) (s : State) : World :=
  mkWorld s (manager w) (timers w) (nextHandle w) (panel w) (outbox w).

Definition with_voice (w : World) (v : VoiceActivationState) : World :=
  with_state w (mkState (isRecording (state w)) v).

Definition set_isListening (b : bool) (w : World) : World :=
  let v := voiceActivation (state w) in
  with_voice w (mkVoiceActivationState (isEnabled v) b (audioLevel v) (silenceTimer v)
                  (recordingStartTime v)).

Definition set_audioLevel (level : float) (w : World) : World :=
  let v := voiceActivation (state w) in
  with_voice w (mkVoiceActivationState (isEnabled v) (isListening v) level (silenceTimer v)
                  (recordingStartTime v)).

Definition set_silenceTimer (t : option nat) (w : World) : World :=
  let v := voiceActivation (state w) in
  with_voice w (mkVoiceActivationState (isEnabled v) (isListening v) (audioLevel v) t
                  (recordingStartTime v)).

Definition set_recordingStartTime (now : Z) (w : World) : World :=
  let v := voiceActivation (state w) in
  with_voice w (mkVoiceActivationState (isEnabled v) (isListening v) (audioLevel v)
                  (silenceTimer v) now).

Definition send (m : Message) (w : World) : World :=
  mkWorld (state w) (manager w) (timers w) (nextHandle w) (panel w) (outbox w ++ [m]).

(** [clearTimeout(h)] *)
Definition clearTimeout (h : nat) (w : World) : World :=
  mkWorld (state w) (manager w)
    (filter (fun t => negb (Nat.eqb (handle t) h)) (timers w))
    (nextHandle w) (panel w) (outbox w).

(** [setTimeout(callback, delay)], the callback holding [minDuration]:
    the new handle, and the world with the timer pending. *)
Definition setTimeout (minDuration delay : Z) (w : World) : nat * World :=
  (nextHandle w,
   mkWorld (state w) (manager w)
     (timers w ++ [mkTimer (nextHandle w) delay minDuration])
     (S (nextHandle w)) (panel w) (outbox w)).

(** [if (state.voiceActivation.silenceTimer) { clearTimeout(...); ... = null }] *)
Definition clearSilenceTimer (w : World) : World :=
  match silenceTimer (voiceActivation (state w)) with
  | Some h => set_silenceTimer None (clearTimeout h w)
  | None => w
  end.

(** [!voiceConfig?.enabled || !state.voiceActivation.isListening] *)
Definition ignores_events (config : option VoiceActivationConfig) (w : World) : bool :=
  negb (match config with Some c => enabled c | None => false end)
  || negb (isListening (voiceActivation (state w))).

(** [recordEvent] of the IPC router: the renderer reports that recording
    has started ([true]) or ended. *)
Definition recordEvent (started : bool) (w : World) : World :=
  with_state w (mkState started (voiceActivation (state w))).

Definition stopRecording (w : World) : World :=
  let w := clearSilenceTimer w in
  if panel w then send finishRecording w else w.

Definition onVoiceDetected
    (config : option VoiceActivationConfig) (now : Z) (w : World) : World :=
  if ignores_events config w then w
  else
    let w := clearSilenceTimer w in
    if negb (isRecording (state w))
    then send showPanelWindowAndStartRecording (set_recordingStartTime now w)
    else w.

(** The callback of the silence timer, run at time [now]. *)
Definition silenceTimerCallback (minDuration now : Z) (w : World) : World :=
  let recordingDuration := (now - recordingStartTime (voiceActivation (state w)))%Z in
  if (minDuration <=? recordingDuration)%Z then stopRecording w else w.

Definition onSilenceDetected (config : option VoiceActivationConfig) (w : World) : World :=
  if ignores_events config w then w
  else
    match config with
    | None => w
    | Some voiceConfig =>
        let silenceThreshold := JS.int_or (silenceThreshold voiceConfig) 2000 in
        let minDuration := JS.int_or (minRecordingDuration voiceConfig) 500 in
        match isRecording (state w), silenceTimer (voiceActivation (state w)) with
        | true, None =>
            let (h, w) := setTimeout minDuration silenceThreshold w in
            set_silenceTimer (Some h) w
        | _, _ => w
        end
    end.

(** The event loop fires the pending timer of handle [h] at time [now]: the
    timer leaves the loop and its callback runs.  A handle that is not
    pending (cleared, or fired before) fires nothing. *)
Definition fire (h : nat) (now : Z) (w : World) : World :=
  match find (fun t => Nat.eqb (handle t) h) (timers w) with
  | Some t => silenceTimerCallback (minDuration t) now (clearTimeout h w)
  | None => w
  end.

Definition onAudioLevelUpdate
    (config : option VoiceActivationConfig) (level : float) (now : Z) (w : World) : World :=
  let w := set_audioLevel level w in
  if isRecording (state w) then
    let maxDuration :=
      match config with
      | Some voiceConfig => JS.int_or (maxRecordingDuration voiceConfig) 30000
      | None => 30000%Z
      end in
    let recordingDuration := (now - recordingStartTime (voiceActivation (state w)))%Z in
    if (maxDuration <=? recordingDuration)%Z then stopRecording w else w
  else w.

Definition start (w : World) : World :=
  if negb (isInitialized (manager w)) then w
  else
    let w := set_isListening true w in
    if voiceActivationWindow (manager w) then send voice_activation_start w else w.

Definition stop (w : World) : World :=
  let w := set_isListening false w in
  let w := clearSilenceTimer w in
  let w := if isRecording (state w) then send stopRecordingAndHidePanelWindow w else w in
  if voiceActivationWindow (manager w) then send voice_activation_stop w else w.

(** A world right after [initialize()] has succeeded. *)
Definition initialized_world (panel_exists : bool) : World :=
  mkWorld initial_state (mkManager true true) [] 0 panel_exists [].

(** What the engine holds: the shared state, the manager and the pending
    timers (not the record of the messages already sent). *)
Definition engine_state (w : World) : State * Manager * list Timer :=
  (state w, manager w, timers w).

End VoiceActivation.

(* ================================================================== *)
(** * Streaming dictation (the streaming dictation manager) *)
(* ================================================================== *)

Module StreamingDictation.

Record StreamingDictationState : Type := mkStreamingDictationState {
  isActive : bool;
  isListening : bool;
  currentText : string;
  lastFinalText : string;
  confidence : float;
  audioLevel : float;
  language : string;
  startTime : Z;
  wordsSpoken : nat
}.

Inductive Message : Type :=
  | streaming_dictation_start
  | streaming_dictation_stop
  | streaming_dictation_pause
  | streaming_dictation_resume
  | writeText (text : string).

(** The manager, whether accessibility is granted, and the messages sent. *)
Record Manager : Type := mkManager {
  isInitialized : bool;
  recognitionWindow : bool;
  currentState : StreamingDictationState;
  accessibilityGranted : bool;
  outbox : list Message
}.

(** The value of [currentState] in a new manager. *)
Definition initial_currentState : StreamingDictationState :=
  mkStreamingDictationState false false "" "" 0%float 0%float "en-US" 0 0.

Definition with_currentState (m : Manager) (s : StreamingDictationState) : Manager :=
  mkManager (isInitialized m) (recognitionWindow m) s (accessibilityGranted m) (outbox m).

Definition send (msg : Message) (m : Manager) : Manager :=
  mkManager (isInitialized m) (recognitionWindow m) (currentState m)
    (accessibilityGranted m) (outbox m ++ [msg]).

Definition insertText (text : string) (m : Manager) : Manager :=
  if accessibilityGranted m then send (writeText text) m else m.

Definition onTextUpdate (text : string) (isFinal : bool) (conf : float) (m : Manager)
  : Manager :=
  let s := currentState m in
  if isFinal then
    let words :=
      filter (fun w => (0 <? String.length w)%nat) (JS.split_ws (JS.trim text)) in
    insertText text
      (with_currentState m
         (mkStreamingDictationState (isActive s) (isListening s) "" text conf
            (audioLevel s) (language s) (startTime s)
            (wordsSpoken s + List.length words)))
  else
    with_currentState m
      (mkStreamingDictationState (isActive s) (isListening s) text (lastFinalText s) conf
         (audioLevel s) (language s) (startTime s) (wordsSpoken s)).

Definition start (now : Z) (m : Manager) : Manager :=
  if negb (isInitialized m) then m
  else
    let s := currentState m in
    let m :=
      with_currentState m
        (mkStreamingDictationState true (isListening s) (currentText s) (lastFinalText s)
           (confidence s) (audioLevel s) (language s) now 0) in
    if recognitionWindow m then send streaming_dictation_start m else m.

Definition stop (m : Manager) : Manager :=
  let s := currentState m in
  let m :=
    with_currentState m
      (mkStreamingDictationState false false (currentText s) (lastFinalText s)
         (confidence s) (audioLevel s) (language s) (startTime s) (wordsSpoken s)) in
  if recognitionWindow m then send streaming_dictation_stop m else m.

Definition pause (m : Manager) : Manager :=
  if recognitionWindow m then send streaming_dictation_pause m else m.

Definition resume (m : Manager) : Manager :=
  if recognitionWindow m then send streaming_dictation_resume m else m.

(** The IPC notifications [recognition-started] and [recognition-ended]. *)
Definition onRecognition (started : bool) (m : Manager) : Manager :=
  let s := currentState m in
  with_currentState m
    (mkStreamingDictationState (isActive s) started (currentText s) (lastFinalText s)
       (confidence s) (audioLevel s) (language s) (startTime s) (wordsSpoken s)).

Definition newline : string := String "010" EmptyString.

Definition onVoiceCommand (command : string) (m : Manager) : Manager :=
  let c := JS.toLowerCase command in
  if String.eqb c "new line" then insertText newline m
  else if String.eqb c "new paragraph" then insertText (newline ++ newline) m
  else if String.eqb c "stop dictation" then stop m
  else if String.eqb c "pause dictation" then pause m
  else if String.eqb c "resume dictation" then resume m
  else m.

(** [getState()] *)
Definition getState (m : Manager) : StreamingDictationState := currentState m.

(** A manager right after [initialize()] has succeeded. *)
Definition initialized_manager (accessibility : bool) : Manager :=
  mkManager true true initial_currentState accessibility [].

(** What the session holds (not the record of the messages already sent). *)
Definition engine_state (m : Manager) : bool * bool * StreamingDictationState :=
  (isInitialized m, recognitionWindow m, currentState m).

End StreamingDictation.

(* ================================================================== *)
(** * Around fusion: the configuration test and the recording pipeline *)
(* ================================================================== *)

Module FusionCallers.

Import Fusion.

Local Open Scope string_scope.

(** What [testFusionConfiguration] returns. *)
Record FusionTest : Type := mkFusionTest {
  test_success : bool;
  availableProviders : list STT_PROVIDER_ID;
  test_errors : list string
}.

(** The loop of [testFusionConfiguration]: a provider with a key is pushed
    to [availableProviders], one without adds a line to [errors]. *)
Definition testProvider
    (g : GlobalConfig) (acc : list STT_PROVIDER_ID * list string) (p : STT_PROVIDER_ID)
  : list STT_PROVIDER_ID * list string :=
  let hasApiKey :=
    match p with
    | openai => truthy_key (openaiApiKey g)
    | groq => truthy_key (groqApiKey g)
    end in
  if negb hasApiKey
  then (fst acc,
        (snd acc ++ [(provider_name p ++ ": API key not configured")%string])%list)
  else ((fst acc ++ [p])%list, snd acc).

Definition testFusionConfiguration (g : GlobalConfig) (config : FusionConfig) : FusionTest :=
  let tested := fold_left (testProvider g) (providers config) ([], []) in
  mkFusionTest
    (minProvidersRequired config <=? Z.of_nat (List.length (fst tested)))%Z
    (fst tested) (snd tested).

(** How [singleProviderTranscription] ends: with the text of the answer, or
    with the error it raises. *)
Inductive SingleOutcome : Type :=
  | SingleText (text : string)
  | SingleRaised (message : string).

(** The value of [originalTranscript] in [createRecording]: the fused
    transcript when fusion is requested, enabled and returns; the transcript
    of the single provider otherwise, also when fusion raises.  [single] is
    how the single-provider request would end. *)
Definition originalTranscript
    (useFusion : bool) (fusionTranscription : option FusionConfig)
    (net : Network) (g : GlobalConfig) (clock : Z) (single : SingleOutcome)
  : SingleOutcome :=
  match fusionTranscription with
  | Some config =>
      if useFusion && enabled config then
        match fusionTranscribe net g clock config with
        | Returned fusionResult => SingleText (finalTranscript fusionResult)
        | Threw _ => single
        end
      else single
  | None => single
  end.

End FusionCallers.

(* ================================================================== *)
(** * Around rule matching: the active rule, the rule list, the
      effective configuration *)
(* ================================================================== *)

Module AppDetectorState.

Import AppDetector.

Local Open Scope string_scope.

(** [state.activeApp] and [state.activeRule]. *)
Record AppState : Type := mkAppState {
  activeApp : ActiveAppInfo;
  activeRule : option AppRule
}.

(** [config.enableAppRules] and [config.appRules], both optional. *)
Record RulesConfig : Type := mkRulesConfig {
  enableAppRules : option bool;
  appRules : option (list AppRule)
}.

Section WithEngine.

Context {engine : RegExp.Engine}.

(** [updateActiveApplication]; [detected] is what [getActiveApplication]
    resolves to.  An error raised on the way is caught and logged: what was
    assigned before it stays assigned. *)
Definition updateActiveApplication
    (detected : option ActiveAppInfo) (config : RulesConfig) (st : AppState) : AppState :=
  match detected with
  | None => st
  | Some appInfo =>
      let st := mkAppState appInfo (activeRule st) in
      match enableAppRules config, appRules config with
      | Some true, Some rules =>
          match findMatchingRule appInfo rules with
          | Returned matchingRule => mkAppState (activeApp st) matchingRule
          | ThrewSyntaxError => st
          end
      | _, _ => mkAppState (activeApp st) None
      end
  end.

(** The IPC procedure [testAppRule]. *)
Definition testAppRule (detected : option ActiveAppInfo) (rule : AppRule) : completion bool :=
  match detected with
  | None => Returned false
  | Some activeApp =>
      match findMatchingRule activeApp [rule] with
      | Returned (Some _) => Returned true
      | Returned None => Returned false
      | ThrewSyntaxError => ThrewSyntaxError
      end
  end.

End WithEngine.

(** ** The rule list of the configuration *)

Definition with_id (newId : string) (r : AppRule) : AppRule :=
  mkAppRule newId (appName r) (rule_executable r) (enabled r) (priority r) (sttProviderId r).

(** [getAppRules]: [config.appRules || []]. *)
Definition getAppRules (config : RulesConfig) : list AppRule :=
  match appRules config with Some rules => rules | None => [] end.

Definition save_rules (config : RulesConfig) (rules : list AppRule) : RulesConfig :=
  mkRulesConfig (enableAppRules config) (Some rules).

(** [createAppRule]; [newId] is [Date.now().toString()].  The new rule and
    the configuration saved. *)
Definition createAppRule (newId : string) (rule : AppRule) (config : RulesConfig)
  : AppRule * RulesConfig :=
  let newRule := with_id newId rule in
  (newRule, save_rules config (getAppRules config ++ [newRule])%list).

(** [appRules.findIndex(rule => rule.id === id)] *)
Fixpoint findIndex (wanted : string) (rules : list AppRule) : option nat :=
  match rules with
  | [] => None
  | r :: rest =>
      if String.eqb (id r) wanted then Some 0
      else match findIndex wanted rest with
           | Some i => Some (S i)
           | None => None
           end
  end.

(** [appRules[index] = rule], for an index within the array. *)
Fixpoint set_at (index : nat) (rule : AppRule) (rules : list AppRule) : list AppRule :=
  match rules, index with
  | [], _ => []
  | _ :: rest, O => rule :: rest
  | r :: rest, S i => r :: set_at i rule rest
  end.

(** [updateAppRule]: the configuration is saved only when a rule carries
    the identifier. *)
Definition updateAppRule (rule : AppRule) (config : RulesConfig) : RulesConfig :=
  match findIndex (id rule) (getAppRules config) with
  | Some index => save_rules config (set_at index rule (getAppRules config))
  | None => config
  end.

Definition deleteAppRule (wanted : string) (config : RulesConfig) : RulesConfig :=
  save_rules config
    (filter (fun rule => negb (String.eqb (id rule) wanted)) (getAppRules config)).

(** ** The effective configuration *)

Inductive SHORTCUT_OPTION : Type :=
  | hold_key
  | key_combination
  | ctrl_slash
  | voice_activation
  | streaming_dictation
  | shortcut_custom
  | shortcut_disabled.

Inductive CHAT_PROVIDER_ID : Type := chat_openai | chat_groq | chat_gemini.

(** The fields of [AppRule] that [getEffectiveConfig] reads and that the
    record [AppRule] above leaves out; [sttProviderId] is read from the
    rule itself. *)
Record RuleOverrides : Type := mkRuleOverrides {
  rule_shortcut : option SHORTCUT_OPTION;
  rule_postProcessingEnabled : option bool;
  rule_postProcessingProviderId : option CHAT_PROVIDER_ID;
  rule_postProcessingPrompt : option string
}.

(** The fields of [Config] a rule can override, and three it cannot. *)
Record Config : Type := mkConfig {
  shortcut : option SHORTCUT_OPTION;
  sttProviderId : option Fusion.STT_PROVIDER_ID;
  transcriptPostProcessingEnabled : option bool;
  transcriptPostProcessingProviderId : option CHAT_PROVIDER_ID;
  transcriptPostProcessingPrompt : option string;
  holdKey : option string;
  openaiApiKey : option string;
  groqApiKey : option string
}.

(** [...(value && { field: value })] for an optional value that is truthy
    whenever present. *)
Definition override {A : Type} (value current : option A) : option A :=
  match value with Some v => Some v | None => current end.

(** The same for an optional string: the empty string overrides nothing. *)
Definition override_string (value current : option string) : option string :=
  match value with
  | Some v => if JS.truthy_string v then Some v else current
  | None => current
  end.

Definition getEffectiveConfig
    (globalConfig : Config) (activeRule : option (AppRule * RuleOverrides)) : Config :=
  match activeRule with
  | None => globalConfig
  | Some (rule, more) =>
      mkConfig
        (override (rule_shortcut more) (shortcut globalConfig))
        (override (AppDetector.sttProviderId rule) (sttProviderId globalConfig))
        (override (rule_postProcessingEnabled more)
           (transcriptPostProcessingEnabled globalConfig))
        (override (rule_postProcessingProviderId more)
           (transcriptPostProcessingProviderId globalConfig))
        (override_string (rule_postProcessingPrompt more)
           (transcriptPostProcessingPrompt globalConfig))
        (holdKey globalConfig) (openaiApiKey globalConfig) (groqApiKey globalConfig)
  end.

End AppDetectorState.

(* ================================================================== *)
(** * Voice activation as a whole: the renderer script and the events *)
(* ================================================================== *)

Module VoiceActivationEvents.

Import VoiceActivation.

(** ** The script of the hidden window

    The variables [isMonitoring] and [lastVoiceState] of the script.  The
    audio graph is taken as initialized, and the level that [processAudio]
    computes from the analyser as an input. *)
Record Renderer : Type := mkRenderer {
  isMonitoring : bool;
  lastVoiceState : bool
}.

Inductive RendererMessage : Type :=
  | audio_level (level : float)
  | voice_detected
  | silence_detected.

(** One run of [processAudio] on the level just measured: what it sends to
    the main process, and the variables afterwards.  [sensitivity] is the
    number written into the script. *)
Definition processAudio (sensitivity audioLevel : float) (r : Renderer)
  : list RendererMessage * Renderer :=
  if negb (isMonitoring r) then ([], r)
  else
    let voiceDetected := JS.gt audioLevel sensitivity in
    let silenceDetected := PrimFloat.leb audioLevel (sensitivity * 0.3)%float in
    if voiceDetected && negb (lastVoiceState r)
    then ([audio_level audioLevel; voice_detected], mkRenderer (isMonitoring r) true)
    else if silenceDetected && lastVoiceState r
    then ([audio_level audioLevel; silence_detected], mkRenderer (isMonitoring r) false)
    else ([audio_level audioLevel], r).

(** The handlers of [voice-activation:start] (up to its first
    [processAudio]) and [voice-activation:stop]. *)
Definition renderer_start (r : Renderer) : Renderer := mkRenderer true false.

Definition renderer_stop (r : Renderer) : Renderer := mkRenderer false (lastVoiceState r).

(** The frames that follow: one [processAudio] per measured level. *)
Fixpoint processFrames (sensitivity : float) (levels : list float) (r : Renderer)
  : list RendererMessage * Renderer :=
  match levels with
  | [] => ([], r)
  | level :: rest =>
      let (sent, r1) := processAudio sensitivity level r in
      let (later, r2) := processFrames sensitivity rest r1 in
      ((sent ++ later)%list, r2)
  end.

(** ** The main process

    What can happen to the manager: calls of its interface, the three IPC
    messages of the renderer script, a timer of the event loop firing, and
    the renderer of the panel reporting through [recordEvent]. *)
Inductive Event : Type :=
  | start_called
  | stop_called
  | toggle_called
  | voice_detected_received (now : Z)
  | silence_detected_received
  | audio_level_received (level : float) (now : Z)
  | timer_fired (h : nat) (now : Z)
  | record_event (started : bool).

(** [toggleVoiceActivation], for a manager that exists. *)
Definition toggleVoiceActivation (w : World) : World :=
  if isListening (voiceActivation (state w)) then stop w else start w.

(** One event, under the configuration the store holds when it happens. *)
Definition step (config : option VoiceActivationConfig) (e : Event) (w : World) : World :=
  match e with
  | start_called => start w
  | stop_called => stop w
  | toggle_called => toggleVoiceActivation w
  | voice_detected_received now => onVoiceDetected config now w
  | silence_detected_received => onSilenceDetected config w
  | audio_level_received level now => onAudioLevelUpdate config level now w
  | timer_fired h now => fire h now w
  | record_event started => recordEvent started w
  end.

Definition run (trace : list (option VoiceActivationConfig * Event)) (w : World) : World :=
  fold_left (fun w ce => step (fst ce) (snd ce) w) trace w.

(** The IPC handler of one message of the renderer script. *)
Definition receive (now : Z) (m : RendererMessage) : Event :=
  match m with
  | audio_level level => audio_level_received level now
  | voice_detected => voice_detected_received now
  | silence_detected => silence_detected_received
  end.

(** [getRecordingState] of the IPC router: the recording flag, the start
    stamp and the duration so far. *)
Definition getRecordingState (now : Z) (w : World) : bool * Z * Z :=
  (isRecording (state w),
   recordingStartTime (voiceActivation (state w)),
   if isRecording (state w)
   then (now - recordingStartTime (voiceActivation (state w)))%Z
   else 0%Z).

End VoiceActivationEvents.

(* ================================================================== *)
(** * Streaming dictation as a whole: the events *)
(* ================================================================== *)

Module StreamingDictationEvents.

Import StreamingDictation.

(** The IPC handler of [streaming-dictation:audio-level]. *)
Definition onAudioLevel (level : float) (m : Manager) : Manager :=
  let s := currentState m in
  with_currentState m
    (mkStreamingDictationState (isActive s) (isListening s) (currentText s)
       (lastFinalText s) (confidence s) level (language s) (startTime s) (wordsSpoken s)).

(** [toggleStreamingDictation], for a manager that exists. *)
Definition toggleStreamingDictation (now : Z) (m : Manager) : Manager :=
  if isActive (currentState m) then stop m else start now m.

Inductive Event : Type :=
  | start_called (now : Z)
  | stop_called
  | pause_called
  | resume_called
  | toggle_called (now : Z)
  | text_update (text : string) (isFinal : bool) (conf : float)
  | voice_command (command : string)
  | recognition (started : bool)
  | audio_level (level : float).

Definition step (e : Event) (m : Manager) : Manager :=
  match e with
  | start_called now => start now m
  | stop_called => stop m
  | pause_called => pause m
  | resume_called => resume m
  | toggle_called now => toggleStreamingDictation now m
  | text_update text isFinal conf => onTextUpdate text isFinal conf m
  | voice_command command => onVoiceCommand command m
  | recognition started => onRecognition started m
  | audio_level level => onAudioLevel level m
  end.

Definition run (trace : list Event) (m : Manager) : Manager := fold_left (fun m e => step e m) trace m.

(** The words counted for one final text. *)
Definition countWords (text : string) : nat :=
  List.length (filter (fun w => (0 <? String.length w)%nat) (JS.split_ws (JS.trim text))).

(** [getStreamingDictationStatus], with and without a manager. *)
Record Status : Type := mkStatus {
  status_isEnabled : bool;
  status_isActive : bool;
  status_isListening : bool;
  status_audioLevel : float;
  status_confidence : float;
  status_currentText : string;
  status_wordsSpoken : nat
}.

Definition getStreamingDictationStatus (streamingManager : option Manager) : Status :=
  match streamingManager with
  | None => mkStatus false false false 0%float 0%float "" 0
  | Some m =>
      let s := getState m in
      mkStatus true (isActive s) (isListening s) (audioLevel s) (confidence s)
        (currentText s) (wordsSpoken s)
  end.

End StreamingDictationEvents.

(* ================================================================== *)
(** * Facts about the built-ins *)
(* ================================================================== *)

Module JSFacts.

Import JS.

(** ** Maps *)

Lemma Map_get_set_same :
  forall (V : Type) (m : Map V) k v, Map_get (Map_set m k v) k = Some v.
Proof.
  induction m as [| [k' v'] m IH]; intros k v; simpl.
  - now rewrite String.eqb_refl.
  - destruct (String.eqb k' k) eqn:E; simpl; rewrite E; auto.
Qed.

Lemma Map_get_set_other :
  forall (V : Type) (m : Map V) k k' v,
    k' <> k -> Map_get (Map_set m k v) k' = Map_get m k'.
Proof.
  induction m as [| [k0 v0] m IH]; intros k k' v Hne; simpl.
  - destruct (String.eqb_spec k k'); congruence.
  - destruct (String.eqb_spec k0 k) as [-> | Hk]; simpl.
    + destruct (String.eqb_spec k k'); congruence.
    + destruct (String.eqb_spec k0 k'); auto.
Qed.

Lemma Map_get_Some_In :
  forall (V : Type) (m : Map V) k v, Map_get m k = Some v -> In (k, v) m.
Proof.
  induction m as [| [k0 v0] m IH]; intros k v; simpl; [discriminate |].
  destruct (String.eqb_spec k0 k) as [-> | Hk]; intros H.
  - left; congruence.
  - right; auto.
Qed.

Lemma Map_get_None_keys :
  forall (V : Type) (m : Map V) k, Map_get m k = None -> ~ In k (map fst m).
Proof.
  induction m as [| [k0 v0] m IH]; intros k; simpl; [tauto |].
  destruct (String.eqb_spec k0 k) as [-> | Hk]; [discriminate |].
  intros H [Heq | Hin]; [congruence | now apply (IH k)].
Qed.

Lemma Map_In_get :
  forall (V : Type) (m : Map V) k v,
    NoDup (map fst m) -> In (k, v) m -> Map_get m k = Some v.
Proof.
  induction m as [| [k0 v0] m IH]; intros k v Hnd Hin; simpl in *; [tauto |].
  inversion Hnd as [| ? ? Hnot Hnd']; subst.
  destruct Hin as [Heq | Hin].
  - inversion Heq; subst. now rewrite String.eqb_refl.
  - destruct (String.eqb_spec k0 k) as [-> | Hk]; auto.
    exfalso. apply Hnot. change k with (fst (k, v)). now apply in_map.
Qed.

Lemma Map_set_keys :
  forall (V : Type) (m : Map V) k v,
    map fst (Map_set m k v) = map fst m \/
    (~ In k (map fst m) /\ map fst (Map_set m k v) = (map fst m ++ [k])%list).
Proof.
  induction m as [| [k0 v0] m IH]; intros k v; simpl.
  - right; split; auto.
  - destruct (String.eqb_spec k0 k) as [-> | Hk]; simpl.
    + now left.
    + destruct (IH k v) as [Heq | [Hnot Heq]]; rewrite Heq.
      * now left.
      * right; split; [intros [? | ?]; tauto | reflexivity].
Qed.

Lemma Map_set_NoDup :
  forall (V : Type) (m : Map V) k v,
    NoDup (map fst m) -> NoDup (map fst (Map_set m k v)).
Proof.
  intros V m k v Hnd.
  destruct (Map_set_keys _ m k v) as [Heq | [Hnot Heq]]; rewrite Heq; auto.
  apply NoDup_app; [assumption | repeat constructor; simpl; tauto |].
  intros x Hx [<- | []]. contradiction.
Qed.

(** ** [reduce] with a "keep the larger" step *)

Section ReduceLargest.

Variables (A : Type) (measure : A -> nat).

Let step (best current : A) : A :=
  if (measure best <? measure current)%nat then current else best.

Lemma fold_largest :
  forall (l : list A) (x : A),
    let r := fold_left step l x in
    In r (x :: l) /\ forall y, In y (x :: l) -> measure y <= measure r.
Proof.
  induction l as [| a l IH]; intros x; simpl.
  - split; [now left | intros y [<- | []]; lia].
  - specialize (IH (step x a)). simpl in IH. destruct IH as [Hin Hmax].
    assert (Hstep : (step x a = x \/ step x a = a)
                    /\ measure x <= measure (step x a)
                    /\ measure a <= measure (step x a)).
    { unfold step. destruct (Nat.ltb_spec (measure x) (measure a)); repeat split; auto; lia. }
    destruct Hstep as [Hsel [Hx Ha]].
    split.
    + destruct Hin as [Heq | Hin]; [| now right; right].
      rewrite <- Heq. destruct Hsel as [-> | ->]; [now left | now right; left].
    + intros y [<- | [<- | Hy]].
      * etransitivity; [exact Hx | apply Hmax; now left].
      * etransitivity; [exact Ha | apply Hmax; now left].
      * apply Hmax. now right.
Qed.

End ReduceLargest.

(** ** Pieces of [split] *)

Fixpoint string_forall (P : ascii -> bool) (s : string) : bool :=
  match s with
  | EmptyString => true
  | String c rest => P c && string_forall P rest
  end.

Lemma string_forall_app :
  forall P s t, string_forall P (s ++ t) = string_forall P s && string_forall P t.
Proof.
  induction s as [| c s IH]; intros t; simpl; [reflexivity |].
  now rewrite IH, andb_assoc.
Qed.

(** Every piece is made of code units of the string that are not white
    space; whatever holds of all code units of the string holds of those. *)
Lemma split_ws_from_pieces :
  forall (P : ascii -> bool) s cur prev_ws,
    string_forall P s = true ->
    string_forall (fun c => P c && negb (is_whitespace c)) cur = true ->
    Forall (fun piece => string_forall (fun c => P c && negb (is_whitespace c)) piece = true)
      (split_ws_from s cur prev_ws).
Proof.
  induction s as [| c s IH]; intros cur prev_ws Hs Hcur; simpl.
  - now constructor.
  - simpl in Hs. apply andb_prop in Hs. destruct Hs as [Hc Hs].
    destruct (is_whitespace c) eqn:Ews.
    + destruct prev_ws; [| constructor; [assumption |]]; now apply IH.
    + apply IH; [assumption |].
      rewrite string_forall_app. simpl. now rewrite Hcur, Hc, Ews.
Qed.

Lemma split_ws_pieces :
  forall (P : ascii -> bool) s,
    string_forall P s = true ->
    Forall (fun piece => string_forall (fun c => P c && negb (is_whitespace c)) piece = true)
      (split_ws s).
Proof. intros P s Hs. now apply split_ws_from_pieces. Qed.

(** ** Lower case *)

Definition is_lower (c : ascii) : bool := Ascii.eqb (toLowerCase_char c) c.

Lemma toLowerCase_char_idempotent :
  forall c, toLowerCase_char (toLowerCase_char c) = toLowerCase_char c.
Proof.
  intros [[] [] [] [] [] [] [] []]; vm_compute; reflexivity.
Qed.

Lemma toLowerCase_is_lower : forall s, string_forall is_lower (toLowerCase s) = true.
Proof.
  induction s as [| c s IH]; simpl; [reflexivity |].
  rewrite IH, andb_true_r. unfold is_lower.
  rewrite toLowerCase_char_idempotent. apply Ascii.eqb_refl.
Qed.

Lemma is_lower_toLowerCase :
  forall s, string_forall is_lower s = true -> toLowerCase s = s.
Proof.
  induction s as [| c s IH]; simpl; [reflexivity |].
  intros H. apply andb_prop in H. destruct H as [Hc Hs].
  unfold is_lower in Hc. apply Ascii.eqb_eq in Hc. now rewrite Hc, IH.
Qed.

End JSFacts.

(* ================================================================== *)
(** * Properties of the fusion module *)
(* ================================================================== *)

Module FusionProperties.

Import Fusion.

(** ** The confidence estimate stays in range *)

Definition in_confidence_range (v : float) : Prop :=
  PrimFloat.leb 0.1 v = true /\ PrimFloat.leb v 0.99 = true.

(** The clamp of each value the adjustments can reach, one provider and one
    combination of adjustments at a time. *)
Lemma clamp_of_adjusted_base :
  forall (base : option float) (long short fast slow garbled : bool),
    In base [Some 0.9%float; Some 0.85%float; None] ->
    let c0 := JS.number_or base 0.7 in
    let c1 := if long then (c0 + 0.05)%float else c0 in
    let c2 := if short then (c1 - 0.2)%float else c1 in
    let c3 := if fast then (c2 - 0.1)%float else if slow then (c2 - 0.05)%float else c2 in
    let c4 := if garbled then (c3 - 0.15)%float else c3 in
    in_confidence_range (JS.Math_max 0.1 (JS.Math_min 0.99 c4)).
Proof.
  intros base long short fast slow garbled Hbase.
  simpl in Hbase.
  destruct Hbase as [<- | [<- | [<- | []]]];
    destruct long, short, fast, slow, garbled;
    vm_compute; split; reflexivity.
Qed.

(** C3.  For every transcript, provider and processing time,
    [estimateConfidence] returns a value between 0.1 and 0.99 (as binary64
    numbers, compared as JavaScript compares them). *)
Theorem estimateConfidence_clamped :
  forall (transcript : string) (p : STT_PROVIDER_ID) (processingTime : Z),
    PrimFloat.leb 0.1 (estimateConfidence transcript p processingTime) = true /\
    PrimFloat.leb (estimateConfidence transcript p processingTime) 0.99 = true.
Proof.
  intros transcript p processingTime.
  unfold estimateConfidence.
  apply (clamp_of_adjusted_base (baseConfidence_table p)
           (50 <? String.length transcript)%nat
           (String.length transcript <? 5)%nat
           (processingTime <? 1000)%Z
           (10000 <? processingTime)%Z).
  destruct p; simpl; auto.
Qed.

(** ** Too few successful providers *)

Lemma sequential_from :
  forall net g ps i acc,
    snd (fold_left
           (fun (a : nat * list TranscriptionResult) p =>
              (S (fst a), (snd a ++ [processProvider net g (fst a) p])%list))
           ps (i, acc))
    = (acc ++ processProvidersParallel_from net g i ps)%list.
Proof.
  induction ps as [| p ps IH]; intros i acc; simpl.
  - now rewrite app_nil_r.
  - rewrite IH. now rewrite <- app_assoc.
Qed.

(** Both ways of dispatching settle into the same list of results. *)
Lemma processProvidersSequential_parallel :
  forall net g ps,
    processProvidersSequential net g ps = processProvidersParallel net g ps.
Proof.
  intros net g ps. unfold processProvidersSequential, processProvidersParallel.
  now rewrite sequential_from.
Qed.

(** The results once every dispatched call has settled. *)
Definition settledResults (net : Network) (g : GlobalConfig) (config : FusionConfig)
  : list TranscriptionResult :=
  processProvidersParallel net g (providers config).

(** C1.  When, after all dispatched calls have settled, fewer results have
    [success = true] than [minProvidersRequired], [fusionTranscribe] raises
    the aggregate error and returns no [FusionResult]. *)
Theorem fusionTranscribe_raises_below_minimum :
  forall (net : Network) (g : GlobalConfig) (clock : Z) (config : FusionConfig),
    (Z.of_nat (List.length (filter success (settledResults net g config)))
     < minProvidersRequired config)%Z ->
    fusionTranscribe net g clock config
    = Threw (FusionFailed (List.length (filter success (settledResults net g config)))
               (minProvidersRequired config))
    /\ forall r : FusionResult, fusionTranscribe net g clock config <> Returned r.
Proof.
  intros net g clock config Hfew.
  assert (Hraise :
    fusionTranscribe net g clock config
    = Threw (FusionFailed (List.length (filter success (settledResults net g config)))
               (minProvidersRequired config))).
  { unfold fusionTranscribe, settledResults in *.
    destruct (enableParallel config);
      [| rewrite processProvidersSequential_parallel];
      apply Z.ltb_lt in Hfew; now rewrite Hfew. }
  split; [exact Hraise |].
  intros r Hr. rewrite Hraise in Hr. discriminate.
Qed.

(** Three configured providers, of which the first answers and the other
    two fail, with two required. *)
Definition two_of_three_fail : Network :=
  mkNetwork
    (fun i _ => match i with
                | O => Responded "hello world"
                | 1%nat => Rejected "Service Unavailable: "
                | _ => NoAnswerInTime
                end)
    (fun _ _ => 1500%Z).

Definition both_keys : GlobalConfig := mkGlobalConfig (Some "sk-1") (Some "gsk-1").

Definition three_providers_two_required : FusionConfig :=
  mkFusionConfig true best_confidence [openai; groq; openai] (Some openai)
    30000 2 0.5%float true (fun _ => None).

Lemma fusionTranscribe_two_of_three_fail :
  (Z.of_nat (List.length
               (filter success (settledResults two_of_three_fail both_keys
                                  three_providers_two_required)))
   < minProvidersRequired three_providers_two_required)%Z
  /\ fusionTranscribe two_of_three_fail both_keys 1600 three_providers_two_required
     = Threw (FusionFailed 1 2).
Proof.
  split.
  - vm_compute. reflexivity.
  - apply (fusionTranscribe_raises_below_minimum two_of_three_fail both_keys 1600
             three_providers_two_required).
    vm_compute. reflexivity.
Defined.

(** ** Majority vote *)

(** The words the providers have at position [i], in the order of the
    providers; a provider whose transcript is shorter has none. *)
Definition words_at (wordLists : list (list string)) (i : nat) : list string :=
  flat_map (fun wordList => match nth_error wordList i with
                            | Some word => [word]
                            | None => []
                            end) wordLists.

(** The number of providers whose word at position [i] is [word]. *)
Definition votes (wordLists : list (list string)) (i : nat) (word : string) : nat :=
  count_occ string_dec (words_at wordLists i) word.

Definition tally_step (wordCounts : JS.Map nat) (word : string) : JS.Map nat :=
  JS.Map_set wordCounts word
    (match JS.Map_get wordCounts word with Some n => n | None => 0 end + 1).

(** The map counts exactly the words seen so far. *)
Definition tallies (wordCounts : JS.Map nat) (seen : list string) : Prop :=
  NoDup (map fst wordCounts) /\
  forall word,
    JS.Map_get wordCounts word
    = match count_occ string_dec seen word with
      | O => None
      | S n => Some (S n)
      end.

Lemma tally_step_tallies :
  forall wordCounts seen word,
    tallies wordCounts seen ->
    tallies (tally_step wordCounts word) (seen ++ [word])%list.
Proof.
  intros wordCounts seen word [Hnd Hget]. split.
  - now apply JSFacts.Map_set_NoDup.
  - intros w. unfold tally_step. rewrite count_occ_app. simpl.
    destruct (string_dec word w) as [<- | Hne].
    + rewrite JSFacts.Map_get_set_same, Hget.
      destruct (count_occ string_dec seen word); simpl; f_equal; lia.
    + rewrite JSFacts.Map_get_set_other by congruence.
      rewrite Hget, Nat.add_0_r. reflexivity.
Qed.

Lemma fold_tally_tallies :
  forall col wordCounts seen,
    tallies wordCounts seen ->
    tallies (fold_left tally_step col wordCounts) (seen ++ col)%list.
Proof.
  induction col as [| word col IH]; intros wordCounts seen H; simpl.
  - now rewrite app_nil_r.
  - replace (seen ++ word :: col)%list with ((seen ++ [word]) ++ col)%list
      by now rewrite <- app_assoc.
    apply IH. now apply tally_step_tallies.
Qed.

Lemma countVotes_from :
  forall wordLists i wordCounts,
    fold_left
      (fun wordCounts wordList =>
         match nth_error wordList i with
         | Some word =>
             JS.Map_set wordCounts word
               (match JS.Map_get wordCounts word with Some n => n | None => 0 end + 1)
         | None => wordCounts
         end)
      wordLists wordCounts
    = fold_left tally_step (words_at wordLists i) wordCounts.
Proof.
  induction wordLists as [| wordList wordLists IH]; intros i wordCounts; simpl.
  - reflexivity.
  - rewrite fold_left_app, IH.
    destruct (nth_error wordList i); reflexivity.
Qed.

Lemma countVotes_tallies :
  forall wordLists i, tallies (countVotes wordLists i) (words_at wordLists i).
Proof.
  intros wordLists i. unfold countVotes. rewrite countVotes_from.
  apply (fold_tally_tallies (words_at wordLists i) [] []).
  split; [constructor | reflexivity].
Qed.

(** An entry of the map is a word seen, with its number of votes. *)
Lemma tallies_entry :
  forall wordCounts seen word n,
    tallies wordCounts seen -> In (word, n) wordCounts ->
    n = count_occ string_dec seen word /\ In word seen.
Proof.
  intros wordCounts seen word n [Hnd Hget] Hin.
  apply JSFacts.Map_In_get in Hin; [| assumption].
  rewrite Hget in Hin.
  destruct (count_occ string_dec seen word) eqn:E; [discriminate |].
  inversion Hin; subst. split; [reflexivity |].
  apply (count_occ_In string_dec). lia.
Qed.

(** A word seen has an entry. *)
Lemma tallies_seen :
  forall wordCounts seen word,
    tallies wordCounts seen -> In word seen ->
    In (word, count_occ string_dec seen word) wordCounts.
Proof.
  intros wordCounts seen word [Hnd Hget] Hin.
  apply JSFacts.Map_get_Some_In. rewrite Hget.
  apply (count_occ_In string_dec) in Hin.
  destruct (count_occ string_dec seen word); [lia | reflexivity].
Qed.

(** The winner of a position at which some provider has a word. *)
Lemma mostCommonWord_plurality :
  forall wordLists i,
    words_at wordLists i <> [] ->
    exists winner,
      mostCommonWord wordLists i = [winner] /\
      In winner (words_at wordLists i) /\
      forall word, votes wordLists i word <= votes wordLists i winner.
Proof.
  intros wordLists i Hsome.
  pose proof (countVotes_tallies wordLists i) as Ht.
  unfold mostCommonWord.
  destruct (countVotes wordLists i) as [| first rest] eqn:E.
  - exfalso. destruct (words_at wordLists i) as [| w col]; [congruence |].
    apply (tallies_seen [] (w :: col) w Ht). now left.
  - simpl.
    destruct (JSFacts.fold_largest (string * nat) (@snd string nat) rest first) as [Hin Hmax].
    fold (@moreVotes string) in Hin, Hmax.
    set (best := fold_left moreVotes rest first) in *.
    exists (fst best).
    destruct (tallies_entry _ _ (fst best) (snd best) Ht) as [Hn Hseen].
    { now rewrite <- surjective_pairing. }
    split; [reflexivity |]. split; [assumption |].
    intros word. unfold votes. rewrite <- Hn.
    destruct (in_dec string_dec word (words_at wordLists i)) as [Hw | Hw].
    + apply (Hmax (word, count_occ string_dec (words_at wordLists i) word)).
      now apply tallies_seen.
    + apply (count_occ_not_In string_dec) in Hw. rewrite Hw. lia.
Qed.

Lemma fold_left_max_spec :
  forall (l : list nat) (a : nat),
    a <= fold_left Nat.max l a /\
    (forall x, In x l -> x <= fold_left Nat.max l a) /\
    (fold_left Nat.max l a = a \/ In (fold_left Nat.max l a) l).
Proof.
  induction l as [| y l IH]; intros a; simpl.
  - repeat split; [lia | tauto | now left].
  - destruct (IH (Nat.max a y)) as [Hge [Hall Hin]].
    repeat split.
    + lia.
    + intros x [<- | Hx]; [lia | now apply Hall].
    + destruct Hin as [Heq | Hin]; [| now right; right].
      rewrite Heq. destruct (Nat.max_spec a y) as [[_ ->] | [_ ->]]; [right | left]; auto.
Qed.

(** [maxLength] is the length of a longest word list. *)
Lemma maxLength_longest :
  forall wordLists,
    (forall wordList, In wordList wordLists -> List.length wordList <= maxLength wordLists) /\
    (wordLists <> [] ->
     exists wordList, In wordList wordLists /\ List.length wordList = maxLength wordLists).
Proof.
  intros wordLists. unfold maxLength.
  destruct (fold_left_max_spec (map (@List.length string) wordLists) 0) as [_ [Hall Hin]].
  split.
  - intros wordList H. apply Hall. now apply in_map.
  - intros Hne. destruct Hin as [Hzero | Hin].
    + destruct wordLists as [| wordList rest]; [congruence |].
      exists wordList. split; [now left |].
      rewrite Hzero. specialize (Hall (List.length wordList)).
      rewrite Hzero in Hall. simpl in Hall. specialize (Hall (or_introl eq_refl)). lia.
    + apply in_map_iff in Hin. destruct Hin as [wordList [Hlen Hw]]. eauto.
Qed.

Lemma words_at_In :
  forall wordLists wordList i word,
    In wordList wordLists -> nth_error wordList i = Some word ->
    In word (words_at wordLists i).
Proof.
  intros wordLists wordList i word Hin Hnth. unfold words_at.
  apply in_flat_map. exists wordList. split; [assumption |].
  rewrite Hnth. now left.
Qed.

(** Below [maxLength] some provider has a word. *)
Lemma words_at_below_maxLength :
  forall wordLists i, i < maxLength wordLists -> words_at wordLists i <> [].
Proof.
  intros wordLists i Hi.
  destruct (maxLength_longest wordLists) as [_ Hattained].
  destruct Hattained as [wordList [Hin Hlen]].
  { intros ->. unfold maxLength in Hi. simpl in Hi. lia. }
  destruct (nth_error wordList i) as [word |] eqn:E.
  - intros Hnil. pose proof (words_at_In _ _ _ _ Hin E) as H. rewrite Hnil in H. inversion H.
  - apply nth_error_None in E. lia.
Qed.

(** The words chosen, position by position. *)
Lemma finalWords_positions :
  forall wordLists start len,
    start + len <= maxLength wordLists ->
    let finalWords := flat_map (mostCommonWord wordLists) (seq start len) in
    List.length finalWords = len /\
    forall k, k < len ->
      exists winner,
        nth_error finalWords k = Some winner /\
        In winner (words_at wordLists (start + k)) /\
        forall word, votes wordLists (start + k) word <= votes wordLists (start + k) winner.
Proof.
  intros wordLists start len. revert start.
  induction len as [| len IH]; intros start Hle; simpl.
  - split; [reflexivity | intros k Hk; lia].
  - destruct (mostCommonWord_plurality wordLists start) as [winner [Hw [Hin Hmax]]].
    { apply words_at_below_maxLength. lia. }
    rewrite Hw. simpl.
    destruct (IH (S start)) as [Hlen Hpos]; [lia |].
    split; [now rewrite Hlen |].
    intros [| k] Hk.
    + exists winner. rewrite Nat.add_0_r. auto.
    + destruct (Hpos k) as [w Hk']; [lia |].
      exists w. simpl. now replace (start + S k) with (S start + k) by lia.
Qed.

Definition transcribed (t : string) : TranscriptionResult :=
  mkTranscriptionResult openai t 0.9%float 1500 true None.

(** C2.  For two or more successful results, the majority vote is the words
    chosen position by position, joined by single spaces: the word lists are
    the lower-cased transcripts split at white space, there is one chosen
    word for each position below the length of the longest list, and the
    word chosen at a position is a word some provider has there with at
    least as many votes as any other word.  The three transcripts
    "hello world", "hello word" and "help world" fuse to "hello world". *)
Theorem combineMajorityVote_plurality :
  (forall rs : list TranscriptionResult,
      2 <= List.length rs ->
      let wordLists :=
        map (fun r => filter (fun word => 0 <? String.length word)
                        (JS.split_ws (JS.toLowerCase (transcript r)))) rs in
      exists finalWords,
        combineMajorityVote rs = JS.join " " finalWords /\
        List.length finalWords = maxLength wordLists /\
        (forall wordList, In wordList wordLists ->
                          List.length wordList <= maxLength wordLists) /\
        (exists wordList, In wordList wordLists /\
                          List.length wordList = maxLength wordLists) /\
        forall i, i < maxLength wordLists ->
          exists winner,
            nth_error finalWords i = Some winner /\
            In winner (words_at wordLists i) /\
            forall word, votes wordLists i word <= votes wordLists i winner)
  /\ (forall r1 r2 r3 : TranscriptionResult,
         transcript r1 = "hello world" ->
         transcript r2 = "hello word" ->
         transcript r3 = "help world" ->
         combineMajorityVote [r1; r2; r3] = "hello world").
Proof.
  split.
  - intros rs Hlen wordLists.
    fold tokenize in wordLists.
    destruct rs as [| r1 [| r2 rs]]; simpl in Hlen; try lia.
    destruct (finalWords_positions wordLists 0 (maxLength wordLists)) as [Hl Hpos]; [lia |].
    exists (flat_map (mostCommonWord wordLists) (seq 0 (maxLength wordLists))).
    destruct (maxLength_longest wordLists) as [Hall Hattained].
    repeat split; auto.
    apply Hattained. subst wordLists. simpl. discriminate.
  - intros [p1 t1 c1 d1 s1 e1] [p2 t2 c2 d2 s2 e2] [p3 t3 c3 d3 s3 e3]; simpl.
    intros -> -> ->. vm_compute. reflexivity.
Qed.

Definition hello_world_results : list TranscriptionResult :=
  [transcribed "hello world"; transcribed "hello word"; transcribed "help world"].

Lemma combineMajorityVote_hello_world :
  2 <= List.length hello_world_results
  /\ (exists finalWords,
         combineMajorityVote hello_world_results = JS.join " " finalWords /\
         List.length finalWords = 2)
  /\ combineMajorityVote hello_world_results = "hello world".
Proof.
  split; [unfold hello_world_results; simpl; lia |].
  split.
  - destruct (proj1 combineMajorityVote_plurality hello_world_results) as [ws [H1 [H2 _]]].
    + unfold hello_world_results; simpl; lia.
    + exists ws. split; [exact H1 | exact H2].
  - apply (proj2 combineMajorityVote_plurality); reflexivity.
Defined.

(** ** One result, several results *)

(** A word: not empty, in lower case, and free of white space. *)
Definition is_word (w : string) : Prop :=
  w <> "" /\
  JSFacts.string_forall (fun c => JSFacts.is_lower c && negb (JS.is_whitespace c)) w = true.

Lemma tokenize_words : forall t, Forall is_word (tokenize t).
Proof.
  intros t. unfold tokenize. apply Forall_forall. intros w Hw.
  apply filter_In in Hw. destruct Hw as [Hin Hlen]. split.
  - intros ->. discriminate.
  - pose proof (JSFacts.split_ws_pieces JSFacts.is_lower (JS.toLowerCase t)
                  (JSFacts.toLowerCase_is_lower t)) as H.
    rewrite Forall_forall in H. now apply H.
Qed.

Lemma words_at_inv :
  forall wordLists i word,
    In word (words_at wordLists i) ->
    exists wordList, In wordList wordLists /\ nth_error wordList i = Some word.
Proof.
  intros wordLists i word H. unfold words_at in H.
  apply in_flat_map in H. destruct H as [wordList [Hin Hw]].
  exists wordList. split; [assumption |].
  destruct (nth_error wordList i); simpl in Hw; [| tauto].
  destruct Hw as [-> | []]. reflexivity.
Qed.

Lemma string_forall_weaken :
  forall (P Q : ascii -> bool) s,
    (forall c, P c = true -> Q c = true) ->
    JSFacts.string_forall P s = true -> JSFacts.string_forall Q s = true.
Proof.
  induction s as [| c s IH]; simpl; intros HPQ H; [reflexivity |].
  apply andb_prop in H. destruct H as [Hc Hs].
  rewrite (HPQ c Hc). simpl. now apply IH.
Qed.

Lemma join_forall :
  forall (P : ascii -> bool) ws,
    P " "%char = true ->
    Forall (fun w => JSFacts.string_forall P w = true) ws ->
    JSFacts.string_forall P (JS.join " " ws) = true.
Proof.
  intros P ws Hsp H. unfold JS.join.
  induction H as [| w ws Hw Hws IH]; simpl; [reflexivity |].
  destruct ws as [| w' ws']; [assumption |].
  rewrite JSFacts.string_forall_app, Hw. simpl. rewrite Hsp. simpl. exact IH.
Qed.

(** The words chosen by the vote are words of the providers. *)
Lemma finalWords_are_words :
  forall rs,
    let wordLists := map (fun r => tokenize (transcript r)) rs in
    Forall is_word (flat_map (mostCommonWord wordLists) (seq 0 (maxLength wordLists))).
Proof.
  intros rs wordLists.
  destruct (finalWords_positions wordLists 0 (maxLength wordLists)) as [Hlen Hpos]; [lia |].
  apply Forall_forall. intros w Hw.
  apply In_nth_error in Hw. destruct Hw as [k Hk].
  assert (Hlt : k < maxLength wordLists).
  { rewrite <- Hlen. apply nth_error_Some. congruence. }
  destruct (Hpos k Hlt) as [winner [Hnth [Hin _]]].
  rewrite Hk in Hnth. inversion Hnth; subst winner.
  apply words_at_inv in Hin. destruct Hin as [wordList [Hlist Hnth']].
  subst wordLists. apply in_map_iff in Hlist. destruct Hlist as [r [<- _]].
  pose proof (tokenize_words (transcript r)) as Hwords.
  rewrite Forall_forall in Hwords. apply Hwords.
  eapply nth_error_In; eauto.
Qed.

(** When every provider has the same words, the vote returns them. *)
Lemma finalWords_unanimous :
  forall (wordLists : list (list string)) (wordList : list string),
    wordLists <> [] ->
    Forall (fun l => l = wordList) wordLists ->
    flat_map (mostCommonWord wordLists) (seq 0 (maxLength wordLists)) = wordList.
Proof.
  intros wordLists wordList Hne Hsame.
  rewrite Forall_forall in Hsame.
  destruct (maxLength_longest wordLists) as [_ Hattained].
  destruct (Hattained Hne) as [l [Hl Hmax]].
  rewrite (Hsame l Hl) in Hmax.
  destruct (finalWords_positions wordLists 0 (maxLength wordLists)) as [Hlen Hpos]; [lia |].
  apply nth_error_ext. intros k.
  destruct (Nat.lt_ge_cases k (maxLength wordLists)) as [Hk | Hk].
  - destruct (Hpos k Hk) as [winner [Hnth [Hin _]]]. simpl in Hin.
    rewrite Hnth. apply words_at_inv in Hin. destruct Hin as [l' [Hl' Hnth']].
    rewrite (Hsame l' Hl') in Hnth'. now rewrite Hnth'.
  - transitivity (@None string); [| symmetry]; apply nth_error_None; lia.
Qed.

(** C9.  On one result the majority vote returns the transcript as it is.
    On two or more it returns words (not empty, in lower case, free of white
    space) joined by single spaces, so that the output is its own lower
    case; when all the transcripts are the same string, the output is the
    lower-cased words of that string joined by single spaces, as for two
    copies of "Hello  World", which give "hello world". *)
Theorem combineMajorityVote_one_or_several :
  (forall r : TranscriptionResult, combineMajorityVote [r] = transcript r)
  /\ (forall rs : list TranscriptionResult,
         2 <= List.length rs ->
         (exists words,
             combineMajorityVote rs = JS.join " " words /\ Forall is_word words)
         /\ JS.toLowerCase (combineMajorityVote rs) = combineMajorityVote rs)
  /\ (forall (rs : list TranscriptionResult) (t : string),
         2 <= List.length rs ->
         Forall (fun r => transcript r = t) rs ->
         combineMajorityVote rs
         = JS.join " " (filter (fun word => 0 <? String.length word)
                          (JS.split_ws (JS.toLowerCase t))))
  /\ (forall r1 r2 : TranscriptionResult,
         transcript r1 = "Hello  World" ->
         transcript r2 = "Hello  World" ->
         combineMajorityVote [r1; r2] = "hello world").
Proof.
  split; [reflexivity |].
  assert (Hseveral : forall rs : list TranscriptionResult,
             2 <= List.length rs ->
             combineMajorityVote rs
             = JS.join " "
                 (flat_map (mostCommonWord (map (fun r => tokenize (transcript r)) rs))
                    (seq 0 (maxLength (map (fun r => tokenize (transcript r)) rs))))).
  { intros rs Hlen. destruct rs as [| r1 [| r2 rs]]; simpl in Hlen; try lia. reflexivity. }
  split; [| split].
  - intros rs Hlen. rewrite (Hseveral rs Hlen).
    pose proof (finalWords_are_words rs) as Hwords. simpl in Hwords.
    split.
    + eexists. split; [reflexivity | exact Hwords].
    + apply JSFacts.is_lower_toLowerCase. apply join_forall; [reflexivity |].
      eapply Forall_impl; [| exact Hwords].
      intros w [_ Hw]. eapply string_forall_weaken; [| exact Hw].
      intros c Hc. apply andb_prop in Hc. tauto.
  - intros rs t Hlen Hsame. rewrite (Hseveral rs Hlen).
    fold (tokenize t). f_equal.
    apply finalWords_unanimous.
    + destruct rs; simpl in *; [lia | discriminate].
    + apply Forall_forall. intros l Hl. apply in_map_iff in Hl.
      destruct Hl as [r [<- Hr]]. rewrite Forall_forall in Hsame.
      now rewrite (Hsame r Hr).
  - intros [p1 t1 c1 d1 s1 e1] [p2 t2 c2 d2 s2 e2]; simpl.
    intros -> ->. vm_compute. reflexivity.
Qed.

Definition shouted_twice : list TranscriptionResult :=
  [transcribed "Hello  World"; transcribed "Hello  World"].

Lemma combineMajorityVote_shouted_twice :
  2 <= List.length shouted_twice
  /\ Forall (fun r => transcript r = "Hello  World") shouted_twice
  /\ combineMajorityVote shouted_twice = "hello world"
  /\ combineMajorityVote [transcribed "Hello  World"] = "Hello  World".
Proof.
  assert (Hlen : 2 <= List.length shouted_twice) by (unfold shouted_twice; simpl; lia).
  assert (Hsame : Forall (fun r => transcript r = "Hello  World") shouted_twice)
    by (repeat constructor).
  split; [exact Hlen |]. split; [exact Hsame |]. split.
  - rewrite (proj1 (proj2 (proj2 combineMajorityVote_one_or_several))
               shouted_twice "Hello  World" Hlen Hsame).
    vm_compute. reflexivity.
  - apply (proj1 combineMajorityVote_one_or_several).
Defined.

(** ** Dispatch *)

(** Dispatching in parallel or one after the other gives the same outcome:
    the results are gathered in the order of the providers either way. *)
Theorem fusionTranscribe_dispatch_irrelevant :
  forall (net : Network) (g : GlobalConfig) (clock : Z) (config : FusionConfig)
         (parallel : bool),
    fusionTranscribe net g clock
      (mkFusionConfig (enabled config) (strategy config) (providers config)
         (primaryProvider config) (timeoutMs config) (minProvidersRequired config)
         (confidenceThreshold config) parallel (providerWeights config))
    = fusionTranscribe net g clock
        (mkFusionConfig (enabled config) (strategy config) (providers config)
           (primaryProvider config) (timeoutMs config) (minProvidersRequired config)
           (confidenceThreshold config) true (providerWeights config)).
Proof.
  intros net g clock config [|]; [reflexivity |].
  unfold fusionTranscribe. simpl.
  now rewrite processProvidersSequential_parallel.
Qed.

End FusionProperties.

(* ================================================================== *)
(** * Properties of rule matching *)
(* ================================================================== *)

Module AppDetectorProperties.

Import AppDetector.

Local Open Scope Z_scope.

(** ** The sort *)

Definition descending : list AppRule -> Prop :=
  StronglySorted (fun a b => priority b <= priority a).

Lemma insert_by_priority_perm :
  forall r l, Permutation (r :: l) (insert_by_priority r l).
Proof.
  induction l as [| x l IH]; simpl; [reflexivity |].
  destruct (priority x <=? priority r); [reflexivity |].
  rewrite perm_swap. now constructor.
Qed.

Lemma sort_by_priority_perm : forall l, Permutation l (sort_by_priority l).
Proof.
  induction l as [| r l IH]; simpl; [constructor |].
  rewrite <- insert_by_priority_perm. now constructor.
Qed.

Lemma insert_by_priority_descending :
  forall r l, descending l -> descending (insert_by_priority r l).
Proof.
  unfold descending. induction l as [| x l IH]; intros Hs; simpl.
  - repeat constructor.
  - inversion Hs as [| ? ? Hl Hx]; subst.
    destruct (Z.leb_spec (priority x) (priority r)) as [Hle | Hgt].
    + constructor; [assumption |]. constructor; [assumption |].
      eapply Forall_impl; [| exact Hx]. simpl. intros; lia.
    + constructor; [now apply IH |].
      apply (Permutation_Forall (insert_by_priority_perm r l)).
      constructor; [lia | assumption].
Qed.

Lemma sort_by_priority_descending : forall l, descending (sort_by_priority l).
Proof.
  induction l as [| r l IH]; simpl; [constructor |].
  now apply insert_by_priority_descending.
Qed.

(** Rules of equal priority keep their order. *)
Lemma sort_by_priority_stable :
  forall p l,
    filter (fun r => priority r =? p) (sort_by_priority l)
    = filter (fun r => priority r =? p) l.
Proof.
  intros p. induction l as [| r l IH]; simpl; [reflexivity |].
  rewrite <- IH. generalize (sort_by_priority l) as s. clear IH.
  induction s as [| x s IHs]; simpl; [reflexivity |].
  destruct (Z.leb_spec (priority x) (priority r)) as [Hle | Hgt]; simpl; [reflexivity |].
  rewrite IHs.
  destruct (Z.eqb_spec (priority x) p), (Z.eqb_spec (priority r) p); try reflexivity.
  lia.
Qed.

(** The head of the sorted list has the highest priority. *)
Lemma sort_by_priority_head_highest :
  forall l r,
    hd_error (sort_by_priority l) = Some r ->
    In r l /\ forall x, In x l -> priority x <= priority r.
Proof.
  intros l r Hhd.
  pose proof (sort_by_priority_perm l) as Hperm.
  pose proof (sort_by_priority_descending l) as Hdesc.
  destruct (sort_by_priority l) as [| y s]; simpl in Hhd; [discriminate |].
  inversion Hhd; subst y. split.
  - apply (Permutation_in _ (Permutation_sym Hperm)). now left.
  - intros x Hx. apply (Permutation_in _ Hperm) in Hx.
    inversion Hdesc as [| ? ? _ Hall]; subst.
    destruct Hx as [<- | Hx]; [lia |].
    rewrite Forall_forall in Hall. now apply Hall.
Qed.

(** The head of the sorted list is the earliest rule of highest priority. *)
Lemma sort_by_priority_head_earliest :
  forall before r after,
    Forall (fun x => priority x < priority r) before ->
    Forall (fun x => priority x <= priority r) after ->
    hd_error (sort_by_priority (before ++ r :: after)) = Some r.
Proof.
  induction before as [| x before IH]; intros r after Hb Ha; simpl.
  - pose proof (sort_by_priority_perm after) as Hperm.
    apply (Permutation_Forall Hperm) in Ha.
    destruct (sort_by_priority after) as [| y s]; simpl; [reflexivity |].
    inversion Ha; subst.
    destruct (Z.leb_spec (priority y) (priority r)); [reflexivity | lia].
  - inversion Hb as [| ? ? Hx Hb']; subst.
    specialize (IH r after Hb' Ha).
    destruct (sort_by_priority (before ++ r :: after)) as [| y s]; simpl in *;
      [discriminate |].
    inversion IH; subst y.
    destruct (Z.leb_spec (priority r) (priority x)); [lia | reflexivity].
Qed.

(** The model of the sort is a stable sort: a rearrangement of the rules,
    in descending priority, that keeps rules of equal priority in order. *)
Theorem sort_by_priority_stable_sort :
  forall (l : list AppRule),
    Permutation l (sort_by_priority l)
    /\ descending (sort_by_priority l)
    /\ forall p, filter (fun r => priority r =? p) (sort_by_priority l)
                 = filter (fun r => priority r =? p) l.
Proof.
  intros l. split; [apply sort_by_priority_perm |].
  split; [apply sort_by_priority_descending |].
  intros p. apply sort_by_priority_stable.
Qed.

(** ** The loop *)

Section WithEngine.

Context {engine : RegExp.Engine}.
Variable appInfo : ActiveAppInfo.

Definition matched (rule : AppRule) : bool :=
  match ruleMatches appInfo rule with
  | Returned true => true
  | _ => false
  end.

Definition raises (rule : AppRule) : bool :=
  match ruleMatches appInfo rule with
  | ThrewSyntaxError => true
  | _ => false
  end.

Lemma collectMatching_spec :
  forall l,
    collectMatching appInfo l
    = if existsb raises l then ThrewSyntaxError else Returned (filter matched l).
Proof.
  induction l as [| rule l IH]; simpl; [reflexivity |].
  unfold raises at 1, matched at 1.
  destruct (ruleMatches appInfo rule) as [[|] |]; simpl; rewrite ?IH;
    destruct (existsb raises l); reflexivity.
Qed.

Lemma findMatchingRule_spec :
  forall rules,
    findMatchingRule appInfo rules
    = if existsb raises (filter enabled rules) then ThrewSyntaxError
      else Returned (hd_error (sort_by_priority (filter matched (filter enabled rules)))).
Proof.
  intros rules. unfold findMatchingRule.
  destruct rules as [| rule rules]; [reflexivity |].
  rewrite collectMatching_spec.
  destruct (existsb raises (filter enabled (rule :: rules))); [reflexivity |].
  destruct (filter matched (filter enabled (rule :: rules))); reflexivity.
Qed.

Lemma no_rule_raises :
  forall rules,
    (forall rule, In rule rules -> enabled rule = true ->
                  ruleMatches appInfo rule <> ThrewSyntaxError) ->
    existsb raises (filter enabled rules) = false.
Proof.
  intros rules H.
  destruct (existsb raises (filter enabled rules)) eqn:E; [| reflexivity].
  apply existsb_exists in E. destruct E as [rule [Hin Hr]].
  apply filter_In in Hin. destruct Hin as [Hin Hen].
  specialize (H rule Hin Hen). unfold raises in Hr.
  destruct (ruleMatches appInfo rule); congruence.
Qed.

Lemma matched_true :
  forall rule, matched rule = true <-> ruleMatches appInfo rule = Returned true.
Proof.
  intros rule. unfold matched.
  destruct (ruleMatches appInfo rule) as [[|] |]; split; congruence.
Qed.

Lemma candidates_In :
  forall rules rule,
    In rule (filter matched (filter enabled rules)) <->
    In rule rules /\ enabled rule = true /\ ruleMatches appInfo rule = Returned true.
Proof.
  intros rules rule. rewrite !filter_In, matched_true. tauto.
Qed.

(** ** How a rule matches *)

(** The name pattern is present and finds a match in the application name. *)
Definition matches_by_name (rule : AppRule) : Prop :=
  appName rule <> ""%string /\
  pattern_test (appName rule) (name appInfo) = RegExp.Tested true.

(** The name pattern is absent or finds no match. *)
Definition name_did_not_match (rule : AppRule) : Prop :=
  appName rule = ""%string \/
  pattern_test (appName rule) (name appInfo) = RegExp.Tested false.

(** The executable pattern is present and finds a match in the executable. *)
Definition matches_by_executable (rule : AppRule) : Prop :=
  exists pattern,
    rule_executable rule = Some pattern /\ pattern <> ""%string /\
    pattern_test pattern (executable appInfo) = RegExp.Tested true.

Lemma truthy_string_iff : forall s, JS.truthy_string s = true <-> s <> ""%string.
Proof. intros [| c s]; simpl; split; congruence. Qed.

Lemma ruleMatches_true :
  forall rule,
    ruleMatches appInfo rule = Returned true <->
    matches_by_name rule \/ (name_did_not_match rule /\ matches_by_executable rule).
Proof.
  intros rule.
  unfold ruleMatches, matches_by_name, name_did_not_match, matches_by_executable.
  destruct (appName rule) as [| c n] eqn:En; simpl.
  - destruct (rule_executable rule) as [[| c e] |]; simpl.
    + split; [discriminate |].
      intros [[H _] | [_ [p [Hp [Hne _]]]]]; congruence.
    + destruct (pattern_test (String c e) (executable appInfo)) as [[|] |] eqn:Et;
        (split; [intros H; try discriminate H |
                 intros [[H _] | [_ [p [Hp [_ Ht]]]]]; [congruence | inversion Hp; subst; congruence]]).
      right. split; [now left |]. exists (String c e). repeat split; auto. discriminate.
    + split; [discriminate |].
      intros [[H _] | [_ [p [Hp _]]]]; congruence.
  - destruct (pattern_test (String c n) (name appInfo)) as [[|] |] eqn:Et.
    + split; [| reflexivity]. intros _. left. split; [discriminate | reflexivity].
    + destruct (rule_executable rule) as [[| c' e] |]; simpl.
      * split; [discriminate |].
        intros [[_ H] | [_ [p [Hp [Hne _]]]]]; congruence.
      * destruct (pattern_test (String c' e) (executable appInfo)) as [[|] |] eqn:Ee;
          (split; [intros H; try discriminate H |
                   intros [[_ H] | [_ [p [Hp [_ Ht]]]]]; [congruence | inversion Hp; subst; congruence]]).
        right. split; [now right |]. exists (String c' e). repeat split; auto. discriminate.
      * split; [discriminate |].
        intros [[_ H] | [_ [p [Hp _]]]]; congruence.
    + split; [discriminate |].
      intros [[_ H] | [[H | H] _]]; congruence.
Qed.

(** The resolution by priority, for rule lists on which the call does not
    raise.  A rule matches when its name pattern is present and finds a
    match in the application name or, only when it did not, its executable
    pattern is present and finds a match in the executable.  Disabled rules
    play no part.  When no enabled rule raises on its pattern, a result is
    returned: a matching enabled rule whose priority no matching enabled
    rule exceeds, or null exactly when no enabled rule matches.  Of two
    enabled matching rules of priorities 5 and 10 the second is returned,
    in either order. *)
Theorem findMatchingRule_highest_priority :
  forall rules : list AppRule,
    (forall rule,
        ruleMatches appInfo rule = Returned true <->
        matches_by_name rule \/ (name_did_not_match rule /\ matches_by_executable rule))
    /\ findMatchingRule appInfo rules = findMatchingRule appInfo (filter enabled rules)
    /\ ((forall rule, In rule rules -> enabled rule = true ->
                      ruleMatches appInfo rule <> ThrewSyntaxError) ->
        (exists result, findMatchingRule appInfo rules = Returned result)
        /\ (forall r,
               findMatchingRule appInfo rules = Returned (Some r) ->
               In r rules /\ enabled r = true /\ ruleMatches appInfo r = Returned true
               /\ forall r', In r' rules -> enabled r' = true ->
                             ruleMatches appInfo r' = Returned true ->
                             priority r' <= priority r)
        /\ (findMatchingRule appInfo rules = Returned None <->
            forall r, In r rules -> enabled r = true ->
                      ruleMatches appInfo r <> Returned true))
    /\ (forall r5 r10 : AppRule,
           enabled r5 = true -> enabled r10 = true ->
           ruleMatches appInfo r5 = Returned true ->
           ruleMatches appInfo r10 = Returned true ->
           priority r5 = 5 -> priority r10 = 10 ->
           findMatchingRule appInfo [r5; r10] = Returned (Some r10)
           /\ findMatchingRule appInfo [r10; r5] = Returned (Some r10)).
Proof.
  intros rules. split; [exact ruleMatches_true |]. split; [| split].
  - rewrite !findMatchingRule_spec.
    assert (Hidem : filter enabled (filter enabled rules) = filter enabled rules).
    { induction rules as [| r l IH]; simpl; [reflexivity |].
      destruct (enabled r) eqn:E; simpl; rewrite ?E, IH; reflexivity. }
    now rewrite Hidem.
  - intros Hvalid. rewrite findMatchingRule_spec, (no_rule_raises rules Hvalid).
    split; [eexists; reflexivity |]. split.
    + intros r Hr. inversion Hr as [Hhd].
      apply sort_by_priority_head_highest in Hhd. destruct Hhd as [Hin Hmax].
      apply candidates_In in Hin. destruct Hin as [Hin [Hen Hm]].
      repeat split; auto.
      intros r' Hin' Hen' Hm'. apply Hmax. apply candidates_In. auto.
    + split.
      * intros Hnone r Hin Hen Hm. inversion Hnone as [Hhd].
        assert (Hc : In r (filter matched (filter enabled rules)))
          by (apply candidates_In; auto).
        apply (Permutation_in _ (sort_by_priority_perm _)) in Hc.
        destruct (sort_by_priority (filter matched (filter enabled rules)));
          [inversion Hc | discriminate].
      * intros Hnone.
        destruct (filter matched (filter enabled rules)) as [| r l] eqn:E; [reflexivity |].
        exfalso. assert (Hc : In r (filter matched (filter enabled rules)))
          by (rewrite E; now left).
        apply candidates_In in Hc. destruct Hc as [Hin [Hen Hm]].
        exact (Hnone r Hin Hen Hm).
  - intros r5 r10 He5 He10 Hm5 Hm10 Hp5 Hp10.
    rewrite !findMatchingRule_spec. simpl.
    apply matched_true in Hm5, Hm10.
    unfold raises.
    rewrite He5, He10. simpl. rewrite Hm5, Hm10. simpl.
    apply matched_true in Hm5, Hm10. rewrite Hm5, Hm10. simpl.
    rewrite Hp5, Hp10. simpl. split; reflexivity.
Qed.

(** The tie-break, for rule lists on which the call does not raise.  When
    no enabled rule raises on its pattern, the rule returned is the
    earliest, in the order of the list, of the enabled matching rules of
    highest priority: the enabled matching rules before it have a strictly
    lower priority, those after it a priority that is not higher. *)
Theorem findMatchingRule_ties_earliest :
  forall (before : list AppRule) (r : AppRule) (after : list AppRule),
    (forall rule, In rule (before ++ r :: after) -> enabled rule = true ->
                  ruleMatches appInfo rule <> ThrewSyntaxError) ->
    enabled r = true ->
    ruleMatches appInfo r = Returned true ->
    (forall x, In x before -> enabled x = true ->
               ruleMatches appInfo x = Returned true -> priority x < priority r) ->
    (forall x, In x after -> enabled x = true ->
               ruleMatches appInfo x = Returned true -> priority x <= priority r) ->
    findMatchingRule appInfo (before ++ r :: after) = Returned (Some r).
Proof.
  intros before r after Hvalid Hen Hm Hbefore Hafter.
  rewrite findMatchingRule_spec, (no_rule_raises _ Hvalid).
  rewrite !filter_app. simpl. rewrite Hen. simpl.
  apply matched_true in Hm. rewrite Hm.
  rewrite sort_by_priority_head_earliest; [reflexivity | |];
    apply Forall_forall; intros x Hx; apply candidates_In in Hx;
    destruct Hx as [Hin [Hex Hmx]]; auto.
Qed.

End WithEngine.

(** ** Examples, on the engine for plain patterns *)

Definition vscode : ActiveAppInfo :=
  mkActiveAppInfo "Visual Studio Code" "Code.exe" "main.ts - whispo" 0.

Definition rule_code_5 : AppRule :=
  mkAppRule "rule-a" "*code*" None true 5 None.

Definition rule_visual_10 : AppRule :=
  mkAppRule "rule-b" "visual*" (Some "code.exe"%string) true 10 (Some Fusion.groq).

Definition rule_studio_10 : AppRule :=
  mkAppRule "rule-c" "studio" None true 10 (Some Fusion.openai).

Definition rule_disabled_99 : AppRule :=
  mkAppRule "rule-d" "*" None false 99 None.

Lemma findMatchingRule_priorities_5_and_10 :
  (forall rule,
      In rule [rule_disabled_99; rule_code_5; rule_visual_10] -> enabled rule = true ->
      ruleMatches (engine := RegExp.PlainEngine) vscode rule <> ThrewSyntaxError)
  /\ findMatchingRule (engine := RegExp.PlainEngine) vscode
       [rule_disabled_99; rule_code_5; rule_visual_10]
     = Returned (Some rule_visual_10)
  /\ priority rule_code_5 <= priority rule_visual_10.
Proof.
  assert (Hvalid : forall rule,
             In rule [rule_disabled_99; rule_code_5; rule_visual_10] ->
             enabled rule = true ->
             ruleMatches (engine := RegExp.PlainEngine) vscode rule <> ThrewSyntaxError).
  { intros rule [<- | [<- | [<- | []]]] _; vm_compute; discriminate. }
  split; [exact Hvalid |].
  destruct (findMatchingRule_highest_priority (engine := RegExp.PlainEngine) vscode
              [rule_disabled_99; rule_code_5; rule_visual_10])
    as [_ [_ [Hreturned _]]].
  destruct (Hreturned Hvalid) as [_ [Hhighest _]].
  assert (Hres : findMatchingRule (engine := RegExp.PlainEngine) vscode
                   [rule_disabled_99; rule_code_5; rule_visual_10]
                 = Returned (Some rule_visual_10)) by (vm_compute; reflexivity).
  split; [exact Hres |].
  destruct (Hhighest rule_visual_10 Hres) as [_ [_ [_ Hmax]]].
  apply (Hmax rule_code_5); [simpl; auto | reflexivity | vm_compute; reflexivity].
Defined.

Lemma findMatchingRule_tie_in_list_order :
  (forall rule,
      In rule ([rule_code_5] ++ rule_visual_10 :: [rule_studio_10]) -> enabled rule = true ->
      ruleMatches (engine := RegExp.PlainEngine) vscode rule <> ThrewSyntaxError)
  /\ priority rule_visual_10 = priority rule_studio_10
  /\ findMatchingRule (engine := RegExp.PlainEngine) vscode
       [rule_code_5; rule_visual_10; rule_studio_10]
     = Returned (Some rule_visual_10)
  /\ findMatchingRule (engine := RegExp.PlainEngine) vscode
       [rule_code_5; rule_studio_10; rule_visual_10]
     = Returned (Some rule_studio_10).
Proof.
  assert (Hvalid : forall l rule,
             In rule l -> In rule [rule_code_5; rule_visual_10; rule_studio_10] ->
             enabled rule = true ->
             ruleMatches (engine := RegExp.PlainEngine) vscode rule <> ThrewSyntaxError).
  { intros l rule _ [<- | [<- | [<- | []]]] _; vm_compute; discriminate. }
  split; [intros rule Hin; apply (Hvalid _ rule Hin); simpl in *; tauto |].
  split; [reflexivity |]. split.
  - apply (findMatchingRule_ties_earliest (engine := RegExp.PlainEngine) vscode
             [rule_code_5] rule_visual_10 [rule_studio_10]).
    + intros rule Hin. apply (Hvalid _ rule Hin). simpl in *; tauto.
    + reflexivity.
    + vm_compute; reflexivity.
    + intros x [<- | []] _ _. vm_compute. reflexivity.
    + intros x [<- | []] _ _. vm_compute. discriminate.
  - apply (findMatchingRule_ties_earliest (engine := RegExp.PlainEngine) vscode
             [rule_code_5] rule_studio_10 [rule_visual_10]).
    + intros rule Hin. apply (Hvalid _ rule Hin). simpl in *; tauto.
    + reflexivity.
    + vm_compute; reflexivity.
    + intros x [<- | []] _ _. vm_compute. reflexivity.
    + intros x [<- | []] _ _. vm_compute. discriminate.
Defined.

(** A rule named after an application whose name holds regular-expression
    syntax, and a rule with no name pattern while no application is in
    front (what the detection on Windows reports when it finds no process). *)
Definition notepad_pp : ActiveAppInfo :=
  mkActiveAppInfo "Notepad++" "notepad++.exe" "new 1 - Notepad++" 0.

Definition rule_notepad_pp : AppRule :=
  mkAppRule "rule-e" "Notepad++" None true 10 None.

Definition no_application : ActiveAppInfo := mkActiveAppInfo "" "" "" 0.

Definition rule_unnamed : AppRule := mkAppRule "rule-f" "" None true 10 None.

Definition rule_cpp_1 : AppRule :=
  mkAppRule "rule-g" "C++ Builder" None true 1 None.

(** C4, where the code departs from it.  The name pattern of a rule is
    compiled by [new RegExp] after only [*] has been rewritten; the other
    characters of regular-expression syntax are not escaped.  An enabled
    rule whose pattern is the name [Notepad++], letter for letter the name
    of the application in front, is not returned: the call raises a
    SyntaxError and returns neither a rule nor null. *)
Theorem findMatchingRule_raises_on_Notepad_pp :
  enabled rule_notepad_pp = true
  /\ appName rule_notepad_pp = name notepad_pp
  /\ replace_stars (appName rule_notepad_pp) = "Notepad++"%string
  /\ findMatchingRule (engine := RegExp.PlainEngine) notepad_pp [rule_notepad_pp]
     = ThrewSyntaxError.
Proof. repeat split; vm_compute; reflexivity. Qed.

(** An enabled rule with an empty name pattern is passed over by the guard
    on [rule.appName], also where the pattern would find a match. *)
Lemma findMatchingRule_passes_over_empty_name :
  pattern_test (engine := RegExp.PlainEngine) (appName rule_unnamed) (name no_application)
  = RegExp.Tested true
  /\ findMatchingRule (engine := RegExp.PlainEngine) no_application [rule_unnamed]
     = Returned None.
Proof. repeat split; vm_compute; reflexivity. Qed.

(** C10, where the code departs from it.  Two enabled matching rules share
    the highest priority and neither is returned: the call raises a
    SyntaxError on a third enabled rule, of lower priority, whose name
    pattern [C++ Builder] is compiled unescaped.  The defect is the one
    shown for C4. *)
Theorem findMatchingRule_tie_raises :
  enabled rule_visual_10 = true /\ enabled rule_studio_10 = true
  /\ ruleMatches (engine := RegExp.PlainEngine) vscode rule_visual_10 = Returned true
  /\ ruleMatches (engine := RegExp.PlainEngine) vscode rule_studio_10 = Returned true
  /\ priority rule_visual_10 = priority rule_studio_10
  /\ priority rule_cpp_1 < priority rule_visual_10
  /\ findMatchingRule (engine := RegExp.PlainEngine) vscode
       [rule_visual_10; rule_studio_10; rule_cpp_1]
     = ThrewSyntaxError.
Proof. repeat split; vm_compute; reflexivity. Qed.

End AppDetectorProperties.

(* ================================================================== *)
(** * Properties of voice activation *)
(* ================================================================== *)

Module VoiceActivationProperties.

Import VoiceActivation.

Local Open Scope Z_scope.

(** ** Timers in the event loop

    Handles are handed out in increasing order, so no two pending timers
    share one. *)
Definition well_formed (w : World) : Prop :=
  NoDup (map handle (timers w)) /\
  Forall (fun t => (handle t < nextHandle w)%nat) (timers w).

Lemma well_formed_same_timers :
  forall w w',
    timers w' = timers w -> nextHandle w' = nextHandle w ->
    well_formed w -> well_formed w'.
Proof. unfold well_formed. intros w w' -> ->. auto. Qed.

Lemma NoDup_map_filter :
  forall (A B : Type) (f : A -> B) (keep : A -> bool) (l : list A),
    NoDup (map f l) -> NoDup (map f (filter keep l)).
Proof.
  induction l as [| a l IH]; simpl; intros H; [constructor |].
  inversion H as [| ? ? Hnot Hnd]; subst.
  destruct (keep a); simpl; [| now apply IH].
  constructor; [| now apply IH].
  intros Hin. apply Hnot. apply in_map_iff in Hin. destruct Hin as [x [Hx Hin]].
  apply filter_In in Hin. apply in_map_iff. exists x. tauto.
Qed.

Lemma clearTimeout_well_formed :
  forall h w, well_formed w -> well_formed (clearTimeout h w).
Proof.
  intros h w [Hnd Hlt]. split; simpl.
  - now apply NoDup_map_filter.
  - apply Forall_forall. intros t Ht. apply filter_In in Ht.
    rewrite Forall_forall in Hlt. now apply Hlt.
Qed.

Lemma setTimeout_well_formed :
  forall m d w, well_formed w -> well_formed (snd (setTimeout m d w)).
Proof.
  intros m d w [Hnd Hlt]. split; simpl.
  - rewrite map_app. simpl. apply NoDup_app; [assumption | repeat constructor; simpl; tauto |].
    intros h Hin [<- | []]. apply in_map_iff in Hin. destruct Hin as [t [Hh Ht]].
    rewrite Forall_forall in Hlt. specialize (Hlt t Ht). lia.
  - apply Forall_app. split.
    + eapply Forall_impl; [| exact Hlt]. simpl. intros; lia.
    + repeat constructor.
Qed.

Lemma clearSilenceTimer_well_formed :
  forall w, well_formed w -> well_formed (clearSilenceTimer w).
Proof.
  intros w H. unfold clearSilenceTimer.
  destruct (silenceTimer (voiceActivation (state w))); [| assumption].
  apply (well_formed_same_timers (clearTimeout n w)); [reflexivity | reflexivity |].
  now apply clearTimeout_well_formed.
Qed.

Lemma stopRecording_well_formed :
  forall w, well_formed w -> well_formed (stopRecording w).
Proof.
  intros w H. unfold stopRecording.
  apply clearSilenceTimer_well_formed in H.
  destruct (panel (clearSilenceTimer w)); [| assumption].
  eapply well_formed_same_timers; [| | exact H]; reflexivity.
Qed.

Lemma onSilenceDetected_well_formed :
  forall config w, well_formed w -> well_formed (onSilenceDetected config w).
Proof.
  intros config w H. unfold onSilenceDetected.
  destruct (ignores_events config w); [assumption |].
  destruct config as [voiceConfig |]; [| assumption].
  destruct (isRecording (state w)); [| assumption].
  destruct (silenceTimer (voiceActivation (state w))); [assumption |].
  apply (well_formed_same_timers
           (snd (setTimeout (JS.int_or (minRecordingDuration voiceConfig) 500)
                   (JS.int_or (silenceThreshold voiceConfig) 2000) w)));
    [reflexivity | reflexivity |].
  now apply setTimeout_well_formed.
Qed.

Lemma onVoiceDetected_well_formed :
  forall config now w, well_formed w -> well_formed (onVoiceDetected config now w).
Proof.
  intros config now w H. unfold onVoiceDetected.
  destruct (ignores_events config w); [assumption |].
  apply clearSilenceTimer_well_formed in H.
  destruct (negb (isRecording (state (clearSilenceTimer w)))); [| assumption].
  eapply well_formed_same_timers; [| | exact H]; reflexivity.
Qed.

Lemma fire_well_formed :
  forall h now w, well_formed w -> well_formed (fire h now w).
Proof.
  intros h now w H. unfold fire.
  destruct (find (fun t => Nat.eqb (handle t) h) (timers w)); [| assumption].
  unfold silenceTimerCallback.
  apply (clearTimeout_well_formed h) in H.
  destruct (_ <=? _); [now apply stopRecording_well_formed | assumption].
Qed.

Lemma start_well_formed : forall w, well_formed w -> well_formed (start w).
Proof.
  intros w H. unfold start.
  destruct (negb (isInitialized (manager w))); [assumption |].
  destruct (voiceActivationWindow (manager (set_isListening true w)));
    (eapply well_formed_same_timers; [| | exact H]; reflexivity).
Qed.

Lemma recordEvent_well_formed :
  forall b w, well_formed w -> well_formed (recordEvent b w).
Proof. intros b w H. eapply well_formed_same_timers; [| | exact H]; reflexivity. Qed.

Lemma initialized_world_well_formed : forall p, well_formed (initialized_world p).
Proof. intros p. split; simpl; constructor. Qed.

(** A pending timer is the one the event loop finds under its handle. *)
Lemma find_pending :
  forall w t,
    well_formed w -> In t (timers w) ->
    find (fun t' => Nat.eqb (handle t') (handle t)) (timers w) = Some t.
Proof.
  intros w t [Hnd _] Hin. induction (timers w) as [| x l IH]; simpl in *; [tauto |].
  inversion Hnd as [| ? ? Hnot Hnd']; subst.
  destruct Hin as [-> | Hin].
  - now rewrite Nat.eqb_refl.
  - destruct (Nat.eqb_spec (handle x) (handle t)) as [Heq | Hne]; [| auto].
    exfalso. apply Hnot. rewrite Heq. now apply in_map.
Qed.

(** The timer [onSilenceDetected] sets holds the configured durations,
    with 500 ms and 2000 ms standing in for a duration of zero. *)
Lemma onSilenceDetected_sets :
  forall voiceConfig w t,
    In t (timers (onSilenceDetected (Some voiceConfig) w)) -> ~ In t (timers w) ->
    minDuration t = JS.int_or (minRecordingDuration voiceConfig) 500 /\
    delay t = JS.int_or (silenceThreshold voiceConfig) 2000.
Proof.
  intros voiceConfig w t Hin Hnew. unfold onSilenceDetected in Hin.
  destruct (ignores_events (Some voiceConfig) w); [contradiction |].
  destruct (isRecording (state w)); [| contradiction].
  destruct (silenceTimer (voiceActivation (state w))); [contradiction |].
  simpl in Hin. apply in_app_or in Hin. destruct Hin as [Hin | [<- | []]]; [contradiction |].
  split; reflexivity.
Qed.

(** ** What the small steps leave alone *)

Lemma clearSilenceTimer_frame :
  forall w,
    outbox (clearSilenceTimer w) = outbox w /\
    panel (clearSilenceTimer w) = panel w /\
    manager (clearSilenceTimer w) = manager w /\
    isRecording (state (clearSilenceTimer w)) = isRecording (state w).
Proof.
  intros w. unfold clearSilenceTimer.
  destruct (silenceTimer (voiceActivation (state w))); simpl; auto.
Qed.

Lemma stopRecording_outbox :
  forall w,
    outbox (stopRecording w)
    = if panel w then (outbox w ++ [finishRecording])%list else outbox w.
Proof.
  intros w. unfold stopRecording.
  destruct (clearSilenceTimer_frame w) as [Ho [Hp _]].
  rewrite Hp. destruct (panel w); simpl; now rewrite Ho.
Qed.

Lemma int_or_minimum :
  forall m, (m <= JS.int_or m 500) /\ (m <> 0 -> JS.int_or m 500 = m).
Proof.
  intros m. unfold JS.int_or. destruct (Z.eqb_spec m 0); split; intros; lia.
Qed.

(** ** The silence timer and the minimum duration *)

(** C5.  Let a silence timer, set by [onSilenceDetected] under a
    configuration, fire at time [now] while a recording is active.  If the
    firing sends anything, then [now - recordingStartTime] has reached the
    configured [minRecordingDuration]; if the elapsed time is below it,
    the firing changes neither the state nor the messages, so the recording
    is not stopped; and once the duration captured by the timer is reached
    (and the panel exists), [finishRecording] is what is sent. *)
Theorem silence_timer_respects_minimum :
  forall (voiceConfig : VoiceActivationConfig) (w0 : World) (t : Timer)
         (w : World) (now : Z),
    In t (timers (onSilenceDetected (Some voiceConfig) w0)) ->
    ~ In t (timers w0) ->
    well_formed w ->
    In t (timers w) ->
    isRecording (state w) = true ->
    (outbox (fire (handle t) now w) <> outbox w ->
     minRecordingDuration voiceConfig
     <= now - recordingStartTime (voiceActivation (state w)))
    /\ (now - recordingStartTime (voiceActivation (state w))
        < minRecordingDuration voiceConfig ->
        state (fire (handle t) now w) = state w /\
        outbox (fire (handle t) now w) = outbox w)
    /\ (JS.int_or (minRecordingDuration voiceConfig) 500
        <= now - recordingStartTime (voiceActivation (state w)) ->
        panel w = true ->
        outbox (fire (handle t) now w) = (outbox w ++ [finishRecording])%list).
Proof.
  intros voiceConfig w0 t w now Hset Hnew Hwf Hpending Hrec.
  destruct (onSilenceDetected_sets voiceConfig w0 t Hset Hnew) as [Hmin _].
  destruct (int_or_minimum (minRecordingDuration voiceConfig)) as [Hle Hsame].
  unfold fire. rewrite (find_pending w t Hwf Hpending).
  unfold silenceTimerCallback. rewrite Hmin. simpl.
  set (elapsed := now - recordingStartTime (voiceActivation (state w))).
  destruct (Z.leb_spec (JS.int_or (minRecordingDuration voiceConfig) 500) elapsed)
    as [Hreached | Hbelow].
  - split; [| split].
    + intros _. lia.
    + intros Hlt. lia.
    + intros _ Hpanel. rewrite stopRecording_outbox. simpl. now rewrite Hpanel.
  - split; [| split].
    + intros Hsent. now contradiction Hsent.
    + intros _. split; reflexivity.
    + intros Hge. lia.
Qed.

(** A session: listening, a voice detected at 1000 ms, the renderer
    reporting that recording has started, then silence. *)
Definition default_config : VoiceActivationConfig :=
  mkVoiceActivationConfig true 30 2000 10 500 30000.

Definition world_listening : World := start (initialized_world true).

Definition world_recording : World :=
  recordEvent true (onVoiceDetected (Some default_config) 1000 world_listening).

Definition world_silence : World := onSilenceDetected (Some default_config) world_recording.

Definition silence_timer : Timer := mkTimer 0 2000 500.

Lemma world_silence_well_formed : well_formed world_silence.
Proof.
  apply onSilenceDetected_well_formed, recordEvent_well_formed,
    onVoiceDetected_well_formed, start_well_formed, initialized_world_well_formed.
Qed.

(** The timer fires 200 ms into the recording: nothing is sent. *)
Lemma silence_timer_fires_early :
  In silence_timer (timers (onSilenceDetected (Some default_config) world_recording))
  /\ ~ In silence_timer (timers world_recording)
  /\ well_formed world_silence
  /\ In silence_timer (timers world_silence)
  /\ isRecording (state world_silence) = true
  /\ 1200 - recordingStartTime (voiceActivation (state world_silence))
     < minRecordingDuration default_config
  /\ state (fire (handle silence_timer) 1200 world_silence) = state world_silence
  /\ outbox (fire (handle silence_timer) 1200 world_silence) = outbox world_silence.
Proof.
  assert (Hset : In silence_timer
                   (timers (onSilenceDetected (Some default_config) world_recording)))
    by (vm_compute; auto).
  assert (Hnew : ~ In silence_timer (timers world_recording))
    by (vm_compute; tauto).
  assert (Hpending : In silence_timer (timers world_silence)) by (vm_compute; auto).
  assert (Hrec : isRecording (state world_silence) = true) by reflexivity.
  assert (Hearly : 1200 - recordingStartTime (voiceActivation (state world_silence))
                   < minRecordingDuration default_config) by (vm_compute; reflexivity).
  repeat (split; [assumption || exact world_silence_well_formed |]).
  exact (proj1 (proj2 (silence_timer_respects_minimum default_config world_recording
                         silence_timer world_silence 1200 Hset Hnew
                         world_silence_well_formed Hpending Hrec)) Hearly).
Defined.

(** ** start *)

(** C6 (as amended).  A call to [start] on an initialized manager sets
    [isListening] and tells the hidden window to monitor; it leaves the
    silence timer, the pending timers, [recordingStartTime] and the rest of
    the state as they were.  On a manager that is not initialized it
    changes nothing. *)
Theorem start_sets_listening_only :
  forall w : World,
    (isInitialized (manager w) = true ->
     isListening (voiceActivation (state (start w))) = true
     /\ silenceTimer (voiceActivation (state (start w)))
        = silenceTimer (voiceActivation (state w))
     /\ timers (start w) = timers w
     /\ recordingStartTime (voiceActivation (state (start w)))
        = recordingStartTime (voiceActivation (state w))
     /\ isRecording (state (start w)) = isRecording (state w)
     /\ outbox (start w)
        = if voiceActivationWindow (manager w)
          then (outbox w ++ [voice_activation_start])%list
          else outbox w)
    /\ (isInitialized (manager w) = false -> start w = w).
Proof.
  intros w. unfold start. split; intros Hinit; rewrite Hinit; simpl; [| reflexivity].
  destruct (voiceActivationWindow (manager w)); simpl; repeat split; reflexivity.
Qed.

(** [start] called again while a silence timer is pending: the timer stays,
    [recordingStartTime] stays, and when the timer fires later it stops the
    recording.  On a manager that is not initialized, [start] does not even
    set [isListening]. *)
Lemma start_keeps_silence_timer :
  silenceTimer (voiceActivation (state world_silence)) = Some 0%nat
  /\ silenceTimer (voiceActivation (state (start world_silence))) = Some 0%nat
  /\ timers (start world_silence) = [silence_timer]
  /\ recordingStartTime (voiceActivation (state (start world_silence))) = 1000
  /\ outbox (fire 0 3000 (start world_silence))
     = (outbox (start world_silence) ++ [finishRecording])%list
  /\ isListening
       (voiceActivation
          (state (start (mkWorld initial_state (mkManager false false) [] 0 true []))))
     = false.
Proof. repeat split; vm_compute; reflexivity. Qed.

(** [start] on the listening world of the session above, and on a manager
    that was never initialized. *)
Lemma start_sets_listening_only_session :
  isInitialized (manager world_silence) = true
  /\ isListening (voiceActivation (state (start world_silence))) = true
  /\ timers (start world_silence) = timers world_silence
  /\ isInitialized (manager (mkWorld initial_state (mkManager false false) [] 0 true []))
     = false
  /\ start (mkWorld initial_state (mkManager false false) [] 0 true [])
     = mkWorld initial_state (mkManager false false) [] 0 true [].
Proof.
  assert (Hinit : isInitialized (manager world_silence) = true) by reflexivity.
  destruct (proj1 (start_sets_listening_only world_silence) Hinit)
    as [Hlistening [_ [Htimers _]]].
  split; [exact Hinit |]. split; [exact Hlistening |]. split; [exact Htimers |].
  split; [reflexivity |].
  apply (proj2 (start_sets_listening_only
                  (mkWorld initial_state (mkManager false false) [] 0 true []))).
  reflexivity.
Defined.

(** ** stop *)

(** Not listening, no silence timer, no recording in progress. *)
Definition inactive (w : World) : Prop :=
  isListening (voiceActivation (state w)) = false /\
  silenceTimer (voiceActivation (state w)) = None /\
  isRecording (state w) = false.

Lemma voice_stop_when_inactive :
  forall w,
    inactive w ->
    engine_state (stop w) = engine_state w /\
    outbox (stop w)
    = if voiceActivationWindow (manager w)
      then (outbox w ++ [voice_activation_stop])%list
      else outbox w.
Proof.
  intros [[rec [en lis lvl tm rst]] mgr tms nh pnl out] [Hl [Ht Hr]].
  simpl in Hl, Ht, Hr. subst. unfold stop, engine_state. simpl.
  destruct (voiceActivationWindow mgr); simpl; split; reflexivity.
Qed.

Lemma voice_stop_inactive_after :
  forall w,
    isListening (voiceActivation (state (stop w))) = false /\
    silenceTimer (voiceActivation (state (stop w))) = None.
Proof.
  intros [[rec [en lis lvl tm rst]] mgr tms nh pnl out].
  unfold stop. simpl.
  destruct tm; simpl; destruct rec; simpl; destruct (voiceActivationWindow mgr); simpl;
    split; reflexivity.
Qed.

Lemma voice_stop_stop :
  forall w, engine_state (stop (stop w)) = engine_state (stop w).
Proof.
  intros [[rec [en lis lvl tm rst]] mgr tms nh pnl out].
  unfold stop, engine_state. simpl.
  destruct tm; simpl; destruct rec; simpl; destruct (voiceActivationWindow mgr) eqn:E;
    simpl; rewrite ?E; simpl; reflexivity.
Qed.

(** ** Cancelled timers and the ceiling *)

Lemma find_after_clearTimeout :
  forall h w, find (fun t => Nat.eqb (handle t) h) (timers (clearTimeout h w)) = None.
Proof.
  intros h w. simpl. induction (timers w) as [| t l IH]; simpl; [reflexivity |].
  destruct (Nat.eqb (handle t) h) eqn:E; simpl; [assumption |]. now rewrite E.
Qed.

Lemma find_after_clearSilenceTimer :
  forall h w,
    silenceTimer (voiceActivation (state w)) = Some h ->
    find (fun t => Nat.eqb (handle t) h) (timers (clearSilenceTimer w)) = None.
Proof.
  intros h w Hh. unfold clearSilenceTimer. rewrite Hh.
  apply (find_after_clearTimeout h w).
Qed.

(** When the voice comes back before the silence timer fires, the timer is
    cancelled: its handle is forgotten and firing it later does nothing. *)
Theorem voice_cancels_silence_timer :
  forall (voiceConfig : VoiceActivationConfig) (now later : Z) (w : World) (h : nat),
    enabled voiceConfig = true ->
    isListening (voiceActivation (state w)) = true ->
    silenceTimer (voiceActivation (state w)) = Some h ->
    silenceTimer (voiceActivation (state (onVoiceDetected (Some voiceConfig) now w))) = None
    /\ fire h later (onVoiceDetected (Some voiceConfig) now w)
       = onVoiceDetected (Some voiceConfig) now w.
Proof.
  intros voiceConfig now later w h Hen Hlis Hh.
  unfold onVoiceDetected, ignores_events. rewrite Hen, Hlis. simpl.
  pose proof (find_after_clearSilenceTimer h w Hh) as Hfind.
  assert (Hnone : silenceTimer (voiceActivation (state (clearSilenceTimer w))) = None)
    by (unfold clearSilenceTimer; rewrite Hh; reflexivity).
  destruct (negb (isRecording (state (clearSilenceTimer w)))).
  - split; [exact Hnone |]. unfold fire. simpl. now rewrite Hfind.
  - split; [exact Hnone |]. unfold fire. now rewrite Hfind.
Qed.

Lemma voice_cancels_silence_timer_session :
  enabled default_config = true
  /\ isListening (voiceActivation (state world_silence)) = true
  /\ silenceTimer (voiceActivation (state world_silence)) = Some 0%nat
  /\ fire 0 3000 (onVoiceDetected (Some default_config) 1500 world_silence)
     = onVoiceDetected (Some default_config) 1500 world_silence.
Proof.
  repeat (split; [reflexivity |]).
  apply (voice_cancels_silence_timer default_config 1500 3000 world_silence 0);
    reflexivity.
Defined.

(** [stop] cancels the pending silence timer: firing it later does nothing. *)
Theorem stop_cancels_silence_timer :
  forall (later : Z) (w : World) (h : nat),
    silenceTimer (voiceActivation (state w)) = Some h ->
    fire h later (stop w) = stop w.
Proof.
  intros later [[rec [en lis lvl tm rst]] mgr tms nh pnl out] h Hh.
  simpl in Hh. subst tm. unfold stop, fire.
  assert (Hfind : forall l,
             find (fun t => Nat.eqb (handle t) h)
               (filter (fun t => negb (Nat.eqb (handle t) h)) l) = None).
  { induction l as [| t l IH]; simpl; [reflexivity |].
    destruct (Nat.eqb (handle t) h) eqn:E; simpl; [assumption |]. now rewrite E. }
  simpl. destruct rec; simpl; destruct (voiceActivationWindow mgr); simpl;
    now rewrite Hfind.
Qed.

Lemma stop_cancels_silence_timer_session :
  silenceTimer (voiceActivation (state world_silence)) = Some 0%nat
  /\ fire 0 3000 (stop world_silence) = stop world_silence
  /\ timers (stop world_silence) = [].
Proof.
  split; [reflexivity |]. split.
  - apply (stop_cancels_silence_timer 3000 world_silence 0). reflexivity.
  - reflexivity.
Defined.

(** While a recording is in progress, an audio level that arrives once the
    maximum duration has elapsed stops the recording, whatever the level. *)
Theorem max_duration_forces_stop :
  forall (voiceConfig : VoiceActivationConfig) (level : float) (now : Z) (w : World),
    isRecording (state w) = true ->
    JS.int_or (maxRecordingDuration voiceConfig) 30000
    <= now - recordingStartTime (voiceActivation (state w)) ->
    onAudioLevelUpdate (Some voiceConfig) level now w
    = stopRecording (set_audioLevel level w)
    /\ silenceTimer
         (voiceActivation (state (onAudioLevelUpdate (Some voiceConfig) level now w)))
       = None
    /\ (panel w = true ->
        outbox (onAudioLevelUpdate (Some voiceConfig) level now w)
        = (outbox w ++ [finishRecording])%list).
Proof.
  intros voiceConfig level now [[rec [en lis lvl tm rst]] mgr tms nh pnl out] Hrec Hmax.
  simpl in Hrec, Hmax. subst rec.
  unfold onAudioLevelUpdate. simpl.
  apply Z.leb_le in Hmax. rewrite Hmax.
  unfold stopRecording, clearSilenceTimer. simpl.
  destruct tm; simpl; destruct pnl; simpl; repeat split; try reflexivity;
    intros; discriminate.
Qed.

Lemma max_duration_forces_stop_session :
  isRecording (state world_silence) = true
  /\ JS.int_or (maxRecordingDuration default_config) 30000
     <= 31000 - recordingStartTime (voiceActivation (state world_silence))
  /\ outbox (onAudioLevelUpdate (Some default_config) 80%float 31000 world_silence)
     = (outbox world_silence ++ [finishRecording])%list.
Proof.
  split; [reflexivity |]. split; [vm_compute; discriminate |].
  apply (max_duration_forces_stop default_config 80%float 31000 world_silence);
    [reflexivity | vm_compute; discriminate | reflexivity].
Defined.

End VoiceActivationProperties.

(* ================================================================== *)
(** * Properties of streaming dictation *)
(* ================================================================== *)

Module StreamingDictationProperties.

Import StreamingDictation.

(** C7 (as amended).  [stop] sets [isActive] and [isListening] to false
    and leaves every other field of the session state as it was when
    [stop] was called: [currentText], [lastFinalText], [wordsSpoken] and
    the rest.  A [start] called right after it, on an initialized manager,
    resets [wordsSpoken] to zero, stamps [startTime] and sets [isActive];
    it too leaves [currentText] and [lastFinalText] as they were. *)
Theorem stop_keeps_texts_and_counts :
  forall (m : Manager) (now : Z),
    (isActive (currentState (stop m)) = false
     /\ isListening (currentState (stop m)) = false
     /\ currentText (currentState (stop m)) = currentText (currentState m)
     /\ lastFinalText (currentState (stop m)) = lastFinalText (currentState m)
     /\ wordsSpoken (currentState (stop m)) = wordsSpoken (currentState m)
     /\ confidence (currentState (stop m)) = confidence (currentState m)
     /\ audioLevel (currentState (stop m)) = audioLevel (currentState m)
     /\ language (currentState (stop m)) = language (currentState m)
     /\ startTime (currentState (stop m)) = startTime (currentState m))
    /\ (isInitialized m = true ->
        wordsSpoken (currentState (start now (stop m))) = 0
        /\ isActive (currentState (start now (stop m))) = true
        /\ startTime (currentState (start now (stop m))) = now
        /\ currentText (currentState (start now (stop m))) = currentText (currentState m)
        /\ lastFinalText (currentState (start now (stop m)))
           = lastFinalText (currentState m)).
Proof.
  intros [init win [act lis cur fin conf lvl lang st words] acc out] now.
  unfold stop, start. simpl. split.
  - destruct win; simpl; repeat split; reflexivity.
  - intros ->. destruct win; simpl; repeat split; reflexivity.
Qed.

(** A session in which one final text of two words was inserted and an
    interim text is showing. *)
Definition manager_dictating : Manager :=
  onTextUpdate "hel" false 0.8%float
    (onTextUpdate "good morning" true 0.9%float
       (onRecognition true (start 1000 (initialized_manager true)))).

Lemma stop_keeps_texts_and_counts_dictating :
  isInitialized manager_dictating = true
  /\ wordsSpoken (currentState (stop manager_dictating)) = 2
  /\ lastFinalText (currentState (stop manager_dictating)) = "good morning"
  /\ wordsSpoken (currentState (start 5000 (stop manager_dictating))) = 0.
Proof.
  assert (Hinit : isInitialized manager_dictating = true) by reflexivity.
  destruct (stop_keeps_texts_and_counts manager_dictating 5000)
    as [[_ [_ [_ [Hfinal [Hwords _]]]]] Hstart].
  destruct (Hstart Hinit) as [Hreset _].
  split; [exact Hinit |].
  split; [rewrite Hwords; vm_compute; reflexivity |].
  split; [rewrite Hfinal; vm_compute; reflexivity | exact Hreset].
Defined.

(** [stop] while an interim text is showing: [currentText] is not emptied.
    Nor does [stop] hold [wordsSpoken] and [lastFinalText] until the next
    [start]: a final text that arrives after it is counted and recorded. *)
Lemma stop_keeps_currentText :
  currentText (currentState manager_dictating) = "hel"
  /\ currentText (currentState (stop manager_dictating)) = "hel"
  /\ currentText (currentState (stop manager_dictating)) <> ""
  /\ wordsSpoken (currentState (stop manager_dictating)) = 2
  /\ wordsSpoken
       (currentState (onTextUpdate "see you" true 0.9%float (stop manager_dictating)))
     = 4
  /\ lastFinalText
       (currentState (onTextUpdate "see you" true 0.9%float (stop manager_dictating)))
     = "see you".
Proof.
  split; [vm_compute; reflexivity |]. split; [vm_compute; reflexivity |].
  split; [vm_compute; discriminate |].
  repeat split; vm_compute; reflexivity.
Qed.

(** A final text replaces [lastFinalText], empties [currentText], adds its
    words to [wordsSpoken] and is sent for insertion when accessibility is
    granted; an interim text only replaces [currentText]. *)
Theorem onTextUpdate_final_and_interim :
  forall (text : string) (conf : float) (m : Manager),
    (currentText (currentState (onTextUpdate text true conf m)) = ""
     /\ lastFinalText (currentState (onTextUpdate text true conf m)) = text
     /\ wordsSpoken (currentState (onTextUpdate text true conf m))
        = wordsSpoken (currentState m)
          + List.length (filter (fun w => 0 <? String.length w)
                           (JS.split_ws (JS.trim text)))
     /\ outbox (onTextUpdate text true conf m)
        = if accessibilityGranted m then (outbox m ++ [writeText text])%list
          else outbox m)
    /\ (currentText (currentState (onTextUpdate text false conf m)) = text
        /\ lastFinalText (currentState (onTextUpdate text false conf m))
           = lastFinalText (currentState m)
        /\ wordsSpoken (currentState (onTextUpdate text false conf m))
           = wordsSpoken (currentState m)
        /\ outbox (onTextUpdate text false conf m) = outbox m).
Proof.
  intros text conf [init win [act lis cur fin c lvl lang st words] acc out].
  unfold onTextUpdate, insertText. simpl.
  destruct acc; simpl; repeat split; reflexivity.
Qed.

(** ** stop *)

(** Not active and not listening. *)
Definition inactive (m : Manager) : Prop :=
  isActive (currentState m) = false /\ isListening (currentState m) = false.

Lemma dictation_stop_when_inactive :
  forall m,
    inactive m ->
    engine_state (stop m) = engine_state m /\
    outbox (stop m)
    = if recognitionWindow m then (outbox m ++ [streaming_dictation_stop])%list
      else outbox m.
Proof.
  intros [init win [act lis cur fin conf lvl lang st words] acc out] [Ha Hl].
  simpl in Ha, Hl. subst. unfold stop, engine_state. simpl.
  destruct win; simpl; split; reflexivity.
Qed.

Lemma dictation_stop_inactive_after : forall m, inactive (stop m).
Proof.
  intros [init win [act lis cur fin conf lvl lang st words] acc out].
  unfold stop, inactive. simpl. destruct win; simpl; split; reflexivity.
Qed.

Lemma dictation_stop_stop : forall m, engine_state (stop (stop m)) = engine_state (stop m).
Proof.
  intros [init win [act lis cur fin conf lvl lang st words] acc out].
  unfold stop, engine_state. simpl. destruct win; simpl; reflexivity.
Qed.

End StreamingDictationProperties.

(* ================================================================== *)
(** * Stopping twice *)
(* ================================================================== *)

Module StopProperties.

(** C8.  For voice activation and for streaming dictation, [stop] on an
    engine that is already inactive leaves what the engine holds unchanged
    (the shared state, the manager, the pending timers; the session state):
    it only repeats the stop command to its hidden window, when there is
    one.  [stop] is a total function, so it raises nothing, and stopping
    twice leaves the engine as stopping once does. *)
Theorem stop_idempotent :
  (forall w : VoiceActivation.World,
      VoiceActivationProperties.inactive w ->
      VoiceActivation.engine_state (VoiceActivation.stop w)
      = VoiceActivation.engine_state w
      /\ VoiceActivation.outbox (VoiceActivation.stop w)
         = if VoiceActivation.voiceActivationWindow (VoiceActivation.manager w)
           then (VoiceActivation.outbox w ++ [VoiceActivation.voice_activation_stop])%list
           else VoiceActivation.outbox w)
  /\ (forall w : VoiceActivation.World,
         VoiceActivationProperties.inactive (VoiceActivation.stop w) \/
         VoiceActivation.isRecording (VoiceActivation.state w) = true)
  /\ (forall w : VoiceActivation.World,
         VoiceActivation.engine_state (VoiceActivation.stop (VoiceActivation.stop w))
         = VoiceActivation.engine_state (VoiceActivation.stop w))
  /\ (forall m : StreamingDictation.Manager,
         StreamingDictationProperties.inactive m ->
         StreamingDictation.engine_state (StreamingDictation.stop m)
         = StreamingDictation.engine_state m
         /\ StreamingDictation.outbox (StreamingDictation.stop m)
            = if StreamingDictation.recognitionWindow m
              then (StreamingDictation.outbox m
                      ++ [StreamingDictation.streaming_dictation_stop])%list
              else StreamingDictation.outbox m)
  /\ (forall m : StreamingDictation.Manager,
         StreamingDictationProperties.inactive (StreamingDictation.stop m))
  /\ (forall m : StreamingDictation.Manager,
         StreamingDictation.engine_state (StreamingDictation.stop (StreamingDictation.stop m))
         = StreamingDictation.engine_state (StreamingDictation.stop m)).
Proof.
  split; [exact VoiceActivationProperties.voice_stop_when_inactive |].
  split.
  { intros w.
    destruct (VoiceActivationProperties.voice_stop_inactive_after w) as [Hl Ht].
    destruct (VoiceActivation.isRecording (VoiceActivation.state w)) eqn:Hrec;
      [now right | left].
    repeat split; try assumption.
    destruct w as [[rec v] mgr tms nh pnl out]. simpl in Hrec. subst rec.
    destruct v as [en lis lvl tm rst].
    unfold VoiceActivation.stop. simpl.
    destruct tm; simpl; destruct (VoiceActivation.voiceActivationWindow mgr); reflexivity. }
  split; [exact VoiceActivationProperties.voice_stop_stop |].
  split; [exact StreamingDictationProperties.dictation_stop_when_inactive |].
  split; [exact StreamingDictationProperties.dictation_stop_inactive_after |].
  exact StreamingDictationProperties.dictation_stop_stop.
Qed.

(** Stopping an engine that was never started. *)
Lemma stop_idempotent_never_started :
  VoiceActivationProperties.inactive (VoiceActivation.initialized_world true)
  /\ VoiceActivation.engine_state
       (VoiceActivation.stop (VoiceActivation.initialized_world true))
     = VoiceActivation.engine_state (VoiceActivation.initialized_world true)
  /\ StreamingDictationProperties.inactive (StreamingDictation.initialized_manager true)
  /\ StreamingDictation.engine_state
       (StreamingDictation.stop (StreamingDictation.initialized_manager true))
     = StreamingDictation.engine_state (StreamingDictation.initialized_manager true).
Proof.
  assert (Hv : VoiceActivationProperties.inactive (VoiceActivation.initialized_world true))
    by (repeat split).
  assert (Hs : StreamingDictationProperties.inactive
                 (StreamingDictation.initialized_manager true))
    by (repeat split).
  split; [exact Hv |].
  split; [exact (proj1 (proj1 stop_idempotent _ Hv)) |].
  split; [exact Hs |].
  exact (proj1 (proj1 (proj2 (proj2 (proj2 stop_idempotent))) _ Hs)).
Defined.

End StopProperties.

(* ================================================================== *)
(** * The order of numbers *)
(* ================================================================== *)

Module FloatFacts.

Lemma SFltb_trans :
  forall a b c, SFltb a b = true -> SFltb b c = true -> SFltb a c = true.
Proof.
  unfold SFltb, SFcompare.
  intros [sa | sa | | sa ma ea] [sb | sb | | sb mb eb] [sc | sc | | sc mc ec];
    try destruct sa; try destruct sb; try destruct sc; simpl; try congruence;
    change (Pos.compare_cont Eq) with Pos.compare;
    destruct (Z.compare_spec ea eb); destruct (Z.compare_spec eb ec);
    destruct (Z.compare_spec ea ec); subst; simpl; try congruence; try lia;
    try (destruct (Pos.compare_spec ma mb); destruct (Pos.compare_spec mb mc);
         destruct (Pos.compare_spec ma mc); subst; simpl; try congruence; lia).
Qed.

Lemma SFltb_irrefl : forall a, SFltb a a = false.
Proof.
  unfold SFltb, SFcompare.
  intros [sa | sa | | sa ma ea]; try destruct sa; simpl; try reflexivity;
    rewrite Z.compare_refl; change (Pos.compare_cont Eq) with Pos.compare;
    rewrite Pos.compare_refl; reflexivity.
Qed.

(** [>] on numbers is transitive and irreflexive, NaN included. *)
Lemma gt_trans :
  forall a b c, JS.gt a b = true -> JS.gt b c = true -> JS.gt a c = true.
Proof.
  unfold JS.gt. intros a b c Hab Hbc.
  rewrite FloatAxioms.ltb_spec in Hab, Hbc |- *.
  eapply SFltb_trans; eauto.
Qed.

Lemma gt_irrefl : forall a, JS.gt a a = false.
Proof. unfold JS.gt. intros a. rewrite FloatAxioms.ltb_spec. apply SFltb_irrefl. Qed.

(** A fold that keeps the current element when its score is strictly
    greater ends on an element of the list that no element beats; it is the
    first element or beats it. *)
Lemma fold_argmax :
  forall (A : Type) (score : A -> float) (l : list A) (x : A),
    let best :=
      fold_left (fun best current =>
                   if JS.gt (score current) (score best) then current else best) l x in
    In best (x :: l) /\
    (best = x \/ JS.gt (score best) (score x) = true) /\
    forall y, In y (x :: l) -> JS.gt (score y) (score best) = false.
Proof.
  intros A score. induction l as [| a l IH]; intros x; simpl.
  - split; [now left |]. split; [now left |]. intros y [<- | []]. apply gt_irrefl.
  - specialize (IH (if JS.gt (score a) (score x) then a else x)).
    simpl in IH. destruct IH as [Hin [Hfirst Hmax]].
    set (best := fold_left _ l _) in *. clearbody best.
    destruct (JS.gt (score a) (score x)) eqn:E.
    + assert (Hbx : JS.gt (score best) (score x) = true).
      { destruct Hfirst as [-> | Hba]; [exact E | exact (gt_trans _ _ _ Hba E)]. }
      split; [destruct Hin as [-> | Hin]; [right; now left | right; now right] |].
      split; [now right |].
      intros y [<- | [<- | Hy]].
      * destruct (JS.gt (score x) (score best)) eqn:E'; [| reflexivity].
        pose proof (gt_trans _ _ _ E' Hbx) as Hbad.
        rewrite gt_irrefl in Hbad. discriminate.
      * apply Hmax. now left.
      * apply Hmax. now right.
    + split; [destruct Hin as [-> | Hin]; [now left | right; now right] |].
      split; [exact Hfirst |].
      intros y [<- | [<- | Hy]].
      * apply Hmax. now left.
      * destruct (JS.gt (score a) (score best)) eqn:E'; [| reflexivity].
        destruct Hfirst as [Heq | Hbx].
        -- rewrite Heq in E'. congruence.
        -- pose proof (gt_trans _ _ _ E' Hbx) as Hbad. congruence.
      * apply Hmax. now right.
Qed.

End FloatFacts.

(* ================================================================== *)
(** * More properties of the fusion module and of its callers *)
(* ================================================================== *)

Module FusionMoreProperties.

Import Fusion FusionCallers FusionProperties.

(** ** The results of the provider calls *)

Lemma estimateConfidence_range :
  forall transcript p processingTime,
    in_confidence_range (estimateConfidence transcript p processingTime).
Proof.
  intros transcript p processingTime. unfold estimateConfidence.
  apply (clamp_of_adjusted_base (baseConfidence_table p)
           (50 <? String.length transcript)%nat
           (String.length transcript <? 5)%nat
           (processingTime <? 1000)%Z
           (10000 <? processingTime)%Z).
  destruct p; simpl; auto.
Qed.

Lemma processProviders_In :
  forall net g ps i r,
    In r (processProvidersParallel_from net g i ps) ->
    exists j p, In p ps /\ r = processProvider net g j p.
Proof.
  induction ps as [| p ps IH]; intros i r Hin; simpl in Hin; [contradiction |].
  destruct Hin as [<- | Hin].
  - exists i, p. split; [now left | reflexivity].
  - destruct (IH _ _ Hin) as [j [q [Hq Hr]]]. exists j, q. split; [now right | exact Hr].
Qed.

Lemma processProvider_provider :
  forall net g i p, provider (processProvider net g i p) = p.
Proof.
  intros net g i p. unfold processProvider.
  destruct (transcribeWithProvider g p (fetch net i p)); reflexivity.
Qed.

Lemma processProviders_providers :
  forall net g ps i, map provider (processProvidersParallel_from net g i ps) = ps.
Proof.
  induction ps as [| p ps IH]; intros i; simpl; [reflexivity |].
  now rewrite processProvider_provider, IH.
Qed.

(** Every result of a provider call is of one of two shapes.  A success
    carries no error and a confidence between 0.1 and 0.99; a failure
    carries the message of its error, the empty transcript and the
    confidence 0.  Either way it names a configured provider. *)
Theorem settled_results_shape :
  forall (net : Network) (g : GlobalConfig) (config : FusionConfig)
         (r : TranscriptionResult),
    In r (settledResults net g config) ->
    In (provider r) (providers config)
    /\ ((success r = true /\ error r = None
         /\ PrimFloat.leb 0.1 (confidence r) = true
         /\ PrimFloat.leb (confidence r) 0.99 = true)
        \/ (success r = false /\ transcript r = ""%string
            /\ confidence r = 0%float
            /\ exists message, error r = Some message)).
Proof.
  intros net g config r Hin. unfold settledResults, processProvidersParallel in Hin.
  apply processProviders_In in Hin. destruct Hin as [j [p [Hp ->]]].
  split; [now rewrite processProvider_provider |].
  unfold processProvider.
  destruct (transcribeWithProvider g p (fetch net j p)) as [text | message]; simpl.
  - left. destruct (estimateConfidence_range text p (elapsed net j p)) as [Hlo Hhi].
    repeat split; assumption.
  - right. repeat split. now exists message.
Qed.

Lemma settled_results_shape_example :
  In (processProvider two_of_three_fail both_keys 1 groq)
     (settledResults two_of_three_fail both_keys three_providers_two_required)
  /\ success (processProvider two_of_three_fail both_keys 1 groq) = false
  /\ error (processProvider two_of_three_fail both_keys 1 groq)
     = Some "Service Unavailable: "%string.
Proof.
  assert (Hin : In (processProvider two_of_three_fail both_keys 1 groq)
                  (settledResults two_of_three_fail both_keys
                     three_providers_two_required))
    by (right; left; reflexivity).
  split; [exact Hin |].
  destruct (settled_results_shape _ _ _ _ Hin) as [_ [[Hs _] | [Hs _]]].
  - vm_compute in Hs. discriminate.
  - split; [exact Hs | reflexivity].
Defined.

(** What a returned [FusionResult] holds: one result per configured
    provider, in the order of the configuration; as [providersUsed] the
    providers of the successful results, at least [minProvidersRequired]
    of them; the strategy of the configuration. *)
Theorem fusionTranscribe_bookkeeping :
  forall (net : Network) (g : GlobalConfig) (clock : Z) (config : FusionConfig)
         (r : FusionResult),
    fusionTranscribe net g clock config = Returned r ->
    map provider (results r) = providers config
    /\ providersUsed r = map provider (filter success (results r))
    /\ (minProvidersRequired config <= Z.of_nat (List.length (providersUsed r)))%Z
    /\ usedStrategy r = strategy config
    /\ totalProcessingTime r = clock.
Proof.
  intros net g clock config r. unfold fusionTranscribe.
  assert (Hsame :
    (if enableParallel config
     then processProvidersParallel net g (providers config)
     else processProvidersSequential net g (providers config))
    = processProvidersParallel net g (providers config)).
  { destruct (enableParallel config);
      [reflexivity | apply processProvidersSequential_parallel]. }
  rewrite Hsame. clear Hsame.
  set (rs := processProvidersParallel net g (providers config)).
  destruct (Z.ltb_spec (Z.of_nat (List.length (filter success rs)))
              (minProvidersRequired config)) as [Hlt | Hge]; [discriminate |].
  destruct (applyFusionStrategy (filter success rs) (strategy config) config);
    [| discriminate].
  intros Hr. inversion Hr; subst r; simpl.
  split; [apply processProviders_providers |].
  split; [reflexivity |].
  split; [now rewrite length_map |].
  split; reflexivity.
Qed.

(** Both providers answer: a result is returned. *)
Definition both_answer : Network :=
  mkNetwork
    (fun i _ => match i with
                | O => Responded "Hello world"
                | _ => Responded "hello world"
                end)
    (fun _ _ => 1500%Z).

Definition two_providers (s : FusionStrategy) (minimum : Z) : FusionConfig :=
  mkFusionConfig true s [openai; groq] (Some openai) 30000 minimum 0.7%float true
    (fun _ => None).

Lemma fusionTranscribe_bookkeeping_example :
  (exists r, fusionTranscribe both_answer both_keys 1600 (two_providers consensus 1)
             = Returned r
             /\ providersUsed r = [openai; groq]
             /\ finalTranscript r = "hello world"%string).
Proof.
  destruct (fusionTranscribe both_answer both_keys 1600 (two_providers consensus 1))
    as [r |] eqn:E; [| vm_compute in E; discriminate].
  exists r. split; [reflexivity |].
  destruct (fusionTranscribe_bookkeeping _ _ _ _ _ E) as [_ [Hused _]].
  split.
  - rewrite Hused. vm_compute in E. inversion E. reflexivity.
  - vm_compute in E. inversion E. reflexivity.
Defined.

(** ** Keys, and the test of the configuration *)

Definition has_key (g : GlobalConfig) (p : STT_PROVIDER_ID) : bool :=
  truthy_key (apiKey_of g p).

Lemma processProvider_without_key :
  forall net g i p,
    has_key g p = false -> success (processProvider net g i p) = false.
Proof.
  intros net g i p Hkey. unfold processProvider, transcribeWithProvider.
  unfold has_key in Hkey. now rewrite Hkey.
Qed.

Lemma successes_need_keys :
  forall net g ps i,
    List.length (filter success (processProvidersParallel_from net g i ps))
    <= List.length (filter (has_key g) ps).
Proof.
  induction ps as [| p ps IH]; intros i; simpl; [lia |].
  specialize (IH (S i)).
  destruct (has_key g p) eqn:Hkey.
  - destruct (success (processProvider net g i p)); simpl; lia.
  - rewrite (processProvider_without_key net g i p Hkey). exact IH.
Qed.

Lemma testProvider_fold :
  forall g ps available errors,
    fold_left (testProvider g) ps (available, errors)
    = ((available ++ filter (has_key g) ps)%list,
       (errors ++ map (fun p => (provider_name p ++ ": API key not configured")%string)
                    (filter (fun p => negb (has_key g p)) ps))%list).
Proof.
  induction ps as [| p ps IH]; intros available errors; simpl.
  - now rewrite !app_nil_r.
  - unfold testProvider at 2. simpl.
    assert (Hkey : match p with
                   | openai => truthy_key (openaiApiKey g)
                   | groq => truthy_key (groqApiKey g)
                   end = has_key g p) by (destruct p; reflexivity).
    rewrite Hkey. destruct (has_key g p); simpl; rewrite IH, <- app_assoc; reflexivity.
Qed.

(** [testFusionConfiguration] lists as available the configured providers
    whose key is set, and one error line for each of the others.  When it
    reports failure, [fusionTranscribe] raises its aggregate error whatever
    the network answers: a provider without a key always fails. *)
Theorem testFusionConfiguration_failure_is_final :
  forall (g : GlobalConfig) (config : FusionConfig),
    availableProviders (testFusionConfiguration g config)
    = filter (has_key g) (providers config)
    /\ List.length (availableProviders (testFusionConfiguration g config))
       + List.length (test_errors (testFusionConfiguration g config))
       = List.length (providers config)
    /\ (test_success (testFusionConfiguration g config) = false ->
        forall (net : Network) (clock : Z),
          exists succeeded,
            fusionTranscribe net g clock config
            = Threw (FusionFailed succeeded (minProvidersRequired config))).
Proof.
  intros g config. unfold testFusionConfiguration.
  rewrite testProvider_fold. simpl.
  split; [reflexivity |]. split.
  - rewrite length_map.
    induction (providers config) as [| p ps IH]; simpl; [reflexivity |].
    destruct (has_key g p); simpl; lia.
  - intros Hfail net clock.
    apply Z.leb_gt in Hfail.
    pose proof (successes_need_keys net g (providers config) 0) as Hle.
    exists (List.length (filter success (settledResults net g config))).
    unfold fusionTranscribe, settledResults, processProvidersParallel.
    assert (Hsame :
      (if enableParallel config
       then processProvidersParallel_from net g 0 (providers config)
       else processProvidersSequential net g (providers config))
      = processProvidersParallel_from net g 0 (providers config)).
    { destruct (enableParallel config);
        [reflexivity | apply processProvidersSequential_parallel]. }
    unfold processProvidersParallel in *. rewrite Hsame.
    destruct (Z.ltb_spec
                (Z.of_nat (List.length
                             (filter success
                                (processProvidersParallel_from net g 0 (providers config)))))
                (minProvidersRequired config)) as [Hlt | Hge]; [reflexivity | lia].
Qed.

Definition only_openai_key : GlobalConfig := mkGlobalConfig (Some "sk-1"%string) None.

Lemma testFusionConfiguration_one_key_of_two :
  test_success (testFusionConfiguration only_openai_key (two_providers majority_vote 2))
  = false
  /\ test_errors (testFusionConfiguration only_openai_key (two_providers majority_vote 2))
     = ["groq: API key not configured"%string]
  /\ fusionTranscribe both_answer only_openai_key 1600 (two_providers majority_vote 2)
     = Threw (FusionFailed 1 2).
Proof.
  assert (Hfail : test_success
                    (testFusionConfiguration only_openai_key
                       (two_providers majority_vote 2)) = false) by reflexivity.
  split; [exact Hfail |]. split; [reflexivity |].
  destruct (proj2 (proj2 (testFusionConfiguration_failure_is_final only_openai_key
                            (two_providers majority_vote 2))) Hfail both_answer 1600%Z)
    as [n Hn].
  rewrite Hn. vm_compute in Hn. inversion Hn. reflexivity.
Defined.

(** ** When the call returns *)

(** [fusionTranscribe] returns a result exactly when enough providers have
    succeeded, one case apart: with the strategy best-confidence and not a
    single success (which takes [minProvidersRequired] of zero or less) the
    [reduce] over the empty array raises a TypeError.  No other error is
    raised. *)
Theorem fusionTranscribe_outcome :
  forall (net : Network) (g : GlobalConfig) (clock : Z) (config : FusionConfig),
    let succeeded := List.length (filter success (settledResults net g config)) in
    ((Z.of_nat succeeded < minProvidersRequired config)%Z ->
     fusionTranscribe net g clock config
     = Threw (FusionFailed succeeded (minProvidersRequired config)))
    /\ ((minProvidersRequired config <= Z.of_nat succeeded)%Z ->
        strategy config = best_confidence -> succeeded = 0 ->
        fusionTranscribe net g clock config = Threw TypeError_reduce_of_empty_array)
    /\ ((minProvidersRequired config <= Z.of_nat succeeded)%Z ->
        (strategy config <> best_confidence \/ 0 < succeeded) ->
        exists r, fusionTranscribe net g clock config = Returned r).
Proof.
  intros net g clock config succeeded. subst succeeded.
  unfold fusionTranscribe, settledResults.
  assert (Hsame :
    (if enableParallel config
     then processProvidersParallel net g (providers config)
     else processProvidersSequential net g (providers config))
    = processProvidersParallel net g (providers config)).
  { destruct (enableParallel config);
      [reflexivity | apply processProvidersSequential_parallel]. }
  rewrite Hsame. clear Hsame.
  set (rs := filter success (processProvidersParallel net g (providers config))).
  split; [| split].
  - intros Hlt. apply Z.ltb_lt in Hlt. now rewrite Hlt.
  - intros Hge Hs Hzero. apply Z.ltb_ge in Hge. rewrite Hge, Hs.
    destruct rs; [reflexivity | discriminate].
  - intros Hge Hcase. apply Z.ltb_ge in Hge. rewrite Hge.
    destruct (strategy config) eqn:Hs; simpl; try (eexists; reflexivity).
    destruct Hcase as [Hne | Hpos]; [congruence |].
    destruct rs; simpl in *; [lia | eexists; reflexivity].
    + destruct (find _ rs) as [r |].
      * destruct (JS.ge (confidence r) (confidenceThreshold config));
          [eexists; reflexivity |].
        destruct (filter _ rs); eexists; reflexivity.
      * destruct (filter _ rs); eexists; reflexivity.
Qed.

Definition none_answers : Network :=
  mkNetwork (fun _ _ => NoAnswerInTime) (fun _ _ => 30000%Z).

Lemma fusionTranscribe_outcome_nothing_required :
  fusionTranscribe none_answers both_keys 30100 (two_providers best_confidence 0)
  = Threw TypeError_reduce_of_empty_array
  /\ (exists r,
         fusionTranscribe none_answers both_keys 30100 (two_providers majority_vote 0)
         = Returned r).
Proof.
  split.
  - apply (proj1 (proj2 (fusionTranscribe_outcome none_answers both_keys 30100%Z
                           (two_providers best_confidence 0))));
      [vm_compute; discriminate | reflexivity | reflexivity].
  - apply (proj2 (proj2 (fusionTranscribe_outcome none_answers both_keys 30100%Z
                           (two_providers majority_vote 0))));
      [vm_compute; discriminate | left; discriminate].
Defined.

(** ** The strategies that select one result *)

(** Best-confidence returns the transcript of a successful result that no
    result beats in confidence. *)
Theorem best_confidence_argmax :
  forall (rs : list TranscriptionResult) (config : FusionConfig),
    rs <> [] ->
    exists best,
      In best rs
      /\ applyFusionStrategy rs best_confidence config = Returned (transcript best)
      /\ forall r, In r rs -> JS.gt (confidence r) (confidence best) = false.
Proof.
  intros [| first rest] config Hne; [congruence |]. simpl.
  destruct (FloatFacts.fold_argmax TranscriptionResult confidence rest first)
    as [Hin [_ Hmax]].
  exists (fold_left moreConfident rest first). repeat split; assumption.
Qed.

Definition scored (t : string) (c : float) : TranscriptionResult :=
  mkTranscriptionResult openai t c 1500 true None.

Lemma best_confidence_argmax_example :
  [scored "six" 0.6; scored "nine" 0.9; scored "three" 0.3] <> []
  /\ applyFusionStrategy [scored "six" 0.6; scored "nine" 0.9; scored "three" 0.3]
       best_confidence (two_providers best_confidence 1)
     = Returned "nine"%string.
Proof.
  split; [discriminate |].
  destruct (best_confidence_argmax
              [scored "six" 0.6; scored "nine" 0.9; scored "three" 0.3]
              (two_providers best_confidence 1)) as [best [_ [Hbest _]]];
    [discriminate |].
  rewrite Hbest. f_equal. vm_compute in Hbest. inversion Hbest as [Hnine].
  symmetry. exact Hnine.
Defined.

(** The weight of a result under weighted-average: the weight of its
    provider, or 1 when that is unset, zero or NaN, times its confidence. *)
Definition totalWeight (weights : STT_PROVIDER_ID -> option float)
    (r : TranscriptionResult) : float :=
  (JS.number_or (weights (provider r)) 1.0 * confidence r)%float.

(** Weighted-average, for two or more results, returns the transcript of a
    result that no result beats in weight.  A provider weight of zero does
    not silence a provider: its results weigh as their confidence times 1. *)
Theorem weighted_average_argmax :
  forall (rs : list TranscriptionResult) (weights : STT_PROVIDER_ID -> option float),
    2 <= List.length rs ->
    (exists best,
        In best rs
        /\ combineWeightedAverage rs weights = transcript best
        /\ forall r, In r rs ->
                     JS.gt (totalWeight weights r) (totalWeight weights best) = false)
    /\ forall r, weights (provider r) = Some 0%float ->
                 totalWeight weights r = (1.0 * confidence r)%float.
Proof.
  intros rs weights Hlen. split.
  - destruct rs as [| first [| second rest]]; simpl in Hlen; try lia.
    destruct (FloatFacts.fold_argmax TranscriptionResult (totalWeight weights)
                (second :: rest) first) as [Hin [_ Hmax]].
    eexists. split; [exact Hin |]. split; [reflexivity | exact Hmax].
  - intros r Hzero. unfold totalWeight. rewrite Hzero. reflexivity.
Qed.

Lemma weighted_average_argmax_example :
  2 <= List.length [scored "six" 0.6; scored "nine" 0.9]
  /\ combineWeightedAverage [scored "six" 0.6; scored "nine" 0.9]
       (fun p => match p with openai => Some 0%float | groq => Some 0.9%float end)
     = "nine"%string.
Proof.
  assert (Hlen : 2 <= List.length [scored "six" 0.6; scored "nine" 0.9])
    by (simpl; lia).
  split; [exact Hlen |].
  destruct (proj1 (weighted_average_argmax [scored "six" 0.6; scored "nine" 0.9]
                     (fun p => match p with
                               | openai => Some 0%float
                               | groq => Some 0.9%float
                               end) Hlen)) as [best [_ [Hbest _]]].
  rewrite Hbest. vm_compute in Hbest. exact (eq_sym Hbest).
Defined.

Lemma provider_eqb_eq : forall a b, provider_eqb a b = true <-> a = b.
Proof. intros [] []; simpl; split; congruence. Qed.

(** Primary-fallback with a primary provider set, on at least one result.
    The transcript returned is that of the first result of the primary
    provider when its confidence reaches the threshold, or when no other
    provider has a result; otherwise it is that of a result of another
    provider that no other such result beats in confidence. *)
Theorem primary_fallback_choice :
  forall (rs : list TranscriptionResult) (config : FusionConfig) (p : STT_PROVIDER_ID),
    primaryProvider config = Some p ->
    rs <> [] ->
    exists chosen,
      In chosen rs
      /\ applyFusionStrategy rs primary_fallback config = Returned (transcript chosen)
      /\ ((find (fun r => provider_eqb (provider r) p) rs = Some chosen
           /\ (JS.ge (confidence chosen) (confidenceThreshold config) = true
               \/ forall r, In r rs -> provider r = p))
          \/ (provider chosen <> p
              /\ (forall first,
                     find (fun r => provider_eqb (provider r) p) rs = Some first ->
                     JS.ge (confidence first) (confidenceThreshold config) = false)
              /\ forall r, In r rs -> provider r <> p ->
                           JS.gt (confidence r) (confidence chosen) = false)).
Proof.
  intros rs config p Hp Hne. simpl. rewrite Hp.
  set (others := filter _ rs).
  assert (Hothers : forall r, In r others <-> In r rs /\ provider r <> p).
  { intros r. unfold others. rewrite filter_In.
    destruct (provider_eqb (provider r) p) eqn:E; simpl.
    - apply provider_eqb_eq in E. split; [intros [_ H]; discriminate | tauto].
    - split; [| tauto]. intros [Hin _]. split; [exact Hin |].
      intros Heq. apply provider_eqb_eq in Heq. congruence. }
  clearbody others.
  assert (Hfallback : forall first rest,
             others = first :: rest ->
             In (fold_left moreConfident rest first) rs
             /\ provider (fold_left moreConfident rest first) <> p
             /\ forall r, In r rs -> provider r <> p ->
                          JS.gt (confidence r)
                            (confidence (fold_left moreConfident rest first)) = false).
  { intros first rest Hf.
    destruct (FloatFacts.fold_argmax TranscriptionResult confidence rest first)
      as [Hin [_ Hmax]].
    fold moreConfident in Hin, Hmax. rewrite <- Hf in Hin, Hmax.
    apply Hothers in Hin. destruct Hin as [Hin Hprov].
    split; [exact Hin |]. split; [exact Hprov |].
    intros r Hr Hrp. apply Hmax. apply Hothers. auto. }
  destruct (find (fun r => provider_eqb (provider r) p) rs) as [r0 |] eqn:Hfind.
  - pose proof (find_some _ _ Hfind) as [Hin0 Hprim0].
    destruct (JS.ge (confidence r0) (confidenceThreshold config)) eqn:Hconf.
    + exists r0. split; [exact Hin0 |]. split; [reflexivity |].
      left. split; [reflexivity | now left].
    + destruct others as [| first rest] eqn:Hf.
      * exists r0. split; [exact Hin0 |]. split; [reflexivity |].
        left. split; [reflexivity |]. right.
        intros r Hr. destruct (provider_eqb (provider r) p) eqn:E;
          [now apply provider_eqb_eq |].
        exfalso. assert (Hin : In r []).
        { apply Hothers. split; [exact Hr |]. intros Heq.
          apply provider_eqb_eq in Heq. congruence. }
        inversion Hin.
      * destruct (Hfallback first rest eq_refl) as [Hin [Hprov Hmax]].
        eexists. split; [exact Hin |]. split; [reflexivity |]. right.
        split; [exact Hprov |]. split; [| exact Hmax].
        intros first' Hfirst'. inversion Hfirst'; subst. exact Hconf.
  - destruct others as [| first rest] eqn:Hf.
    + exfalso. destruct rs as [| r rs']; [congruence |].
      pose proof (find_none _ _ Hfind r (or_introl eq_refl)) as Hnot.
      simpl in Hnot.
      assert (Hin : In r []).
      { apply Hothers. split; [now left |]. intros Heq.
        apply provider_eqb_eq in Heq. congruence. }
      inversion Hin.
    + destruct (Hfallback first rest eq_refl) as [Hin [Hprov Hmax]].
      eexists. split; [exact Hin |]. split; [reflexivity |]. right.
      split; [exact Hprov |]. split; [| exact Hmax].
      intros first' Hfirst'. discriminate.
Qed.

Lemma primary_fallback_choice_example :
  primaryProvider (two_providers primary_fallback 1) = Some openai
  /\ [scored "primary" 0.5; mkTranscriptionResult groq "other" 0.6 1500 true None] <> []
  /\ applyFusionStrategy
       [scored "primary" 0.5; mkTranscriptionResult groq "other" 0.6 1500 true None]
       primary_fallback (two_providers primary_fallback 1)
     = Returned "other"%string.
Proof.
  split; [reflexivity |]. split; [discriminate |].
  destruct (primary_fallback_choice
              [scored "primary" 0.5; mkTranscriptionResult groq "other" 0.6 1500 true None]
              (two_providers primary_fallback 1) openai eq_refl)
    as [chosen [_ [Hchosen _]]]; [discriminate |].
  rewrite Hchosen. f_equal. vm_compute in Hchosen. inversion Hchosen as [Hother].
  symmetry. exact Hother.
Defined.

(** ** Consensus *)

(** The entry that [reduce] picks from a tally is a text seen, with at least
    as many occurrences as any text. *)
Lemma reduce_tally_plurality :
  forall ts : list string,
    ts <> [] ->
    exists entry,
      JS.reduce moreVotes (fold_left tally_step ts []) = Some entry
      /\ In (fst entry) ts
      /\ forall t, count_occ string_dec ts t <= count_occ string_dec ts (fst entry).
Proof.
  intros ts Hne.
  assert (Ht : tallies (fold_left tally_step ts []) ts).
  { apply (fold_tally_tallies ts [] []). split; [constructor | reflexivity]. }
  destruct (fold_left tally_step ts []) as [| first rest] eqn:E.
  - exfalso. destruct ts as [| t ts']; [congruence |].
    apply (tallies_seen [] (t :: ts') t Ht). now left.
  - simpl.
    destruct (JSFacts.fold_largest (string * nat) (@snd string nat) rest first)
      as [Hin Hmax].
    fold (@moreVotes string) in Hin, Hmax.
    set (best := fold_left moreVotes rest first) in *. clearbody best.
    exists best. split; [reflexivity |].
    destruct (tallies_entry _ _ (fst best) (snd best) Ht) as [Hn Hseen].
    { now rewrite <- surjective_pairing. }
    split; [exact Hseen |].
    intros t. rewrite <- Hn.
    destruct (in_dec string_dec t ts) as [Hin' | Hout].
    + apply (Hmax (t, count_occ string_dec ts t)). now apply tallies_seen.
    + apply (count_occ_not_In string_dec) in Hout. rewrite Hout. lia.
Qed.

(** Consensus on two or more results.  When no result reaches the
    threshold, the transcript of a result that none beats in confidence is
    returned as it is.  Otherwise the transcript returned is the trimmed
    lower case of a result that reaches the threshold, and among the results
    that reach it no normalized transcript occurs more often. *)
Theorem consensus_choice :
  forall (rs : list TranscriptionResult) (threshold : float),
    2 <= List.length rs ->
    let reaches := fun r => JS.ge (confidence r) threshold in
    let normalized := fun r => JS.trim (JS.toLowerCase (transcript r)) in
    (filter reaches rs = [] ->
     exists best,
       In best rs /\ combineConsensus rs threshold = transcript best
       /\ forall r, In r rs -> JS.gt (confidence r) (confidence best) = false)
    /\ (filter reaches rs <> [] ->
        exists chosen,
          In chosen rs /\ reaches chosen = true
          /\ combineConsensus rs threshold = normalized chosen
          /\ forall r, In r rs -> reaches r = true ->
               count_occ string_dec (map normalized (filter reaches rs)) (normalized r)
               <= count_occ string_dec (map normalized (filter reaches rs))
                    (normalized chosen)).
Proof.
  intros rs threshold Hlen reaches normalized.
  destruct rs as [| first [| second rest]]; simpl in Hlen; try lia.
  unfold combineConsensus. fold reaches.
  set (rs := first :: second :: rest) in *.
  split.
  - intros Hnone. rewrite Hnone.
    destruct (FloatFacts.fold_argmax TranscriptionResult confidence
                (second :: rest) first) as [Hin [_ Hmax]].
    eexists. split; [exact Hin |]. split; [reflexivity | exact Hmax].
  - intros Hsome.
    destruct (filter reaches rs) as [| h high] eqn:Hhigh; [congruence |].
    destruct (reduce_tally_plurality (map normalized (h :: high)))
      as [entry [Hentry [Hin Hmax]]]; [discriminate |].
    change (countTranscripts (map (fun r => JS.trim (JS.toLowerCase (transcript r)))
                                (h :: high)))
      with (fold_left tally_step (map normalized (h :: high)) []).
    rewrite Hentry.
    apply in_map_iff in Hin. destruct Hin as [chosen [Hnorm Hchosen]].
    rewrite <- Hhigh in Hchosen. apply filter_In in Hchosen.
    destruct Hchosen as [Hin Hreach].
    exists chosen. split; [exact Hin |]. split; [exact Hreach |].
    split; [now rewrite Hnorm |].
    intros r _ _. rewrite Hnorm. apply Hmax.
Qed.

Lemma consensus_choice_example :
  2 <= List.length [scored "Hello World " 0.9; scored "hello world" 0.8;
                    scored "help" 0.95; scored "yellow" 0.3]
  /\ combineConsensus [scored "Hello World " 0.9; scored "hello world" 0.8;
                       scored "help" 0.95; scored "yellow" 0.3] 0.7
     = "hello world"%string.
Proof.
  assert (Hlen : 2 <= List.length [scored "Hello World " 0.9; scored "hello world" 0.8;
                                   scored "help" 0.95; scored "yellow" 0.3])
    by (simpl; lia).
  split; [exact Hlen |].
  destruct (proj2 (consensus_choice _ 0.7 Hlen)) as [chosen [_ [_ [Hchosen _]]]].
  - vm_compute. discriminate.
  - rewrite Hchosen. vm_compute in Hchosen. symmetry. exact Hchosen.
Defined.

(** ** The recording pipeline *)

(** The transcript [createRecording] works with.  When fusion is requested
    and enabled and [fusionTranscribe] returns, it is the fused transcript
    of that result, and the single-provider request plays no part.  In
    every other case it is the outcome of the single-provider request: when
    fusion is not requested, not configured or not enabled, and when
    [fusionTranscribe] raises, whatever the error, which is then never
    shown; in particular whenever fewer providers succeed than are
    required. *)
Theorem originalTranscript_fallback :
  forall (useFusion : bool) (fusionTranscription : option FusionConfig)
         (net : Network) (g : GlobalConfig) (clock : Z) (single : SingleOutcome),
    (forall config r,
        fusionTranscription = Some config ->
        useFusion = true -> enabled config = true ->
        fusionTranscribe net g clock config = Returned r ->
        originalTranscript useFusion fusionTranscription net g clock single
        = SingleText (finalTranscript r))
    /\ (forall config e,
           fusionTranscription = Some config ->
           fusionTranscribe net g clock config = Threw e ->
           originalTranscript useFusion fusionTranscription net g clock single = single)
    /\ (useFusion = false ->
        originalTranscript useFusion fusionTranscription net g clock single = single)
    /\ (fusionTranscription = None ->
        originalTranscript useFusion fusionTranscription net g clock single = single)
    /\ (forall config,
           fusionTranscription = Some config -> enabled config = false ->
           originalTranscript useFusion fusionTranscription net g clock single = single)
    /\ (forall config,
           fusionTranscription = Some config ->
           (Z.of_nat (List.length (filter success (settledResults net g config)))
            < minProvidersRequired config)%Z ->
           originalTranscript useFusion fusionTranscription net g clock single = single).
Proof.
  intros useFusion fusionTranscription net g clock single.
  assert (Hthrew : forall config e,
             fusionTranscription = Some config ->
             fusionTranscribe net g clock config = Threw e ->
             originalTranscript useFusion fusionTranscription net g clock single
             = single).
  { intros config e -> He. unfold originalTranscript. rewrite He.
    destruct (useFusion && enabled config); reflexivity. }
  split; [| split; [exact Hthrew | split; [| split; [| split]]]].
  - intros config r -> -> Hen Hr. unfold originalTranscript.
    rewrite Hen, Hr. reflexivity.
  - intros ->. unfold originalTranscript.
    destruct fusionTranscription; reflexivity.
  - intros ->. reflexivity.
  - intros config -> Hoff. unfold originalTranscript. rewrite Hoff.
    now rewrite andb_false_r.
  - intros config Hsome Hfew.
    assert (Hraise : exists e, fusionTranscribe net g clock config = Threw e).
    { unfold fusionTranscribe, settledResults in *.
      assert (Hsame :
        (if enableParallel config
         then processProvidersParallel net g (providers config)
         else processProvidersSequential net g (providers config))
        = processProvidersParallel net g (providers config)).
      { destruct (enableParallel config);
          [reflexivity | apply processProvidersSequential_parallel]. }
      rewrite Hsame. apply Z.ltb_lt in Hfew. rewrite Hfew. eexists. reflexivity. }
    destruct Hraise as [e He]. exact (Hthrew config e Hsome He).
Qed.

(** Both providers answer and the fused transcript replaces what the single
    provider gave; two of three fail and the single provider's outcome is
    kept. *)
Lemma originalTranscript_fallback_example :
  originalTranscript true (Some (two_providers consensus 1)) both_answer both_keys 1600
    (SingleText "from one provider")
  = SingleText "hello world"
  /\ (Z.of_nat (List.length
                  (filter success (settledResults two_of_three_fail both_keys
                                     three_providers_two_required)))
      < minProvidersRequired three_providers_two_required)%Z
  /\ originalTranscript true (Some three_providers_two_required) two_of_three_fail
       both_keys 1600 (SingleText "from one provider")
     = SingleText "from one provider".
Proof.
  assert (Hfew : (Z.of_nat (List.length
                    (filter success (settledResults two_of_three_fail both_keys
                                       three_providers_two_required)))
                  < minProvidersRequired three_providers_two_required)%Z)
    by (vm_compute; reflexivity).
  split; [| split; [exact Hfew |]].
  - destruct (fusionTranscribe both_answer both_keys 1600 (two_providers consensus 1))
      as [r | e] eqn:Hr; [| vm_compute in Hr; discriminate].
    rewrite (proj1 (originalTranscript_fallback true (Some (two_providers consensus 1))
                      both_answer both_keys 1600%Z (SingleText "from one provider"))
               (two_providers consensus 1) r eq_refl eq_refl eq_refl Hr).
    vm_compute in Hr. inversion Hr as [H]. reflexivity.
  - exact (proj2 (proj2 (proj2 (proj2 (proj2
             (originalTranscript_fallback true (Some three_providers_two_required)
                two_of_three_fail both_keys 1600%Z (SingleText "from one provider"))))))
             three_providers_two_required eq_refl Hfew).
Defined.

End FusionMoreProperties.

(* ================================================================== *)
(** * Properties around rule matching *)
(* ================================================================== *)

Module AppDetectorStateProperties.

Import AppDetector AppDetectorState AppDetectorProperties.

Local Open Scope string_scope.

(** ** Polling the active application *)

Section WithEngine.

Context {engine : RegExp.Engine}.

(** A run of polls under one configuration; each poll detects an
    application or nothing. *)
Definition poll_all (config : RulesConfig) (polls : list (option ActiveAppInfo))
    (st : AppState) : AppState :=
  fold_left (fun st detected => updateActiveApplication detected config st) polls st.

Lemma findMatchingRule_raises :
  forall appInfo rules rule,
    In rule rules -> enabled rule = true ->
    ruleMatches appInfo rule = ThrewSyntaxError ->
    findMatchingRule appInfo rules = ThrewSyntaxError.
Proof.
  intros appInfo rules rule Hin Hen Hraise.
  rewrite findMatchingRule_spec.
  assert (Hex : existsb (raises appInfo) (filter enabled rules) = true).
  { apply existsb_exists. exists rule. split; [apply filter_In; auto |].
    unfold raises. now rewrite Hraise. }
  now rewrite Hex.
Qed.

(** One enabled rule whose pattern is not a regular expression freezes the
    active rule: as long as the rules are switched on and hold it, every
    poll records the application it detects and none changes
    [state.activeRule], since the error is caught after the first
    assignment. *)
Theorem broken_rule_freezes_active_rule :
  forall (rules : list AppRule) (broken : AppRule)
         (polls : list (option ActiveAppInfo)) (st : AppState),
    In broken rules ->
    enabled broken = true ->
    (forall appInfo, In (Some appInfo) polls ->
                     ruleMatches appInfo broken = ThrewSyntaxError) ->
    activeRule (poll_all (mkRulesConfig (Some true) (Some rules)) polls st)
    = activeRule st
    /\ forall appInfo earlier,
         polls = (earlier ++ [Some appInfo])%list ->
         activeApp (poll_all (mkRulesConfig (Some true) (Some rules)) polls st) = appInfo.
Proof.
  intros rules broken polls st Hin Hen Hraise.
  assert (Hstep : forall detected st0,
             In detected polls ->
             activeRule (updateActiveApplication detected
                           (mkRulesConfig (Some true) (Some rules)) st0)
             = activeRule st0).
  { intros [appInfo |] st0 Hd; simpl; [| reflexivity].
    now rewrite (findMatchingRule_raises appInfo rules broken Hin Hen (Hraise _ Hd)). }
  split.
  - unfold poll_all. clear Hraise. revert st.
    induction polls as [| d polls IH]; intros st; simpl; [reflexivity |].
    rewrite IH.
    + apply Hstep. now left.
    + intros detected st0 Hd. apply Hstep. now right.
  - intros appInfo earlier ->. unfold poll_all. rewrite fold_left_app. simpl.
    rewrite (findMatchingRule_raises appInfo rules broken Hin Hen); [reflexivity |].
    apply Hraise. apply in_or_app. right. now left.
Qed.

(** [testAppRule] on a disabled rule answers false whatever its patterns,
    without raising; on an enabled rule it answers what the matching of the
    rule against the detected application gives, or raises with it; with no
    application detected it answers false. *)
Theorem testAppRule_answer :
  forall (detected : option ActiveAppInfo) (rule : AppRule),
    (enabled rule = false -> testAppRule detected rule = Returned false)
    /\ (detected = None -> testAppRule detected rule = Returned false)
    /\ (forall appInfo,
           detected = Some appInfo -> enabled rule = true ->
           testAppRule detected rule = ruleMatches appInfo rule).
Proof.
  intros detected rule. split; [| split].
  - intros Hoff. destruct detected as [appInfo |]; [| reflexivity].
    unfold testAppRule. rewrite findMatchingRule_spec. simpl. rewrite Hoff. reflexivity.
  - intros ->. reflexivity.
  - intros appInfo -> Hon. unfold testAppRule.
    rewrite findMatchingRule_spec. simpl. rewrite Hon. simpl.
    unfold raises, matched.
    destruct (ruleMatches appInfo rule) as [[|] |]; reflexivity.
Qed.

End WithEngine.

Lemma broken_rule_freezes_active_rule_example :
  In rule_cpp_1 [rule_visual_10; rule_cpp_1]
  /\ enabled rule_cpp_1 = true
  /\ activeRule
       (poll_all (engine := RegExp.PlainEngine)
          (mkRulesConfig (Some true) (Some [rule_visual_10; rule_cpp_1]))
          [Some notepad_pp; None; Some vscode]
          (mkAppState no_application (Some rule_code_5)))
     = Some rule_code_5
  /\ activeApp
       (poll_all (engine := RegExp.PlainEngine)
          (mkRulesConfig (Some true) (Some [rule_visual_10; rule_cpp_1]))
          [Some notepad_pp; None; Some vscode]
          (mkAppState no_application (Some rule_code_5)))
     = vscode.
Proof.
  assert (Hin : In rule_cpp_1 [rule_visual_10; rule_cpp_1]) by (right; now left).
  assert (Hraise : forall appInfo,
             In (Some appInfo) [Some notepad_pp; None; Some vscode] ->
             ruleMatches (engine := RegExp.PlainEngine) appInfo rule_cpp_1
             = ThrewSyntaxError).
  { intros appInfo [H | [H | [H | []]]]; inversion H; subst; vm_compute; reflexivity. }
  destruct (broken_rule_freezes_active_rule (engine := RegExp.PlainEngine)
              [rule_visual_10; rule_cpp_1] rule_cpp_1
              [Some notepad_pp; None; Some vscode]
              (mkAppState no_application (Some rule_code_5)) Hin eq_refl Hraise)
    as [Hrule Happ].
  split; [exact Hin |]. split; [reflexivity |]. split; [exact Hrule |].
  exact (Happ vscode [Some notepad_pp; None] eq_refl).
Defined.

Lemma testAppRule_answer_example :
  enabled rule_disabled_99 = false
  /\ ruleMatches (engine := RegExp.PlainEngine) vscode rule_disabled_99 = Returned true
  /\ testAppRule (engine := RegExp.PlainEngine) (Some vscode) rule_disabled_99
     = Returned false.
Proof.
  split; [reflexivity |]. split; [vm_compute; reflexivity |].
  apply (proj1 (testAppRule_answer (engine := RegExp.PlainEngine) (Some vscode)
                  rule_disabled_99)).
  reflexivity.
Defined.

End AppDetectorStateProperties.

(* ================================================================== *)
(** * Properties of the rule list and of the effective configuration *)
(* ================================================================== *)

Module RuleStoreProperties.

Import AppDetector AppDetectorState AppDetectorProperties.

Local Open Scope string_scope.

Definition other_id (wanted : string) (rule : AppRule) : bool :=
  negb (String.eqb (id rule) wanted).

Lemma other_id_true :
  forall wanted rule, other_id wanted rule = true <-> id rule <> wanted.
Proof.
  intros wanted rule. unfold other_id.
  destruct (String.eqb_spec (id rule) wanted) as [Heq | Hne]; simpl; split;
    congruence.
Qed.

Lemma filter_other_id_fresh :
  forall wanted rules,
    (forall r, In r rules -> id r <> wanted) ->
    filter (other_id wanted) rules = rules.
Proof.
  intros wanted rules. induction rules as [| x rules IH]; intros Hfresh; simpl;
    [reflexivity |].
  assert (Hx : other_id wanted x = true)
    by (apply other_id_true, Hfresh; now left).
  rewrite Hx, IH; [reflexivity |].
  intros r Hr. apply Hfresh. now right.
Qed.

(** Creating a rule appends it, under the identifier drawn from the clock,
    to the rules of the configuration (none when the field is absent) and
    returns it; when no rule carried that identifier, deleting by it gives
    back the rules there were.  The switch [enableAppRules] is kept by
    both. *)
Theorem createAppRule_deleteAppRule :
  forall (newId : string) (rule : AppRule) (config : RulesConfig),
    (forall r, In r (getAppRules config) -> id r <> newId) ->
    let created := createAppRule newId rule config in
    getAppRules (snd created) = (getAppRules config ++ [fst created])%list
    /\ id (fst created) = newId
    /\ getAppRules (deleteAppRule newId (snd created)) = getAppRules config
    /\ enableAppRules (deleteAppRule newId (snd created)) = enableAppRules config.
Proof.
  intros newId rule config Hfresh. simpl.
  split; [reflexivity |]. split; [reflexivity |]. split; [| reflexivity].
  change (filter (other_id newId) (getAppRules config ++ [with_id newId rule])
          = getAppRules config).
  rewrite filter_app, filter_other_id_fresh by exact Hfresh.
  simpl. unfold other_id. simpl. rewrite String.eqb_refl. simpl.
  apply app_nil_r.
Qed.

(** After [deleteAppRule], no rule carrying the identifier is ever selected
    again, for any application: whatever [findMatchingRule] returns from
    the saved rules has another identifier and was among the rules before.
    This holds for every rule that carried the identifier, should several
    have been created within one millisecond. *)
Theorem deleted_rule_never_selected :
  forall {engine : RegExp.Engine} (wanted : string) (config : RulesConfig)
         (appInfo : ActiveAppInfo) (selected : AppRule),
    findMatchingRule appInfo (getAppRules (deleteAppRule wanted config))
    = Returned (Some selected) ->
    id selected <> wanted /\ In selected (getAppRules config).
Proof.
  intros engine wanted config appInfo selected Hfound.
  rewrite findMatchingRule_spec in Hfound.
  destruct (existsb _ _); [discriminate |].
  inversion Hfound as [Hhd]. clear Hfound.
  apply sort_by_priority_head_highest in Hhd. destruct Hhd as [Hin _].
  apply candidates_In in Hin. destruct Hin as [Hin _].
  change (In selected (filter (other_id wanted) (getAppRules config))) in Hin.
  apply filter_In in Hin. destruct Hin as [Hin Hother].
  split; [| exact Hin].
  now apply other_id_true.
Qed.

Lemma findIndex_first :
  forall wanted before old after,
    (forall r, In r before -> id r <> wanted) ->
    id old = wanted ->
    findIndex wanted (before ++ old :: after) = Some (List.length before).
Proof.
  intros wanted before old after. induction before as [| x before IH];
    intros Hfresh Hold; simpl.
  - rewrite Hold, String.eqb_refl. reflexivity.
  - destruct (String.eqb_spec (id x) wanted) as [Heq | _].
    + exfalso. apply (Hfresh x); [now left | exact Heq].
    + rewrite IH; [reflexivity | | exact Hold].
      intros r Hr. apply Hfresh. now right.
Qed.

Lemma findIndex_absent :
  forall wanted rules,
    (forall r, In r rules -> id r <> wanted) ->
    findIndex wanted rules = None.
Proof.
  intros wanted rules. induction rules as [| x rules IH]; intros Hfresh; simpl;
    [reflexivity |].
  destruct (String.eqb_spec (id x) wanted) as [Heq | _].
  - exfalso. apply (Hfresh x); [now left | exact Heq].
  - rewrite IH; [reflexivity |]. intros r Hr. apply Hfresh. now right.
Qed.

Lemma set_at_length_before :
  forall before old after rule,
    set_at (List.length before) rule (before ++ old :: after)
    = (before ++ rule :: after)%list.
Proof.
  induction before as [| x before IH]; intros old after rule; simpl;
    [reflexivity |].
  now rewrite IH.
Qed.

(** [updateAppRule] replaces the first rule that carries the identifier of
    the rule given, in place, and nothing else: rules before and after it
    stay as they are, also a later one with the same identifier.  When no
    rule carries the identifier the configuration is not saved at all, so
    an absent rule list stays absent. *)
Theorem updateAppRule_replaces_first :
  forall (rule : AppRule) (config : RulesConfig),
    (forall before old after,
        getAppRules config = (before ++ old :: after)%list ->
        (forall r, In r before -> id r <> id rule) ->
        id old = id rule ->
        getAppRules (updateAppRule rule config) = (before ++ rule :: after)%list)
    /\ ((forall r, In r (getAppRules config) -> id r <> id rule) ->
        updateAppRule rule config = config).
Proof.
  intros rule config. split.
  - intros before old after Hrules Hfresh Hold.
    unfold updateAppRule. rewrite Hrules.
    rewrite (findIndex_first (id rule) before old after Hfresh Hold).
    simpl. apply set_at_length_before.
  - intros Hfresh. unfold updateAppRule.
    now rewrite (findIndex_absent (id rule) (getAppRules config) Hfresh).
Qed.

Lemma override_twice :
  forall (A : Type) (value current : option A),
    override value (override value current) = override value current.
Proof. intros A [v |] current; reflexivity. Qed.

Lemma override_string_twice :
  forall value current,
    override_string value (override_string value current)
    = override_string value current.
Proof.
  intros [v |] current; simpl; [| reflexivity].
  destruct (JS.truthy_string v); reflexivity.
Qed.

(** The effective configuration under an active rule: a rule that sets
    post-processing to false switches it off, while an empty prompt in the
    rule leaves the global prompt in force; the hold key and the API keys
    are always the global ones; a field the rule does not set keeps its
    global value; and merging the same rule into the result again changes
    nothing. *)
Theorem getEffectiveConfig_overrides :
  forall (globalConfig : Config) (rule : AppRule) (more : RuleOverrides),
    let effective := getEffectiveConfig globalConfig (Some (rule, more)) in
    (forall b, rule_postProcessingEnabled more = Some b ->
               transcriptPostProcessingEnabled effective = Some b)
    /\ (rule_postProcessingPrompt more = Some "" ->
        transcriptPostProcessingPrompt effective
        = transcriptPostProcessingPrompt globalConfig)
    /\ (holdKey effective = holdKey globalConfig
        /\ openaiApiKey effective = openaiApiKey globalConfig
        /\ groqApiKey effective = groqApiKey globalConfig)
    /\ (AppDetector.sttProviderId rule = None ->
        sttProviderId effective = sttProviderId globalConfig)
    /\ (forall p, AppDetector.sttProviderId rule = Some p ->
                  sttProviderId effective = Some p)
    /\ getEffectiveConfig effective (Some (rule, more)) = effective.
Proof.
  intros globalConfig rule more. simpl.
  split; [intros b ->; reflexivity |].
  split; [intros ->; reflexivity |].
  split; [repeat split |].
  split; [intros ->; reflexivity |].
  split; [intros p ->; reflexivity |].
  now rewrite !override_twice, override_string_twice.
Qed.

(** *** Examples *)

Definition two_rules : RulesConfig :=
  mkRulesConfig (Some true) (Some [rule_code_5; rule_visual_10]).

Lemma createAppRule_deleteAppRule_example :
  (forall r, In r (getAppRules two_rules) -> id r <> "1730592000000")
  /\ getAppRules
       (deleteAppRule "1730592000000"
          (snd (createAppRule "1730592000000" rule_studio_10 two_rules)))
     = [rule_code_5; rule_visual_10].
Proof.
  assert (Hfresh : forall r, In r (getAppRules two_rules) -> id r <> "1730592000000").
  { intros r [<- | [<- | []]]; vm_compute; discriminate. }
  split; [exact Hfresh |].
  exact (proj1 (proj2 (proj2
    (createAppRule_deleteAppRule "1730592000000" rule_studio_10 two_rules Hfresh)))).
Defined.

Lemma deleted_rule_never_selected_example :
  findMatchingRule (engine := RegExp.PlainEngine) vscode (getAppRules two_rules)
  = Returned (Some rule_visual_10)
  /\ findMatchingRule (engine := RegExp.PlainEngine) vscode
       (getAppRules (deleteAppRule "rule-b" two_rules))
     = Returned (Some rule_code_5)
  /\ id rule_code_5 <> "rule-b"
  /\ In rule_code_5 (getAppRules two_rules).
Proof.
  assert (Hfound : findMatchingRule (engine := RegExp.PlainEngine) vscode
                     (getAppRules (deleteAppRule "rule-b" two_rules))
                   = Returned (Some rule_code_5))
    by (vm_compute; reflexivity).
  split; [vm_compute; reflexivity |]. split; [exact Hfound |].
  exact (deleted_rule_never_selected (engine := RegExp.PlainEngine)
           "rule-b" two_rules vscode rule_code_5 Hfound).
Defined.

(** Two rules created within one millisecond share an identifier; an update
    by that identifier reaches the first of them only. *)
Definition same_millisecond : RulesConfig :=
  mkRulesConfig (Some true)
    (Some [rule_code_5; with_id "1730592000000" rule_visual_10;
           with_id "1730592000000" rule_studio_10]).

Lemma updateAppRule_replaces_first_example :
  getAppRules (updateAppRule (with_id "1730592000000" rule_disabled_99) same_millisecond)
  = [rule_code_5; with_id "1730592000000" rule_disabled_99;
     with_id "1730592000000" rule_studio_10].
Proof.
  apply (proj1 (updateAppRule_replaces_first
                  (with_id "1730592000000" rule_disabled_99) same_millisecond)
           [rule_code_5] (with_id "1730592000000" rule_visual_10)
           [with_id "1730592000000" rule_studio_10]).
  - reflexivity.
  - intros r [<- | []]. vm_compute. discriminate.
  - reflexivity.
Defined.

End RuleStoreProperties.

(* ================================================================== *)
(** * Properties of voice activation over whole sessions *)
(* ================================================================== *)

Module VoiceActivationEventsProperties.

Import VoiceActivation VoiceActivationEvents VoiceActivationProperties.

Local Open Scope Z_scope.

(** ** At most one silence timer

    Every timer pending in the event loop is the one whose handle
    [state.voiceActivation.silenceTimer] holds, and there is at most one. *)
Definition single_timer (w : World) : Prop :=
  (List.length (timers w) <= 1)%nat
  /\ forall t, In t (timers w) ->
               silenceTimer (voiceActivation (state w)) = Some (handle t).

Definition timer_shape (w : World) : Prop :=
  match timers w with
  | [] => True
  | [t] => silenceTimer (voiceActivation (state w)) = Some (handle t)
  | _ => False
  end.

Lemma single_timer_shape : forall w, single_timer w <-> timer_shape w.
Proof.
  intros w. unfold single_timer, timer_shape.
  destruct (timers w) as [| t [| t' l]]; simpl; split.
  - trivial.
  - intros _. split; [lia | tauto].
  - intros [_ H]. apply H. now left.
  - intros H. split; [lia |]. intros t0 [<- | []]. exact H.
  - intros [H _]. lia.
  - tauto.
Qed.

Lemma no_timers_shape : forall w, timers w = [] -> timer_shape w.
Proof. intros w H. unfold timer_shape. now rewrite H. Qed.

Lemma same_timers_shape :
  forall w w',
    timers w' = timers w ->
    silenceTimer (voiceActivation (state w')) = silenceTimer (voiceActivation (state w)) ->
    timer_shape w -> timer_shape w'.
Proof. unfold timer_shape. intros w w' -> ->. auto. Qed.

Lemma clearSilenceTimer_no_timers :
  forall w, timer_shape w -> timers (clearSilenceTimer w) = [].
Proof.
  intros w H. unfold timer_shape in H. unfold clearSilenceTimer.
  destruct (timers w) as [| t [| t' l]] eqn:Ht; [| | contradiction].
  - destruct (silenceTimer (voiceActivation (state w))); simpl; rewrite ?Ht; reflexivity.
  - rewrite H. simpl. rewrite Ht. simpl. now rewrite Nat.eqb_refl.
Qed.

Lemma stopRecording_no_timers :
  forall w, timer_shape w -> timers (stopRecording w) = [].
Proof.
  intros w H. unfold stopRecording.
  pose proof (clearSilenceTimer_no_timers w H) as Hnone.
  destruct (panel (clearSilenceTimer w)); simpl; exact Hnone.
Qed.

Lemma onVoiceDetected_shape :
  forall config now w, timer_shape w -> timer_shape (onVoiceDetected config now w).
Proof.
  intros config now w H. unfold onVoiceDetected.
  destruct (ignores_events config w); [exact H |].
  pose proof (clearSilenceTimer_no_timers w H) as Hnone.
  apply no_timers_shape.
  destruct (negb (isRecording (state (clearSilenceTimer w)))); simpl; exact Hnone.
Qed.

Lemma onSilenceDetected_shape :
  forall config w, timer_shape w -> timer_shape (onSilenceDetected config w).
Proof.
  intros config w H. unfold onSilenceDetected.
  destruct (ignores_events config w); [exact H |].
  destruct config as [voiceConfig |]; [| exact H].
  destruct (isRecording (state w)); [| exact H].
  destruct (silenceTimer (voiceActivation (state w))) eqn:Hs; [exact H |].
  unfold timer_shape in *. simpl.
  destruct (timers w) as [| t [| t' l]]; simpl; [reflexivity | | contradiction].
  rewrite Hs in H. discriminate.
Qed.

Lemma onAudioLevelUpdate_shape :
  forall config level now w,
    timer_shape w -> timer_shape (onAudioLevelUpdate config level now w).
Proof.
  intros config level now w H. unfold onAudioLevelUpdate.
  assert (H1 : timer_shape (set_audioLevel level w))
    by (apply (same_timers_shape w); [reflexivity | reflexivity | exact H]).
  destruct (isRecording (state (set_audioLevel level w))); [| exact H1].
  destruct (_ <=? _); [| exact H1].
  apply no_timers_shape. now apply stopRecording_no_timers.
Qed.

Lemma fire_shape :
  forall h now w, timer_shape w -> timer_shape (fire h now w).
Proof.
  intros h now w H. unfold fire.
  destruct (find (fun t => Nat.eqb (handle t) h) (timers w)) as [t |] eqn:Hfind;
    [| exact H].
  assert (Hnone : timers (clearTimeout h w) = []).
  { unfold timer_shape in H. simpl.
    destruct (timers w) as [| t0 [| t' l]]; [reflexivity | | contradiction].
    simpl in Hfind |- *. destruct (Nat.eqb (handle t0) h); [reflexivity | discriminate]. }
  unfold silenceTimerCallback.
  destruct (_ <=? _).
  - apply no_timers_shape. apply stopRecording_no_timers. now apply no_timers_shape.
  - now apply no_timers_shape.
Qed.

Lemma start_shape : forall w, timer_shape w -> timer_shape (start w).
Proof.
  intros w H. unfold start.
  destruct (negb (isInitialized (manager w))); [exact H |].
  destruct (voiceActivationWindow (manager (set_isListening true w)));
    (apply (same_timers_shape w); [reflexivity | reflexivity | exact H]).
Qed.

Lemma stop_no_timers : forall w, timer_shape w -> timers (stop w) = [].
Proof.
  intros w H. unfold stop.
  assert (H1 : timer_shape (set_isListening false w))
    by (apply (same_timers_shape w); [reflexivity | reflexivity | exact H]).
  pose proof (clearSilenceTimer_no_timers _ H1) as Hnone.
  set (w1 := clearSilenceTimer (set_isListening false w)) in *. clearbody w1.
  destruct (isRecording (state w1)); simpl;
    destruct (voiceActivationWindow (manager w1)); simpl; exact Hnone.
Qed.

Lemma step_shape :
  forall config e w, timer_shape w -> timer_shape (step config e w).
Proof.
  intros config e w H. destruct e; simpl.
  - now apply start_shape.
  - apply no_timers_shape. now apply stop_no_timers.
  - unfold toggleVoiceActivation.
    destruct (isListening (voiceActivation (state w))).
    + apply no_timers_shape. now apply stop_no_timers.
    + now apply start_shape.
  - now apply onVoiceDetected_shape.
  - now apply onSilenceDetected_shape.
  - now apply onAudioLevelUpdate_shape.
  - now apply fire_shape.
  - apply (same_timers_shape w); [reflexivity | reflexivity | exact H].
Qed.

(** Whatever happens to the manager (calls of [start], [stop] and the
    toggle, messages of the renderer under any configuration, timers
    firing, recordings reported as started or ended), the event loop never
    holds more than one silence timer, and a timer it holds is the one
    recorded in [state.voiceActivation.silenceTimer]: no timer is leaked
    where [clearTimeout] can no longer reach it. *)
Theorem single_silence_timer :
  forall (trace : list (option VoiceActivationConfig * Event)) (w : World),
    single_timer w -> single_timer (run trace w).
Proof.
  intros trace w H. apply single_timer_shape. apply single_timer_shape in H.
  revert w H. unfold run.
  induction trace as [| [config e] trace IH]; intros w H; simpl; [exact H |].
  apply IH. now apply step_shape.
Qed.

(** A session from a fresh manager: voice, recording reported, silence, the
    timer firing too early, silence again, voice again, silence. *)
Definition long_session : list (option VoiceActivationConfig * Event) :=
  [(None, start_called);
   (Some default_config, voice_detected_received 1000);
   (Some default_config, record_event true);
   (Some default_config, silence_detected_received);
   (Some default_config, timer_fired 0 1200);
   (Some default_config, silence_detected_received);
   (Some default_config, voice_detected_received 1500);
   (Some default_config, silence_detected_received)].

Lemma single_silence_timer_session :
  single_timer (initialized_world true)
  /\ single_timer (run long_session (initialized_world true))
  /\ timers (run long_session (initialized_world true)) = [mkTimer 1 2000 500].
Proof.
  assert (H0 : single_timer (initialized_world true)).
  { split; simpl; [lia | tauto]. }
  split; [exact H0 |]. split; [| reflexivity].
  exact (single_silence_timer long_session (initialized_world true) H0).
Defined.

(** ** A silence timer that fires too early *)

Definition silence_or_timer (ce : option VoiceActivationConfig * Event) : Prop :=
  match snd ce with
  | silence_detected_received | timer_fired _ _ => True
  | _ => False
  end.

Lemma fire_too_early :
  forall w t now,
    timers w = [t] ->
    now - recordingStartTime (voiceActivation (state w)) < minDuration t ->
    fire (handle t) now w = clearTimeout (handle t) w
    /\ timers (clearTimeout (handle t) w) = [].
Proof.
  intros w t now Ht Hearly. unfold fire. rewrite Ht. simpl.
  rewrite Nat.eqb_refl. simpl. unfold silenceTimerCallback. simpl.
  destruct (Z.leb_spec (minDuration t)
              (now - recordingStartTime (voiceActivation (state w)))) as [Hle | _];
    [lia |].
  split; [reflexivity |]. rewrite Ht. simpl. now rewrite Nat.eqb_refl.
Qed.

(** When the only silence timer fires before the minimum recording duration
    has passed, its callback does nothing, and
    [state.voiceActivation.silenceTimer] keeps the fired handle.  From then
    on silence alone never ends the recording: every further
    silence-detected message finds the handle set and starts no timer, so
    nothing is sent and nothing changes, under any configuration, until a
    voice is detected again, the maximum duration is reached or [stop] is
    called. *)
Theorem early_fire_disarms_silence :
  forall (w : World) (t : Timer) (now : Z)
         (trace : list (option VoiceActivationConfig * Event)),
    timers w = [t] ->
    silenceTimer (voiceActivation (state w)) = Some (handle t) ->
    now - recordingStartTime (voiceActivation (state w)) < minDuration t ->
    Forall silence_or_timer trace ->
    let fired := fire (handle t) now w in
    state fired = state w
    /\ outbox fired = outbox w
    /\ timers fired = []
    /\ run trace fired = fired.
Proof.
  intros w t now trace Ht Hs Hearly Htrace. simpl.
  destruct (fire_too_early w t now Ht Hearly) as [-> Hnone].
  split; [reflexivity |]. split; [reflexivity |]. split; [exact Hnone |].
  set (w' := clearTimeout (handle t) w) in *.
  assert (Hs' : silenceTimer (voiceActivation (state w')) = Some (handle t)) by exact Hs.
  clearbody w'. clear Ht Hs Hearly.
  unfold run. induction Htrace as [| [config e] trace He _ IH]; simpl; [reflexivity |].
  assert (Hstep : step config e w' = w').
  { destruct e; simpl in He; try contradiction; simpl.
    - unfold onSilenceDetected.
      destruct (ignores_events config w'); [reflexivity |].
      destruct config; [| reflexivity].
      destruct (isRecording (state w')); [| reflexivity].
      now rewrite Hs'.
    - unfold fire. now rewrite Hnone. }
  rewrite Hstep. exact IH.
Qed.

Lemma early_fire_disarms_silence_session :
  timers world_silence = [silence_timer]
  /\ isRecording (state (fire 0 1200 world_silence)) = true
  /\ outbox (run [(Some default_config, silence_detected_received);
                  (Some default_config, timer_fired 0 3200);
                  (Some default_config, silence_detected_received)]
               (fire 0 1200 world_silence))
     = outbox world_silence
  /\ timers (fire 0 1200 world_silence) = [].
Proof.
  assert (Htrace : Forall silence_or_timer
                     [(Some default_config, silence_detected_received);
                      (Some default_config, timer_fired 0 3200);
                      (Some default_config, silence_detected_received)])
    by (repeat constructor).
  destruct (early_fire_disarms_silence world_silence silence_timer 1200 _
              eq_refl eq_refl eq_refl Htrace) as [Hstate [Hout [Hnone Hrun]]].
  change (handle silence_timer) with 0%nat in *.
  split; [reflexivity |]. split; [now rewrite Hstate |].
  split; [now rewrite Hrun |]. exact Hnone.
Defined.

(** ** After [stop] *)

Definition detection_or_timer (ce : option VoiceActivationConfig * Event) : Prop :=
  match snd ce with
  | voice_detected_received _ | silence_detected_received | timer_fired _ _ => True
  | _ => False
  end.

Lemma stop_not_listening :
  forall w, isListening (voiceActivation (state (stop w))) = false.
Proof.
  intros w. unfold stop.
  assert (H : isListening
                (voiceActivation (state (clearSilenceTimer (set_isListening false w))))
              = false).
  { unfold clearSilenceTimer.
    destruct (silenceTimer (voiceActivation (state (set_isListening false w))));
      reflexivity. }
  set (w1 := clearSilenceTimer (set_isListening false w)) in *. clearbody w1.
  destruct (isRecording (state w1)); simpl;
    destruct (voiceActivationWindow (manager w1)); simpl; exact H.
Qed.

Lemma ignores_when_not_listening :
  forall config w,
    isListening (voiceActivation (state w)) = false -> ignores_events config w = true.
Proof. intros config w H. unfold ignores_events. rewrite H. apply orb_true_r. Qed.

(** [stop] is final for the detection: once it has run, a voice-detected or
    silence-detected message still in flight from the hidden window, and a
    timer the event loop might still want to fire, change nothing and send
    nothing, whatever the configuration: no recording is started behind the
    user's back. *)
Theorem stop_silences_detection :
  forall (w : World) (trace : list (option VoiceActivationConfig * Event)),
    single_timer w ->
    Forall detection_or_timer trace ->
    run trace (stop w) = stop w.
Proof.
  intros w trace Hsingle Htrace.
  apply single_timer_shape in Hsingle.
  pose proof (stop_no_timers w Hsingle) as Hnone.
  pose proof (stop_not_listening w) as Hoff.
  set (w' := stop w) in *. clearbody w'.
  unfold run. induction Htrace as [| [config e] trace He _ IH]; simpl; [reflexivity |].
  assert (Hstep : step config e w' = w').
  { destruct e; simpl in He; try contradiction; simpl.
    - unfold onVoiceDetected. now rewrite ignores_when_not_listening.
    - unfold onSilenceDetected. now rewrite ignores_when_not_listening.
    - unfold fire. now rewrite Hnone. }
  rewrite Hstep. exact IH.
Qed.

Lemma stop_silences_detection_session :
  single_timer world_silence
  /\ run [(Some default_config, timer_fired 0 3000);
          (Some default_config, voice_detected_received 3100);
          (Some default_config, silence_detected_received)]
       (stop world_silence)
     = stop world_silence.
Proof.
  assert (H0 : single_timer world_silence).
  { split; simpl; [lia |]. intros t [<- | []]. reflexivity. }
  split; [exact H0 |].
  apply (stop_silences_detection world_silence); [exact H0 |].
  repeat constructor.
Defined.

(** ** Voice activation disabled in the configuration *)

Definition config_off (config : option VoiceActivationConfig) : Prop :=
  match config with
  | Some voiceConfig => enabled voiceConfig = false
  | None => True
  end.

Definition is_show (m : Message) : bool :=
  match m with
  | showPanelWindowAndStartRecording => true
  | _ => false
  end.

(** The calls of [showPanelWindowAndStartRecording] made so far. *)
Definition recordings_started (w : World) : nat :=
  List.length (filter is_show (outbox w)).

(** Nothing shown, the start stamp kept, no timer added. *)
Definition starts_nothing (w w' : World) : Prop :=
  filter is_show (outbox w') = filter is_show (outbox w)
  /\ recordingStartTime (voiceActivation (state w'))
     = recordingStartTime (voiceActivation (state w))
  /\ incl (timers w') (timers w).

Ltac starts_nothing_crush :=
  unfold starts_nothing; simpl; rewrite ?filter_app; simpl; rewrite ?app_nil_r;
  (split; [reflexivity | split; [reflexivity |]]);
  first [apply incl_refl
        | apply incl_filter
        | (eapply incl_tran; [apply incl_filter | apply incl_filter])].

Lemma ignores_when_off :
  forall config w, config_off config -> ignores_events config w = true.
Proof.
  intros [voiceConfig |] w Hoff; unfold ignores_events; simpl in *;
    [now rewrite Hoff | reflexivity].
Qed.

Lemma step_off_starts_nothing :
  forall config e w, config_off config -> starts_nothing w (step config e w).
Proof.
  intros config e [[rec [en lis lvl tm rst]] [ini win] tms nh pnl out] Hoff.
  destruct e; simpl.
  - unfold start. simpl. destruct ini, win; starts_nothing_crush.
  - unfold stop, clearSilenceTimer. simpl.
    destruct tm, rec, win; starts_nothing_crush.
  - unfold toggleVoiceActivation, start, stop, clearSilenceTimer. simpl.
    destruct lis, tm, rec, win, ini; starts_nothing_crush.
  - unfold onVoiceDetected. rewrite (ignores_when_off _ _ Hoff). starts_nothing_crush.
  - unfold onSilenceDetected. rewrite (ignores_when_off _ _ Hoff). starts_nothing_crush.
  - unfold onAudioLevelUpdate, stopRecording, clearSilenceTimer. simpl.
    destruct rec; [| starts_nothing_crush].
    destruct (_ <=? _); [| starts_nothing_crush].
    destruct tm, pnl; starts_nothing_crush.
  - unfold fire. simpl.
    destruct (find _ tms) as [t |]; [| starts_nothing_crush].
    unfold silenceTimerCallback, stopRecording, clearSilenceTimer. simpl.
    destruct (_ <=? _); [| starts_nothing_crush].
    destruct tm, pnl; starts_nothing_crush.
  - starts_nothing_crush.
Qed.

(** While the configuration has voice activation disabled or unset, the
    manager starts no recording and sets no timer, whatever is called and
    whatever the hidden window reports: [start] may still set the
    listening flag and start the monitoring, yet over any run of events
    [showPanelWindowAndStartRecording] is never called, the start stamp
    stays, and the pending timers are among those there were. *)
Theorem disabled_never_starts_recording :
  forall (trace : list (option VoiceActivationConfig * Event)) (w : World),
    Forall (fun ce => config_off (fst ce)) trace ->
    recordings_started (run trace w) = recordings_started w
    /\ recordingStartTime (voiceActivation (state (run trace w)))
       = recordingStartTime (voiceActivation (state w))
    /\ incl (timers (run trace w)) (timers w).
Proof.
  intros trace w Htrace.
  assert (H : starts_nothing w (run trace w)).
  { unfold run. revert w.
    induction Htrace as [| [config e] trace He _ IH]; intros w; simpl.
    - unfold starts_nothing. split; [reflexivity |]. split; [reflexivity |].
      apply incl_refl.
    - destruct (step_off_starts_nothing config e w He) as [H1 [H2 H3]].
      destruct (IH (step config e w)) as [H4 [H5 H6]].
      unfold starts_nothing. rewrite H4, H5. split; [exact H1 |].
      split; [exact H2 |]. eapply incl_tran; eassumption. }
  destruct H as [H1 [H2 H3]]. unfold recordings_started. rewrite H1. auto.
Qed.

Definition disabled_config : VoiceActivationConfig :=
  mkVoiceActivationConfig false 30 2000 10 500 30000.

Lemma disabled_never_starts_recording_session :
  isListening
    (voiceActivation
       (state (run [(Some disabled_config, start_called);
                    (Some disabled_config, audio_level_received 80 900);
                    (Some disabled_config, voice_detected_received 1000);
                    (None, voice_detected_received 1100)]
                 (initialized_world true))))
  = true
  /\ recordings_started
       (run [(Some disabled_config, start_called);
             (Some disabled_config, audio_level_received 80 900);
             (Some disabled_config, voice_detected_received 1000);
             (None, voice_detected_received 1100)]
          (initialized_world true))
     = 0%nat.
Proof.
  split; [reflexivity |].
  apply (disabled_never_starts_recording
           [(Some disabled_config, start_called);
            (Some disabled_config, audio_level_received 80 900);
            (Some disabled_config, voice_detected_received 1000);
            (None, voice_detected_received 1100)]
           (initialized_world true)).
  repeat constructor.
Defined.

(** ** The script of the hidden window *)

(** The detections among the messages sent: [true] for a voice, [false]
    for silence. *)
Fixpoint detections (sent : list RendererMessage) : list bool :=
  match sent with
  | [] => []
  | voice_detected :: rest => true :: detections rest
  | silence_detected :: rest => false :: detections rest
  | audio_level _ :: rest => detections rest
  end.

Fixpoint levels_sent (sent : list RendererMessage) : list float :=
  match sent with
  | [] => []
  | audio_level level :: rest => level :: levels_sent rest
  | _ :: rest => levels_sent rest
  end.

(** The list alternates, beginning with [first]. *)
Fixpoint alternates (first : bool) (l : list bool) : bool :=
  match l with
  | [] => true
  | b :: rest => Bool.eqb b first && alternates (negb first) rest
  end.

Lemma detections_app :
  forall a b, detections (a ++ b) = (detections a ++ detections b)%list.
Proof.
  induction a as [| [level | |] a IH]; intros b; simpl; rewrite ?IH; reflexivity.
Qed.

Lemma levels_sent_app :
  forall a b, levels_sent (a ++ b) = (levels_sent a ++ levels_sent b)%list.
Proof.
  induction a as [| [level | |] a IH]; intros b; simpl; rewrite ?IH; reflexivity.
Qed.

Lemma last_nonempty :
  forall (A : Type) (a : A) (l : list A) (d d' : A), last (a :: l) d = last (a :: l) d'.
Proof.
  intros A a l. revert a. induction l as [| b l IH]; intros a d d'; [reflexivity |].
  change (last (b :: l) d = last (b :: l) d'). apply IH.
Qed.

(** One run of frames of the script, with no start command in between.
    While the script monitors, every measured level is reported, in order,
    and the detections reported in the run strictly alternate: a voice is
    reported only after silence (or first, when [lastVoiceState] is false,
    as it is right after a start command), silence only after a voice,
    whatever the levels and the sensitivity.  The variable [lastVoiceState]
    ends as the last detection reported.  The alternation does not reach
    across a start command: its handler resets [lastVoiceState] without
    looking at [isMonitoring], so the first level above the sensitivity
    after it is reported as a voice, whatever was reported before. *)
Theorem renderer_detections_alternate :
  forall (sensitivity : float) (levels : list float) (r : Renderer),
    isMonitoring r = true ->
    let sent := fst (processFrames sensitivity levels r) in
    let r' := snd (processFrames sensitivity levels r) in
    alternates (negb (lastVoiceState r)) (detections sent) = true
    /\ levels_sent sent = levels
    /\ isMonitoring r' = true
    /\ lastVoiceState r' = last (detections sent) (lastVoiceState r)
    /\ forall level,
         JS.gt level sensitivity = true ->
         fst (processAudio sensitivity level (renderer_start r'))
         = [audio_level level; voice_detected].
Proof.
  intros sensitivity levels r Hmon. simpl.
  assert (Hrun :
    alternates (negb (lastVoiceState r))
      (detections (fst (processFrames sensitivity levels r))) = true
    /\ levels_sent (fst (processFrames sensitivity levels r)) = levels
    /\ isMonitoring (snd (processFrames sensitivity levels r)) = true
    /\ lastVoiceState (snd (processFrames sensitivity levels r))
       = last (detections (fst (processFrames sensitivity levels r)))
           (lastVoiceState r)).
  { revert r Hmon.
    induction levels as [| level levels IH]; intros [mon lastv] Hmon; simpl in *.
    - repeat split; assumption.
    - subst mon. unfold processAudio. simpl.
      destruct (JS.gt level sensitivity && negb lastv) eqn:Hvoice.
      + apply andb_prop in Hvoice. destruct Hvoice as [_ Hlast].
        destruct lastv; [discriminate |].
        specialize (IH (mkRenderer true true) eq_refl).
        destruct (processFrames sensitivity levels (mkRenderer true true))
          as [later r2].
        simpl in *. destruct IH as [Halt [Hlev [Hmon Hlast']]].
        split; [exact Halt |]. split; [now rewrite Hlev |]. split; [exact Hmon |].
        rewrite Hlast'.
        destruct (detections later); [reflexivity | apply last_nonempty].
      + destruct (PrimFloat.leb level (sensitivity * 0.3) && lastv) eqn:Hsilence.
        * apply andb_prop in Hsilence. destruct Hsilence as [_ ->].
          specialize (IH (mkRenderer true false) eq_refl).
          destruct (processFrames sensitivity levels (mkRenderer true false))
            as [later r2].
          simpl in *. destruct IH as [Halt [Hlev [Hmon Hlast']]].
          split; [exact Halt |]. split; [now rewrite Hlev |]. split; [exact Hmon |].
          rewrite Hlast'.
          destruct (detections later); [reflexivity | apply last_nonempty].
        * specialize (IH (mkRenderer true lastv) eq_refl).
          destruct (processFrames sensitivity levels (mkRenderer true lastv))
            as [later r2].
          simpl in *. destruct IH as [Halt [Hlev [Hmon Hlast']]].
          split; [exact Halt |]. split; [now rewrite Hlev |]. split; assumption. }
  destruct Hrun as [Halt [Hlev [Hmon' Hlast]]].
  split; [exact Halt |]. split; [exact Hlev |]. split; [exact Hmon' |].
  split; [exact Hlast |].
  intros level Hloud. unfold processAudio, renderer_start. simpl.
  now rewrite Hloud.
Qed.

(** A run after a start command; then a second start command while a voice
    is being reported, after which the next loud level is reported as a
    voice again. *)
Lemma renderer_detections_alternate_example :
  detections
    (fst (processFrames 30 [5; 45; 60; 20; 8; 31; 9; 2]%float
            (renderer_start (mkRenderer false true))))
  = [true; false; true; false]
  /\ alternates true
       (detections
          (fst (processFrames 30 [5; 45; 60; 20; 8; 31; 9; 2]%float
                  (renderer_start (mkRenderer false true)))))
     = true
  /\ detections (fst (processFrames 30 [45; 60]%float (renderer_start (mkRenderer false false))))
     = [true]
  /\ fst (processAudio 30 70
            (renderer_start
               (snd (processFrames 30 [45; 60]%float
                       (renderer_start (mkRenderer false false))))))
     = [audio_level 70; voice_detected].
Proof.
  split; [vm_compute; reflexivity |].
  split.
  - exact (proj1 (renderer_detections_alternate 30
                    [5; 45; 60; 20; 8; 31; 9; 2]%float
                    (renderer_start (mkRenderer false true)) eq_refl)).
  - split; [vm_compute; reflexivity |].
    apply (proj2 (proj2 (proj2 (proj2
             (renderer_detections_alternate 30 [45; 60]%float
                (renderer_start (mkRenderer false false)) eq_refl))))).
    vm_compute. reflexivity.
Defined.

End VoiceActivationEventsProperties.

(* ================================================================== *)
(** * Properties of streaming dictation over whole sessions *)
(* ================================================================== *)

Module StreamingDictationEventsProperties.

Import StreamingDictation StreamingDictationEvents.

Local Open Scope string_scope.

(** The texts handed to [writeText], in the order of the calls. *)
Fixpoint writes (sent : list Message) : list string :=
  match sent with
  | [] => []
  | writeText text :: rest => text :: writes rest
  | _ :: rest => writes rest
  end.

(** What one event asks to be typed: a final text itself, a line break for
    the command [new line], two for [new paragraph] (in any case of
    letters), nothing otherwise. *)
Definition inserted (e : Event) : list string :=
  match e with
  | text_update text true _ => [text]
  | voice_command command =>
      if String.eqb (JS.toLowerCase command) "new line" then [newline]
      else if String.eqb (JS.toLowerCase command) "new paragraph"
      then [newline ++ newline]
      else []
  | _ => []
  end.

Lemma writes_app : forall a b, writes (a ++ b) = (writes a ++ writes b)%list.
Proof.
  induction a as [| [| | | | text] a IH]; intros b; simpl; rewrite ?IH; reflexivity.
Qed.

Lemma step_writes :
  forall e m,
    accessibilityGranted (step e m) = accessibilityGranted m
    /\ writes (outbox (step e m))
       = (writes (outbox m) ++ if accessibilityGranted m then inserted e else [])%list.
Proof.
  intros e [init win [act lis cur fin c lvl lang st words] acc out].
  destruct e; simpl.
  - unfold start. simpl. destruct init, win, acc; simpl;
      rewrite ?writes_app, ?app_nil_r; simpl; rewrite ?app_nil_r; auto.
  - unfold stop. simpl. destruct win, acc; simpl;
      rewrite ?writes_app, ?app_nil_r; simpl; rewrite ?app_nil_r; auto.
  - unfold pause. simpl. destruct win, acc; simpl;
      rewrite ?writes_app, ?app_nil_r; simpl; rewrite ?app_nil_r; auto.
  - unfold resume. simpl. destruct win, acc; simpl;
      rewrite ?writes_app, ?app_nil_r; simpl; rewrite ?app_nil_r; auto.
  - unfold toggleStreamingDictation, start, stop. simpl.
    destruct act, init, win, acc; simpl;
      rewrite ?writes_app, ?app_nil_r; simpl; rewrite ?app_nil_r; auto.
  - unfold onTextUpdate, insertText. simpl.
    destruct isFinal, acc; simpl;
      rewrite ?writes_app, ?app_nil_r; simpl; rewrite ?app_nil_r; auto.
  - unfold onVoiceCommand, insertText, stop, pause, resume. simpl.
    destruct (String.eqb (JS.toLowerCase command) "new line");
      [destruct acc; simpl; rewrite ?writes_app, ?app_nil_r; auto |].
    destruct (String.eqb (JS.toLowerCase command) "new paragraph");
      [destruct acc; simpl; rewrite ?writes_app, ?app_nil_r; auto |].
    destruct (String.eqb (JS.toLowerCase command) "stop dictation");
      [destruct win, acc; simpl; rewrite ?writes_app, ?app_nil_r; simpl;
       rewrite ?app_nil_r; auto |].
    destruct (String.eqb (JS.toLowerCase command) "pause dictation");
      [destruct win, acc; simpl; rewrite ?writes_app, ?app_nil_r; simpl;
       rewrite ?app_nil_r; auto |].
    destruct (String.eqb (JS.toLowerCase command) "resume dictation");
      [destruct win, acc; simpl; rewrite ?writes_app, ?app_nil_r; simpl;
       rewrite ?app_nil_r; auto |].
    destruct acc; simpl; rewrite ?app_nil_r; auto.
  - destruct acc; simpl; rewrite ?app_nil_r; auto.
  - destruct acc; simpl; rewrite ?app_nil_r; auto.
Qed.

(** What a session types into the focused application: with accessibility
    granted, exactly the final texts and the line breaks of the commands
    [new line] and [new paragraph], in the order they arrive, and nothing
    for an interim text; this does not depend on the session being active,
    so a final text that arrives after [stop] or before [start] is typed
    too.  Without accessibility nothing is ever typed. *)
Theorem session_types_final_texts :
  forall (trace : list Event) (m : Manager),
    writes (outbox (run trace m))
    = (writes (outbox m)
       ++ if accessibilityGranted m then flat_map inserted trace else [])%list.
Proof.
  unfold run. induction trace as [| e trace IH]; intros m; simpl.
  - destruct (accessibilityGranted m); now rewrite app_nil_r.
  - rewrite IH. destruct (step_writes e m) as [-> ->].
    destruct (accessibilityGranted m); rewrite <- app_assoc; reflexivity.
Qed.

(** ** The word counter *)

Definition no_restart (e : Event) : Prop :=
  match e with
  | start_called _ | toggle_called _ => False
  | _ => True
  end.

Definition words_of (e : Event) : nat :=
  match e with
  | text_update text true _ => countWords text
  | _ => 0
  end.

Lemma step_words :
  forall e m,
    no_restart e ->
    wordsSpoken (currentState (step e m)) = wordsSpoken (currentState m) + words_of e
    /\ startTime (currentState (step e m)) = startTime (currentState m).
Proof.
  intros e [init win [act lis cur fin c lvl lang st words] acc out] He.
  destruct e; simpl in He; try contradiction; simpl.
  - unfold stop. simpl. destruct win; simpl; auto.
  - unfold pause. simpl. destruct win; simpl; auto.
  - unfold resume. simpl. destruct win; simpl; auto.
  - unfold onTextUpdate, insertText, countWords. simpl.
    destruct isFinal, acc; simpl; auto.
  - unfold onVoiceCommand, insertText, stop, pause, resume. simpl.
    repeat match goal with
           | |- context [if String.eqb ?a ?b then _ else _] => destruct (String.eqb a b)
           end;
      destruct win, acc; simpl; auto.
  - auto.
  - auto.
Qed.

(** From a [start] on an initialized manager until the next start,
    [wordsSpoken] is the number of words of the final texts received since,
    whatever else happens in between: a [stop], a pause or a resume, voice
    commands, interim texts and audio levels add nothing and reset nothing,
    and final texts that arrive after a [stop] are still counted.
    [startTime] stays the time of that start. *)
Theorem wordsSpoken_since_start :
  forall (now : Z) (trace : list Event) (m : Manager),
    isInitialized m = true ->
    Forall no_restart trace ->
    wordsSpoken (getState (run trace (start now m)))
    = list_sum (map words_of trace)
    /\ startTime (getState (run trace (start now m))) = now.
Proof.
  intros now trace m Hinit Htrace.
  assert (Hstart : wordsSpoken (currentState (start now m)) = 0
                   /\ startTime (currentState (start now m)) = now).
  { unfold start. rewrite Hinit. simpl. destruct (recognitionWindow m); auto. }
  set (m0 := start now m) in *. clearbody m0.
  assert (Hgen : forall m1,
             wordsSpoken (currentState (run trace m1))
             = wordsSpoken (currentState m1) + list_sum (map words_of trace)
             /\ startTime (currentState (run trace m1)) = startTime (currentState m1)).
  { unfold run. induction Htrace as [| e trace He _ IH]; intros m1; simpl.
    - split; [lia | reflexivity].
    - destruct (IH (step e m1)) as [-> ->].
      destruct (step_words e m1 He) as [-> ->]. split; [lia | reflexivity]. }
  unfold getState. destruct (Hgen m0) as [-> ->]. destruct Hstart as [-> ->].
  split; reflexivity.
Qed.

(** *** A session *)

Definition dictation_session : list Event :=
  [text_update "hel" false 0.4;
   text_update "hello world" true 0.9;
   voice_command "New Line";
   stop_called;
   text_update "  late   words here " true 0.8;
   voice_command "delete";
   audio_level 12].

Lemma session_types_final_texts_example :
  writes (outbox (run dictation_session (start 1000 (initialized_manager true))))
  = ["hello world"; newline; "  late   words here "]
  /\ writes (outbox (run dictation_session (start 1000 (initialized_manager false))))
     = [].
Proof.
  split.
  - rewrite (session_types_final_texts dictation_session
               (start 1000 (initialized_manager true))).
    reflexivity.
  - rewrite (session_types_final_texts dictation_session
               (start 1000 (initialized_manager false))).
    reflexivity.
Defined.

Lemma wordsSpoken_since_start_example :
  wordsSpoken (getState (run dictation_session (start 1000 (initialized_manager true))))
  = 5
  /\ isActive (getState (run dictation_session (start 1000 (initialized_manager true))))
     = false.
Proof.
  split; [| reflexivity].
  rewrite (proj1 (wordsSpoken_since_start 1000 dictation_session
                    (initialized_manager true) eq_refl
                    ltac:(repeat constructor))).
  vm_compute. reflexivity.
Defined.

End StreamingDictationEventsProperties.
